(** * migrate: DDL parser, dialect transformer and schema differ

    A shallow embedding of [internal/schema] (data model and DDL parser),
    [internal/dialect] (the transformer) and [internal/diff] (the differ)
    of the Go program, with the properties its specification states.

    Conventions of the embedding:
    - a Go [string] is a [string] of 8-bit characters, its bytes; a loop
      [for _, ch := range s] goes through the runes decoded from them as
      UTF-8, a byte that starts no valid sequence read as [U+FFFD], and
      [WriteRune] writes the UTF-8 encoding of a rune;
    - the character classes ([\s], [\w], [unicode.IsSpace]) and the case
      mapping ([strings.ToUpper], [(?i)], [strings.EqualFold]) are the
      ASCII ones, on which Go's Unicode-aware functions agree for ASCII
      text;
    - a Go slice is a [list] (a nil slice and an empty one are both [[]]);
    - a Go pointer that may be nil ([*PrimaryKey], [*string]) is an [option];
    - a Go [map[string]T] is a [gmap string T], ranged over in the order of
      [map_to_list];
    - a run-time panic is an explicit outcome of the functions that can
      raise one. *)

From Stdlib Require Import Ascii DecimalString.
From stdpp Require Import base list strings gmap fin_maps.

Local Open Scope char_scope.
Local Open Scope string_scope.
Local Open Scope nat_scope.

(** ** The Go [strings] package, as far as the program uses it *)
Module GoStrings.

Fixpoint len (s : string) : nat :=
  match s with
  | EmptyString => 0
  | String _ s' => S (len s')
  end.

(** [s[n:]] for [n <= len s]. *)
Fixpoint drop_str (n : nat) (s : string) : string :=
  match n, s with
  | 0, _ => s
  | S n', String _ s' => drop_str n' s'
  | S _, EmptyString => EmptyString
  end.

(** [s[:n]] for [n <= len s]. *)
Fixpoint take_str (n : nat) (s : string) : string :=
  match n, s with
  | 0, _ => EmptyString
  | S n', String c s' => String c (take_str n' s')
  | S _, EmptyString => EmptyString
  end.

Definition eqb_ascii (a b : ascii) : bool := Ascii.eqb a b.

Definition is_lower (c : ascii) : bool :=
  (97 <=? nat_of_ascii c) && (nat_of_ascii c <=? 122).

Definition is_upper (c : ascii) : bool :=
  (65 <=? nat_of_ascii c) && (nat_of_ascii c <=? 90).

Definition is_digit (c : ascii) : bool :=
  (48 <=? nat_of_ascii c) && (nat_of_ascii c <=? 57).

Definition upper_ascii (c : ascii) : ascii :=
  if is_lower c then ascii_of_nat (nat_of_ascii c - 32) else c.

(** [strings.ToUpper]. *)
Fixpoint ToUpper (s : string) : string :=
  match s with
  | EmptyString => EmptyString
  | String c s' => String (upper_ascii c) (ToUpper s')
  end.

(** [strings.EqualFold]. *)
Fixpoint EqualFold (s t : string) : bool :=
  match s, t with
  | EmptyString, EmptyString => true
  | String a s', String b t' =>
      eqb_ascii (upper_ascii a) (upper_ascii b) && EqualFold s' t'
  | _, _ => false
  end.

(** [strings.HasPrefix s prefix]. *)
Fixpoint HasPrefix (s prefix : string) : bool :=
  match prefix, s with
  | EmptyString, _ => true
  | String p prefix', String c s' => eqb_ascii c p && HasPrefix s' prefix'
  | String _ _, EmptyString => false
  end.

(** [strings.Contains s substr]. *)
Fixpoint Contains (s substr : string) : bool :=
  HasPrefix s substr ||
  match s with
  | EmptyString => false
  | String _ s' => Contains s' substr
  end.

(** [strings.Index s substr]: [None] stands for [-1]. *)
Fixpoint Index (s substr : string) : option nat :=
  if HasPrefix s substr then Some 0
  else match s with
       | EmptyString => None
       | String _ s' => S <$> Index s' substr
       end.

(** [strings.LastIndex s substr]: [None] stands for [-1]. *)
Fixpoint LastIndex (s substr : string) : option nat :=
  match s with
  | EmptyString => if HasPrefix s substr then Some 0 else None
  | String _ s' =>
      match LastIndex s' substr with
      | Some i => Some (S i)
      | None => if HasPrefix s substr then Some 0 else None
      end
  end.

(** [unicode.IsSpace] on ASCII: tab, newline, vertical tab, form feed,
    carriage return, space. *)
Definition is_space (c : ascii) : bool :=
  match c with
  | "009" | "010" | "011" | "012" | "013" | " " => true
  | _ => false
  end%char.

Fixpoint mem_ascii (c : ascii) (cutset : string) : bool :=
  match cutset with
  | EmptyString => false
  | String d cutset' => eqb_ascii c d || mem_ascii c cutset'
  end.

Fixpoint trim_left_by (p : ascii -> bool) (s : string) : string :=
  match s with
  | EmptyString => EmptyString
  | String c s' => if p c then trim_left_by p s' else s
  end.

(** Drops the trailing characters that satisfy [p]: the result of the
    recursive call is empty exactly when everything after [c] is dropped. *)
Fixpoint trim_right_by (p : ascii -> bool) (s : string) : string :=
  match s with
  | EmptyString => EmptyString
  | String c s' =>
      match trim_right_by p s' with
      | EmptyString => if p c then EmptyString else String c EmptyString
      | r => String c r
      end
  end.

Definition trim_by (p : ascii -> bool) (s : string) : string :=
  trim_right_by p (trim_left_by p s).

(** [strings.TrimSpace]. *)
Definition TrimSpace (s : string) : string := trim_by is_space s.

(** [strings.Trim s cutset]. *)
Definition Trim (s cutset : string) : string :=
  trim_by (fun c => mem_ascii c cutset) s.

(** [strings.Fields]: the maximal runs of non-space characters.  [cur] is
    the run being read, reversed. *)
Fixpoint fields_go (cur : option string) (s : string) : list string :=
  match s with
  | EmptyString =>
      match cur with Some w => [String.rev w] | None => [] end
  | String c s' =>
      if is_space c then
        match cur with
        | Some w => String.rev w :: fields_go None s'
        | None => fields_go None s'
        end
      else
        fields_go (Some (String c (default EmptyString cur))) s'
  end.

Definition Fields (s : string) : list string := fields_go None s.

(** [strings.Split s sep] for a one-character separator: always at least
    one piece. *)
Fixpoint split_go (sep : ascii) (cur : string) (s : string) : list string :=
  match s with
  | EmptyString => [String.rev cur]
  | String c s' =>
      if eqb_ascii c sep then String.rev cur :: split_go sep EmptyString s'
      else split_go sep (String c cur) s'
  end.

Definition Split (s : string) (sep : ascii) : list string :=
  split_go sep EmptyString s.

(** [strings.Join]. *)
Fixpoint Join (l : list string) (sep : string) : string :=
  match l with
  | [] => EmptyString
  | [x] => x
  | x :: l' => x +:+ sep +:+ Join l' sep
  end.

(** [strings.Replace s old new 1]: the first occurrence only. *)
Fixpoint ReplaceFirst (s old new : string) : string :=
  if HasPrefix s old then new +:+ drop_str (len old) s
  else match s with
       | EmptyString => EmptyString
       | String c s' => String c (ReplaceFirst s' old new)
       end.

End GoStrings.

(** ** The Go [unicode/utf8] package and the runes of a string *)
Module Utf8.
Import GoStrings.
Local Open Scope Z_scope.

(** A Go [rune] is an [int32]. *)
Definition rune : Type := Z.

Definition RuneError : rune := 0xFFFD.
Definition MaxRune : rune := 0x10FFFF.
Definition surrogateMin : Z := 0xD800.
Definition surrogateMax : Z := 0xDFFF.

Definition t2 : Z := 0xC0.
Definition t3 : Z := 0xE0.
Definition t4 : Z := 0xF0.
Definition tx : Z := 0x80.
Definition maskx : Z := 0x3F.
Definition mask2 : Z := 0x1F.
Definition mask3 : Z := 0x0F.
Definition mask4 : Z := 0x07.
Definition rune1Max : Z := 0x7F.
Definition rune2Max : Z := 0x7FF.
Definition rune3Max : Z := 0xFFFF.
Definition locb : Z := 0x80.
Definition hicb : Z := 0xBF.

(** The value of a byte of a string, and the byte with a given value. *)
Definition byte_val (c : ascii) : Z := Z.of_N (N_of_ascii c).
Definition byte_of (z : Z) : ascii := ascii_of_N (Z.to_N (z mod 256)).

(** A rune literal of the program: an ASCII character. *)
Definition rune_lit (c : ascii) : rune := byte_val c.

(** The table [first] of the package, by what an entry says of a first
    byte: an ASCII byte, a byte that starts no sequence, or the start of a
    sequence of [size] bytes whose second byte lies in [lo..hi]. *)
Inductive first_info : Type :=
| ascii_byte
| invalid_byte
| lead_byte (size : nat) (lo hi : Z).

Definition first (b : Z) : first_info :=
  if b <? 0x80 then ascii_byte
  else if b <? 0xC2 then invalid_byte
  else if b <? 0xE0 then lead_byte 2 locb hicb
  else if b =? 0xE0 then lead_byte 3 0xA0 hicb
  else if b <? 0xED then lead_byte 3 locb hicb
  else if b =? 0xED then lead_byte 3 locb 0x9F
  else if b <? 0xF0 then lead_byte 3 locb hicb
  else if b =? 0xF0 then lead_byte 4 0x90 hicb
  else if b <? 0xF4 then lead_byte 4 locb hicb
  else if b =? 0xF4 then lead_byte 4 locb 0x8F
  else invalid_byte.

(** [utf8.DecodeRuneInString]: the first rune of [s] and its width in
    bytes; [(RuneError, 1)] for a byte that starts no valid sequence. *)
Definition DecodeRuneInString (s : string) : rune * nat :=
  match s with
  | EmptyString => (RuneError, 0%nat)
  | String c0 rest0 =>
      let s0 := byte_val c0 in
      match first s0 with
      | ascii_byte => (s0, 1%nat)
      | invalid_byte => (RuneError, 1%nat)
      | lead_byte sz lo hi =>
          if (len s <? sz)%nat then (RuneError, 1%nat)
          else
            match rest0 with
            | EmptyString => (RuneError, 1%nat)
            | String c1 rest1 =>
                let s1 := byte_val c1 in
                if (s1 <? lo) || (hi <? s1) then (RuneError, 1%nat)
                else if (sz <=? 2)%nat then
                  (Z.lor (Z.shiftl (Z.land s0 mask2) 6) (Z.land s1 maskx),
                   2%nat)
                else
                  match rest1 with
                  | EmptyString => (RuneError, 1%nat)
                  | String c2 rest2 =>
                      let s2 := byte_val c2 in
                      if (s2 <? locb) || (hicb <? s2) then (RuneError, 1%nat)
                      else if (sz <=? 3)%nat then
                        (Z.lor (Z.lor (Z.shiftl (Z.land s0 mask3) 12)
                                      (Z.shiftl (Z.land s1 maskx) 6))
                               (Z.land s2 maskx), 3%nat)
                      else
                        match rest2 with
                        | EmptyString => (RuneError, 1%nat)
                        | String c3 _ =>
                            let s3 := byte_val c3 in
                            if (s3 <? locb) || (hicb <? s3)
                            then (RuneError, 1%nat)
                            else
                              (Z.lor
                                 (Z.lor
                                    (Z.lor (Z.shiftl (Z.land s0 mask4) 18)
                                           (Z.shiftl (Z.land s1 maskx) 12))
                                    (Z.shiftl (Z.land s2 maskx) 6))
                                 (Z.land s3 maskx), 4%nat)
                        end
                  end
            end
      end
  end.

(** The three bytes of a rune below [0x10000]. *)
Definition encode3 (r : rune) : string :=
  String (byte_of (Z.lor t3 (Z.shiftr r 12 mod 256)))
    (String (byte_of (Z.lor tx (Z.land (Z.shiftr r 6 mod 256) maskx)))
       (String (byte_of (Z.lor tx (Z.land (r mod 256) maskx))) EmptyString)).

(** [utf8.AppendRune] to an empty buffer: the UTF-8 encoding of a rune,
    that of [RuneError] for a rune out of range or a surrogate half. *)
Definition EncodeRune (r : rune) : string :=
  let i := r mod 2 ^ 32 in
  if i <=? rune1Max then String (byte_of r) EmptyString
  else if i <=? rune2Max then
    String (byte_of (Z.lor t2 (Z.shiftr r 6 mod 256)))
      (String (byte_of (Z.lor tx (Z.land (r mod 256) maskx))) EmptyString)
  else if (MaxRune <? i) || ((surrogateMin <=? i) && (i <=? surrogateMax))
  then encode3 RuneError
  else if i <=? rune3Max then encode3 r
  else
    String (byte_of (Z.lor t4 (Z.shiftr r 18 mod 256)))
      (String (byte_of (Z.lor tx (Z.land (Z.shiftr r 12 mod 256) maskx)))
         (String (byte_of (Z.lor tx (Z.land (Z.shiftr r 6 mod 256) maskx)))
            (String (byte_of (Z.lor tx (Z.land (r mod 256) maskx)))
               EmptyString))).

(** The runes a [for _, ch := range s] loop goes through: each step decodes
    one rune and moves on by its width.  [skip] counts the bytes still to
    pass over of the rune read last. *)
Fixpoint runes_from (skip : nat) (s : string) : list rune :=
  match s with
  | EmptyString => []
  | String _ s' =>
      match skip with
      | S k => runes_from k s'
      | O =>
          let '(r, size) := DecodeRuneInString s in
          r :: runes_from (size - 1) s'
      end
  end.

Definition runes (s : string) : list rune := runes_from 0 s.

(** The conversion [string(rs)] of a slice of runes. *)
Fixpoint string_of_runes (rs : list rune) : string :=
  match rs with
  | [] => EmptyString
  | r :: rs' => EncodeRune r +:+ string_of_runes rs'
  end.

(** [utf8.ValidString]: no byte of the text is one that starts no valid
    sequence. *)
Fixpoint valid_from (skip : nat) (s : string) : bool :=
  match s with
  | EmptyString => true
  | String _ s' =>
      match skip with
      | S k => valid_from k s'
      | O =>
          let '(r, size) := DecodeRuneInString s in
          negb ((r =? RuneError) && (size =? 1)%nat) &&
          valid_from (size - 1) s'
      end
  end.

Definition ValidString (s : string) : bool := valid_from 0 s.

(** [strings.Builder.WriteRune]: the buffer with the encoding of the rune
    appended. *)
Definition WriteRune (buf : string) (r : rune) : string :=
  buf +:+ EncodeRune r.

End Utf8.

(** ** Go regular expressions

    The patterns of the program are written as syntax trees and run by a
    backtracking matcher with the preference order of Go's [regexp]
    (leftmost match; alternatives in order; greedy repetition prefers one
    more iteration, lazy repetition prefers to stop). *)
Module Regexp.
Import GoStrings.

Inductive regex : Type :=
| Eps                                   (* the empty pattern *)
| Class (p : ascii -> bool)             (* one character of a class *)
| Cat (r1 r2 : regex)                   (* r1r2 *)
| Or (r1 r2 : regex)                    (* r1|r2 *)
| Rep (greedy : bool) (r : regex)       (* r* and r*? *)
| Cap (i : nat) (r : regex)             (* capture group number i *)
| EndText.                              (* $ *)

(** The text of the capture groups that took part in the match, the most
    recent binding of a group first. *)
Definition caps : Type := list (nat * string).

Fixpoint exec {A : Type} (r : regex) (s : string) (c : caps)
    (k : string -> caps -> option A) {struct r} : option A :=
  match r with
  | Eps => k s c
  | Class p =>
      match s with
      | String a s' => if p a then k s' c else None
      | EmptyString => None
      end
  | Cat r1 r2 => exec r1 s c (fun s1 c1 => exec r2 s1 c1 k)
  | Or r1 r2 =>
      match exec r1 s c k with
      | Some x => Some x
      | None => exec r2 s c k
      end
  | Rep greedy r' =>
      (fix loop (n : nat) (s : string) (c : caps) {struct n} : option A :=
         let again :=
           match n with
           | 0 => None
           | S n' =>
               exec r' s c
                 (fun s1 c1 => if len s1 <? len s then loop n' s1 c1 else None)
           end in
         if greedy then
           match again with Some x => Some x | None => k s c end
         else
           match k s c with Some x => Some x | None => again end)
        (len s) s c
  | Cap i r' =>
      exec r' s c
        (fun s1 c1 => k s1 ((i, take_str (len s - len s1) s) :: c1))
  | EndText =>
      match s with
      | EmptyString => k s c
      | String _ _ => None
      end
  end.

(** A match anchored at the start of [s]: the text left after it and the
    captures. *)
Definition match_here (r : regex) (s : string) : option (string * caps) :=
  exec r s [] (fun s' c => Some (s', c)).

Record found : Type := mkFound {
  f_start : nat;       (* index of the first character of the match *)
  f_text : string;     (* the matched text *)
  f_caps : caps;
  f_rest : string      (* the text after the match *)
}.

(** The leftmost match. *)
Fixpoint find_from (r : regex) (start : nat) (s : string) : option found :=
  match match_here r s with
  | Some (s', c) =>
      Some (mkFound start (take_str (len s - len s') s) c s')
  | None =>
      match s with
      | EmptyString => None
      | String _ s' => find_from r (S start) s'
      end
  end.

Definition find (r : regex) (s : string) : option found := find_from r 0 s.

Fixpoint cap_get (c : caps) (i : nat) : string :=
  match c with
  | [] => EmptyString
  | (j, t) :: c' => if Nat.eqb i j then t else cap_get c' i
  end.

(** [re.FindStringSubmatch s] for a pattern with [groups] capture groups:
    [None] is the nil slice; otherwise the list has [groups + 1] entries,
    the whole match first, and a group that took no part is empty. *)
Definition FindStringSubmatch (r : regex) (groups : nat) (s : string)
  : option (list string) :=
  match find r s with
  | Some f => Some (f_text f :: map (cap_get (f_caps f)) (seq 1 groups))
  | None => None
  end.

(** [re.ReplaceAllString s repl] for a pattern that cannot match the empty
    string and a replacement without [$]: [n] bounds the number of steps by
    the length of the text. *)
Fixpoint replace_go (r : regex) (repl : string) (n : nat) (s : string)
  : string :=
  match n with
  | 0 => s
  | S n' =>
      match match_here r s with
      | Some (s', _) =>
          if len s' <? len s then repl +:+ replace_go r repl n' s'
          else match s with
               | EmptyString => EmptyString
               | String a t => String a (replace_go r repl n' t)
               end
      | None =>
          match s with
          | EmptyString => EmptyString
          | String a t => String a (replace_go r repl n' t)
          end
      end
  end.

Definition ReplaceAllString (r : regex) (s repl : string) : string :=
  replace_go r repl (len s) s.

(** *** Pattern syntax *)

Fixpoint cat_all (rs : list regex) : regex :=
  match rs with
  | [] => Eps
  | [r] => r
  | r :: rs' => Cat r (cat_all rs')
  end.

Definition plus (r : regex) : regex := Cat r (Rep true r).       (* r+ *)
Definition plus_lazy (r : regex) : regex := Cat r (Rep false r). (* r+? *)
Definition star (r : regex) : regex := Rep true r.               (* r* *)
Definition star_lazy (r : regex) : regex := Rep false r.         (* r*? *)
Definition opt (r : regex) : regex := Or r Eps.                  (* r? *)

Definition chr (a : ascii) : regex := Class (eqb_ascii a).
(** A letter under the flag [(?i)]. *)
Definition chr_i (a : ascii) : regex :=
  Class (fun b => eqb_ascii (upper_ascii b) (upper_ascii a)).

Fixpoint lit (s : string) : regex :=
  match s with
  | EmptyString => Eps
  | String a EmptyString => chr a
  | String a s' => Cat (chr a) (lit s')
  end.

Fixpoint lit_i (s : string) : regex :=
  match s with
  | EmptyString => Eps
  | String a EmptyString => chr_i a
  | String a s' => Cat (chr_i a) (lit_i s')
  end.

(** [\s]: tab, newline, form feed, carriage return, space. *)
Definition re_space (c : ascii) : bool :=
  match c with
  | "009" | "010" | "012" | "013" | " " => true
  | _ => false
  end%char.

(** [\w]: letters, digits and underscore. *)
Definition re_word (c : ascii) : bool :=
  is_digit c || is_upper c || is_lower c || eqb_ascii c "_".

Definition s1 : regex := plus (Class re_space).                  (* \s+ *)
Definition s0 : regex := star (Class re_space).                  (* \s* *)
Definition w1 : regex := plus (Class re_word).                   (* \w+ *)
Definition any : regex := Class (fun c => negb (eqb_ascii c "010")). (* . *)
Definition not_rparen : regex :=
  Class (fun c => negb (eqb_ascii c ")")).                       (* [^)] *)
Definition quote : regex :=
  Class (fun c => eqb_ascii c "034" || eqb_ascii c "'").         (* a double or a single quote *)

End Regexp.

(** ** Outcomes of Go code that can panic *)
Module Go.

Inductive outcome (A : Type) : Type :=
| Returned (a : A)
| Panicked (msg : string).
Arguments Returned {A} a.
Arguments Panicked {A} msg.

Definition bind {A B : Type} (m : outcome A) (f : A -> outcome B)
  : outcome B :=
  match m with
  | Returned a => f a
  | Panicked msg => Panicked msg
  end.

(** A Go [error] value, by its message; [None] is the nil error. *)
Definition error : Type := string.

(** The slice expression [s[lo:hi]] of a string: it panics unless
    [lo <= hi <= len(s)]. *)
Definition slice (s : string) (lo hi : nat) : outcome string :=
  if (lo <=? hi) && (hi <=? GoStrings.len s)
  then Returned (GoStrings.take_str (hi - lo) (GoStrings.drop_str lo s))
  else Panicked "slice bounds out of range".

(** [for _, x := range l { acc = body(acc, x) }] where the body may panic. *)
Fixpoint range_fold {A S : Type} (body : S -> A -> outcome S) (l : list A)
    (acc : S) : outcome S :=
  match l with
  | [] => Returned acc
  | x :: l' => bind (body acc x) (range_fold body l')
  end.

(** [for _, ch := range s { st = step(st, ch) }] over the runes of a
    string. *)
Definition range_string {S : Type} (step : S -> Utf8.rune -> S) (s : string)
    (st : S) : S :=
  fold_left step (Utf8.runes s) st.

End Go.

#[global] Instance outcome_ret : MRet Go.outcome := @Go.Returned.
#[global] Instance outcome_bind : MBind Go.outcome :=
  fun A B f m => Go.bind m f.

(** ** internal/schema: the data model *)
Module Schema.
Import GoStrings Utf8 Regexp Go.

Record Column : Type := mkColumn {
  Column_Name : string;
  Column_Type : string;
  Column_Nullable : bool;
  Column_Default : option string;
  Column_IsPrimaryKey : bool;
  Column_IsUnique : bool;
  Column_IsIdentity : bool;
  Column_Comment : string
}.

Record PrimaryKey : Type := mkPrimaryKey {
  PrimaryKey_Name : string;
  PrimaryKey_Columns : list string
}.

Record ForeignKey : Type := mkForeignKey {
  ForeignKey_Name : string;
  ForeignKey_Columns : list string;
  ForeignKey_ReferencedTable : string;
  ForeignKey_ReferencedSchema : string;
  ForeignKey_ReferencedCols : list string;
  ForeignKey_OnDelete : string;
  ForeignKey_OnUpdate : string
}.

Record Index : Type := mkIndex {
  Index_Name : string;
  Index_Table : string;
  Index_Schema : string;
  Index_Columns : list string;
  Index_IsUnique : bool;
  Index_IsPrimary : bool;
  Index_Type : string
}.

Record Constraint : Type := mkConstraint {
  Constraint_Name : string;
  Constraint_Type : string;
  Constraint_Columns : list string;
  Constraint_Expression : string
}.

Record View : Type := mkView {
  View_Name : string;
  View_Schema : string;
  View_Definition : string
}.

Record Table : Type := mkTable {
  Table_Name : string;
  Table_Schema : string;
  Table_Columns : list Column;
  Table_PrimaryKey : option PrimaryKey;
  Table_ForeignKeys : list ForeignKey;
  Table_Indexes : list Index;
  Table_Constraints : list Constraint
}.

Record Schema : Type := mkSchema {
  Tables : list Table;
  Indexes : list Index;
  Views : list View
}.

(** *** Helper functions of the parser *)

(** The cut set of the [strings.Trim] calls: double quote, single quote,
    back quote. *)
Definition quote_cutset : string := String "034" "'``".

(** [--[^\n]*] *)
Definition lineCommentRe : regex :=
  Cat (lit "--") (star (Class (fun c => negb (eqb_ascii c "010")))).

(** [/\*[\s\S]*?\*/] *)
Definition blockCommentRe : regex :=
  cat_all [lit "/*"; star_lazy (Class (fun _ => true)); lit "*/"].

Definition normalizeSQL (sql : string) : string :=
  let sql := ReplaceAllString lineCommentRe sql "" in
  let sql := ReplaceAllString blockCommentRe sql "" in
  let sql := ReplaceAllString s1 sql " " in
  TrimSpace sql.

(** The loop state of [splitStatements]. *)
Record split_state : Type := mkSplit {
  statements : list string;
  current : string;
  inString : bool;
  stringChar : rune
}.

Definition split_step (st : split_state) (ch : rune) : split_state :=
  let '(inS, sc) :=
    if negb (inString st) &&
       ((ch =? rune_lit "'")%Z || (ch =? rune_lit "034")%Z)
    then (true, ch)
    else if inString st && (ch =? stringChar st)%Z
    then (false, stringChar st)
    else (inString st, stringChar st) in
  if (ch =? rune_lit ";")%Z && negb inS
  then mkSplit (statements st ++ [current st]) EmptyString inS sc
  else mkSplit (statements st) (WriteRune (current st) ch) inS sc.

Definition split_init : split_state := mkSplit [] EmptyString false 0%Z.

Definition split_finish (st : split_state) : list string :=
  if 0 <? len (current st) then statements st ++ [current st]
  else statements st.

Definition splitStatements (sql : string) : list string :=
  split_finish (range_string split_step sql split_init).

(** The loop state of [splitColumnDefs]: the definitions found, the text of
    the one being read, the parenthesis depth (a Go [int], which goes below
    zero on an unmatched closing parenthesis). *)
Record defs_state : Type := mkDefs {
  defs : list string;
  defs_current : string;
  parenDepth : Z
}.

Definition defs_step (st : defs_state) (ch : rune) : defs_state :=
  let write := WriteRune (defs_current st) ch in
  if (ch =? rune_lit "(")%Z then mkDefs (defs st) write (parenDepth st + 1)%Z
  else if (ch =? rune_lit ")")%Z
  then mkDefs (defs st) write (parenDepth st - 1)%Z
  else if (ch =? rune_lit ",")%Z then
    if (parenDepth st =? 0)%Z
    then mkDefs (defs st ++ [defs_current st]) EmptyString (parenDepth st)
    else mkDefs (defs st) write (parenDepth st)
  else mkDefs (defs st) write (parenDepth st).

Definition splitColumnDefs (body : string) : list string :=
  let st := range_string defs_step body (mkDefs [] EmptyString 0%Z) in
  if 0 <? len (defs_current st) then defs st ++ [defs_current st]
  else defs st.

(** *** The patterns of the parser *)

Fixpoint alt_all (rs : list regex) : regex :=
  match rs with
  | [] => Eps
  | [r] => r
  | r :: rs' => Or r (alt_all rs')
  end.

(** The tail [(?:(\w+)\.)?[quote]?(\w+)[quote]?] shared by the name
    patterns: an optional namespace in group [i], the name in group
    [i + 1]. *)
Definition qualified_name (i : nat) : list regex :=
  [opt (Cat (Cap i w1) (chr ".")); opt quote; Cap (S i) w1; opt quote].

(** [(?i)CREATE\s+TABLE\s+(?:IF\s+NOT\s+EXISTS\s+)?] followed by the
    qualified name. *)
Definition tableNameRe : regex :=
  cat_all ([lit_i "CREATE"; s1; lit_i "TABLE"; s1;
            opt (cat_all [lit_i "IF"; s1; lit_i "NOT"; s1; lit_i "EXISTS"; s1])]
           ++ qualified_name 1).

(** [(?i)DEFAULT\s+(.+?)(?:\s+(?:NOT\s+)?NULL|\s+PRIMARY|\s+UNIQUE|\s+CHECK|\s+REFERENCES|,|$)] *)
Definition defaultRe : regex :=
  cat_all [lit_i "DEFAULT"; s1; Cap 1 (plus_lazy any);
           alt_all [cat_all [s1; opt (Cat (lit_i "NOT") s1); lit_i "NULL"];
                    Cat s1 (lit_i "PRIMARY");
                    Cat s1 (lit_i "UNIQUE");
                    Cat s1 (lit_i "CHECK");
                    Cat s1 (lit_i "REFERENCES");
                    chr ",";
                    EndText]].

(** [\(([^)]+)\)] *)
Definition colsRe : regex :=
  cat_all [chr "("; Cap 1 (plus not_rparen); chr ")"].

(** [(?i)FOREIGN\s+KEY\s*\(([^)]+)\)] *)
Definition localRe : regex :=
  cat_all [lit_i "FOREIGN"; s1; lit_i "KEY"; s0;
           chr "("; Cap 1 (plus not_rparen); chr ")"].

(** [(?i)REFERENCES\s+] followed by the qualified name and
    [\s*\(([^)]+)\)]. *)
Definition refRe : regex :=
  cat_all ([lit_i "REFERENCES"; s1] ++ qualified_name 1 ++
           [s0; chr "("; Cap 3 (plus not_rparen); chr ")"]).

(** [(?i)CHECK\s*\((.+)\)] *)
Definition checkRe : regex :=
  cat_all [lit_i "CHECK"; s0; chr "("; Cap 1 (plus any); chr ")"].

(** [(?i)CONSTRAINT\s+[quote]?(\w+)[quote]?] *)
Definition constraintNameRe : regex :=
  cat_all [lit_i "CONSTRAINT"; s1; opt quote; Cap 1 w1; opt quote].

(** [(?i)CREATE\s+(?:UNIQUE\s+)?INDEX\s+(?:IF\s+NOT\s+EXISTS\s+)?(?:CONCURRENTLY\s+)?[quote]?(\w+)[quote]?] *)
Definition indexNameRe : regex :=
  cat_all [lit_i "CREATE"; s1; opt (Cat (lit_i "UNIQUE") s1);
           lit_i "INDEX"; s1;
           opt (cat_all [lit_i "IF"; s1; lit_i "NOT"; s1; lit_i "EXISTS"; s1]);
           opt (Cat (lit_i "CONCURRENTLY") s1);
           opt quote; Cap 1 w1; opt quote].

(** [(?i)ON\s+] followed by the qualified name. *)
Definition indexTableRe : regex :=
  cat_all ([lit_i "ON"; s1] ++ qualified_name 1).

(** [(?i)\s+(ASC|DESC)$] *)
Definition ascDescRe : regex :=
  cat_all [s1; Cap 1 (Or (lit_i "ASC") (lit_i "DESC")); EndText].

(** [(?i)CREATE\s+(?:OR\s+REPLACE\s+)?VIEW\s+] followed by the qualified
    name. *)
Definition viewNameRe : regex :=
  cat_all ([lit_i "CREATE"; s1;
            opt (cat_all [lit_i "OR"; s1; lit_i "REPLACE"; s1]);
            lit_i "VIEW"; s1] ++ qualified_name 1).

(** [(?i)\sAS\s] *)
Definition asRe : regex :=
  cat_all [Class re_space; lit_i "AS"; Class re_space].

(** *** The parser *)

(** [strings.TrimSpace(strings.Trim(c, cutset))] over the pieces of a
    comma-separated column list. *)
Definition column_names (list_text : string) : list string :=
  map (fun c => TrimSpace (Trim c quote_cutset)) (Split list_text ",").

Definition parseColumnDef (def : string) : option Column :=
  match Fields def with
  | name :: type :: _ =>
      let upper := ToUpper def in
      let nullable := true in
      (* Check for NOT NULL *)
      let nullable := if Contains upper "NOT NULL" then false else nullable in
      (* Check for PRIMARY KEY *)
      let isPrimaryKey := Contains upper "PRIMARY KEY" in
      let nullable := if isPrimaryKey then false else nullable in
      (* Check for UNIQUE *)
      let isUnique := Contains upper "UNIQUE" in
      (* Check for identity/auto-increment *)
      let isIdentity :=
        Contains upper "SERIAL" || Contains upper "AUTO_INCREMENT" ||
        Contains upper "IDENTITY" || Contains upper "AUTOINCREMENT" in
      (* Check for DEFAULT *)
      let default :=
        match FindStringSubmatch defaultRe 1 def with
        | Some (_ :: val :: _) => Some (TrimSpace val)
        | _ => None
        end in
      Some {| Column_Name := Trim name quote_cutset;
              Column_Type := type;
              Column_Nullable := nullable;
              Column_Default := default;
              Column_IsPrimaryKey := isPrimaryKey;
              Column_IsUnique := isUnique;
              Column_IsIdentity := isIdentity;
              Column_Comment := EmptyString |}
  | _ => None
  end.

Definition parsePrimaryKeyConstraint (def : string) : PrimaryKey :=
  {| PrimaryKey_Name := EmptyString;
     PrimaryKey_Columns :=
       match FindStringSubmatch colsRe 1 def with
       | Some (_ :: cols :: _) => column_names cols
       | _ => []
       end |}.

(** The returned pointer is never nil; it is an [option] for the nil test
    of the callers. *)
Definition parseForeignKeyConstraint (def : string) : option ForeignKey :=
  let columns :=
    match FindStringSubmatch localRe 1 def with
    | Some (_ :: cols :: _) => column_names cols
    | _ => []
    end in
  let '(refSchema, refTable, refCols) :=
    match FindStringSubmatch refRe 3 def with
    | Some (_ :: ns :: tbl :: cols :: _) => (ns, tbl, column_names cols)
    | _ => (EmptyString, EmptyString, [])
    end in
  let onDelete :=
    if Contains (ToUpper def) "ON DELETE CASCADE" then "CASCADE"
    else if Contains (ToUpper def) "ON DELETE SET NULL" then "SET NULL"
    else EmptyString in
  let onUpdate :=
    if Contains (ToUpper def) "ON UPDATE CASCADE" then "CASCADE"
    else EmptyString in
  Some {| ForeignKey_Name := EmptyString;
          ForeignKey_Columns := columns;
          ForeignKey_ReferencedTable := refTable;
          ForeignKey_ReferencedSchema := refSchema;
          ForeignKey_ReferencedCols := refCols;
          ForeignKey_OnDelete := onDelete;
          ForeignKey_OnUpdate := onUpdate |}.

Definition parseUniqueConstraint (def : string) : option Constraint :=
  Some {| Constraint_Name := EmptyString;
          Constraint_Type := "UNIQUE";
          Constraint_Columns :=
            match FindStringSubmatch colsRe 1 def with
            | Some (_ :: cols :: _) => column_names cols
            | _ => []
            end;
          Constraint_Expression := EmptyString |}.

Definition parseCheckConstraint (def : string) : option Constraint :=
  Some {| Constraint_Name := EmptyString;
          Constraint_Type := "CHECK";
          Constraint_Columns := [];
          Constraint_Expression :=
            match FindStringSubmatch checkRe 1 def with
            | Some (_ :: expr :: _) => expr
            | _ => EmptyString
            end |}.

(** Field updates of the value a pointer refers to. *)
Definition set_PrimaryKey (pk : option PrimaryKey) (t : Table) : Table :=
  mkTable (Table_Name t) (Table_Schema t) (Table_Columns t) pk
          (Table_ForeignKeys t) (Table_Indexes t) (Table_Constraints t).

Definition add_Column (c : Column) (t : Table) : Table :=
  mkTable (Table_Name t) (Table_Schema t) (Table_Columns t ++ [c])
          (Table_PrimaryKey t) (Table_ForeignKeys t) (Table_Indexes t)
          (Table_Constraints t).

Definition add_ForeignKey (fk : ForeignKey) (t : Table) : Table :=
  mkTable (Table_Name t) (Table_Schema t) (Table_Columns t)
          (Table_PrimaryKey t) (Table_ForeignKeys t ++ [fk]) (Table_Indexes t)
          (Table_Constraints t).

Definition add_Constraint (c : Constraint) (t : Table) : Table :=
  mkTable (Table_Name t) (Table_Schema t) (Table_Columns t)
          (Table_PrimaryKey t) (Table_ForeignKeys t) (Table_Indexes t)
          (Table_Constraints t ++ [c]).

Definition name_PrimaryKey (name : string) (pk : PrimaryKey) : PrimaryKey :=
  mkPrimaryKey name (PrimaryKey_Columns pk).

Definition name_ForeignKey (name : string) (fk : ForeignKey) : ForeignKey :=
  mkForeignKey name (ForeignKey_Columns fk) (ForeignKey_ReferencedTable fk)
               (ForeignKey_ReferencedSchema fk) (ForeignKey_ReferencedCols fk)
               (ForeignKey_OnDelete fk) (ForeignKey_OnUpdate fk).

Definition name_Constraint (name : string) (c : Constraint) : Constraint :=
  mkConstraint name (Constraint_Type c) (Constraint_Columns c)
               (Constraint_Expression c).

(** [parseNamedConstraint(def, table)] updates the table in place; here it
    returns the updated table. *)
Definition parseNamedConstraint (def : string) (table : Table) : Table :=
  let upper := ToUpper def in
  let name :=
    match FindStringSubmatch constraintNameRe 1 def with
    | Some (_ :: n :: _) => n
    | _ => EmptyString
    end in
  if Contains upper "PRIMARY KEY" then
    set_PrimaryKey (Some (name_PrimaryKey name (parsePrimaryKeyConstraint def)))
                   table
  else if Contains upper "FOREIGN KEY" then
    match parseForeignKeyConstraint def with
    | Some fk => add_ForeignKey (name_ForeignKey name fk) table
    | None => table
    end
  else if Contains upper "UNIQUE" then
    match parseUniqueConstraint def with
    | Some c => add_Constraint (name_Constraint name c) table
    | None => table
    end
  else if Contains upper "CHECK" then
    match parseCheckConstraint def with
    | Some c => add_Constraint (name_Constraint name c) table
    | None => table
    end
  else table.

(** The body of the loop over the members of a CREATE TABLE. *)
Definition table_member (table : Table) (def : string) : Table :=
  let def := TrimSpace def in
  if len def =? 0 then table
  else
    let upper := ToUpper def in
    if HasPrefix upper "PRIMARY KEY" then
      set_PrimaryKey (Some (parsePrimaryKeyConstraint def)) table
    else if HasPrefix upper "FOREIGN KEY" then
      match parseForeignKeyConstraint def with
      | Some fk => add_ForeignKey fk table
      | None => table
      end
    else if HasPrefix upper "UNIQUE" then
      match parseUniqueConstraint def with
      | Some c => add_Constraint c table
      | None => table
      end
    else if HasPrefix upper "CHECK" then
      match parseCheckConstraint def with
      | Some c => add_Constraint c table
      | None => table
      end
    else if HasPrefix upper "CONSTRAINT" then
      parseNamedConstraint def table
    else
      match parseColumnDef def with
      | Some col => add_Column col table
      | None => table
      end.

Definition parseCreateTable (stmt : string)
  : outcome (Table * option error) :=
  let '(ns, name) :=
    match FindStringSubmatch tableNameRe 2 stmt with
    | Some (_ :: ns :: name :: _) => (ns, name)
    | _ => (EmptyString, EmptyString)
    end in
  let table := mkTable name ns [] None [] [] [] in
  match GoStrings.Index stmt "(", LastIndex stmt ")" with
  | Some parenStart, Some parenEnd =>
      body ← slice stmt (parenStart + 1) parenEnd;
      mret (fold_left table_member (splitColumnDefs body) table, None)
  | _, _ => mret (table, None)
  end.

Definition parseCreateIndex (stmt : string) : Index * option error :=
  let upper := ToUpper stmt in
  let name :=
    match FindStringSubmatch indexNameRe 1 stmt with
    | Some (_ :: n :: _) => n
    | _ => EmptyString
    end in
  let '(ns, table) :=
    match FindStringSubmatch indexTableRe 2 stmt with
    | Some (_ :: ns :: t :: _) => (ns, t)
    | _ => (EmptyString, EmptyString)
    end in
  let columns :=
    match FindStringSubmatch colsRe 1 stmt with
    | Some (_ :: cols :: _) =>
        map (fun c =>
               let c := TrimSpace c in
               let c := ReplaceAllString ascDescRe c EmptyString in
               Trim c quote_cutset)
            (Split cols ",")
    | _ => []
    end in
  ({| Index_Name := name;
      Index_Table := table;
      Index_Schema := ns;
      Index_Columns := columns;
      Index_IsUnique := Contains upper "UNIQUE";
      Index_IsPrimary := false;
      Index_Type := EmptyString |}, None).

Definition parseCreateView (stmt : string) : View * option error :=
  let '(ns, name) :=
    match FindStringSubmatch viewNameRe 2 stmt with
    | Some (_ :: ns :: n :: _) => (ns, n)
    | _ => (EmptyString, EmptyString)
    end in
  let definition :=
    match find asRe stmt with
    | Some asIdx => TrimSpace (f_rest asIdx)
    | None => EmptyString
    end in
  ({| View_Name := name; View_Schema := ns; View_Definition := definition |},
   None).

(** The kind of a statement, by the [switch] of [Parse] on its upper-cased
    text. *)
Inductive stmt_kind : Type := CreateTable | CreateIndex | CreateView | Other.

Definition classify (stmt : string) : stmt_kind :=
  let upper := ToUpper stmt in
  if HasPrefix upper "CREATE TABLE" then CreateTable
  else if HasPrefix upper "CREATE INDEX" || HasPrefix upper "CREATE UNIQUE INDEX"
  then CreateIndex
  else if HasPrefix upper "CREATE VIEW" || HasPrefix upper "CREATE OR REPLACE VIEW"
  then CreateView
  else Other.

(** The body of the loop of [Parse] over the statements. *)
Definition parse_statement (schema : Schema) (stmt : string)
  : outcome Schema :=
  let stmt := TrimSpace stmt in
  if len stmt =? 0 then mret schema
  else
    match classify stmt with
    | CreateTable =>
        r ← parseCreateTable stmt;
        match r with
        | (_, Some _) => mret schema    (* Skip unparseable statements *)
        | (table, None) =>
            mret (mkSchema (Tables schema ++ [table]) (Indexes schema)
                           (Views schema))
        end
    | CreateIndex =>
        match parseCreateIndex stmt with
        | (_, Some _) => mret schema
        | (idx, None) =>
            mret (mkSchema (Tables schema) (Indexes schema ++ [idx])
                           (Views schema))
        end
    | CreateView =>
        match parseCreateView stmt with
        | (_, Some _) => mret schema
        | (view, None) =>
            mret (mkSchema (Tables schema) (Indexes schema)
                           (Views schema ++ [view]))
        end
    | Other => mret schema
    end.

(** [Parser.Parse]: the parser's dialect field is never read. *)
Definition Parse (sql : string) : outcome (Schema * option error) :=
  let sql := normalizeSQL sql in
  let statements := splitStatements sql in
  schema ← range_fold parse_statement statements (mkSchema [] [] []);
  mret (schema, None).

End Schema.

(** ** internal/dialect: the transformer *)
Module Dialect.
Import GoStrings Regexp Schema.

(** String equality, the [==] and the [switch] of Go on strings. *)
Definition eqs (a b : string) : bool := String.eqb a b.

Record Transformer : Type := NewTransformer {
  from : string;
  to : string
}.

Section Transformer.
Variable t : Transformer.

Definition mapIdentityType (dataType : string) : string :=
  let isBig := Contains dataType "BIG" in
  if eqs (to t) "postgres" then
    if isBig then "BIGSERIAL" else "SERIAL"
  else if eqs (to t) "mysql" then
    if isBig then "BIGINT AUTO_INCREMENT" else "INT AUTO_INCREMENT"
  else if eqs (to t) "sqlserver" then
    if isBig then "BIGINT IDENTITY(1,1)" else "INT IDENTITY(1,1)"
  else dataType.

(** [\((\d+|MAX)\)] *)
Definition lengthRe : regex :=
  cat_all [chr "("; Cap 1 (Or (plus (Class is_digit)) (lit "MAX")); chr ")"].

Definition normalizeType (dataType : string) : string :=
  (* Integer types *)
  if eqs dataType "INT" || eqs dataType "INTEGER" then "INTEGER"
  else if eqs dataType "BIGINT" then "BIGINT"
  else if eqs dataType "SMALLINT" || eqs dataType "TINYINT" then "SMALLINT"
  (* Boolean types *)
  else if eqs dataType "BOOLEAN" || eqs dataType "BOOL" ||
          eqs dataType "BIT" || eqs dataType "TINYINT(1)" then "BOOLEAN"
  (* String types *)
  else if HasPrefix dataType "VARCHAR" || HasPrefix dataType "NVARCHAR" ||
          HasPrefix dataType "CHARACTER VARYING" then
    match FindStringSubmatch lengthRe 1 dataType with
    | Some (_ :: n :: _) =>
        if eqs n "MAX" then "TEXT" else "VARCHAR(" +:+ n +:+ ")"
    | _ => "VARCHAR(255)"
    end
  else if eqs dataType "TEXT" || eqs dataType "LONGTEXT" ||
          eqs dataType "MEDIUMTEXT" || eqs dataType "NVARCHAR(MAX)" ||
          eqs dataType "NTEXT" then "TEXT"
  else if eqs dataType "CHAR" || HasPrefix dataType "CHAR(" ||
          HasPrefix dataType "NCHAR" then dataType
  (* Date/Time types *)
  else if eqs dataType "TIMESTAMP" ||
          eqs dataType "TIMESTAMP WITHOUT TIME ZONE" ||
          eqs dataType "DATETIME" || eqs dataType "DATETIME2" then "TIMESTAMP"
  else if eqs dataType "TIMESTAMP WITH TIME ZONE" ||
          eqs dataType "TIMESTAMPTZ" || eqs dataType "DATETIMEOFFSET"
  then "TIMESTAMP_TZ"
  else if eqs dataType "DATE" then "DATE"
  else if eqs dataType "TIME" || eqs dataType "TIME WITHOUT TIME ZONE"
  then "TIME"
  (* Numeric types *)
  else if HasPrefix dataType "DECIMAL" || HasPrefix dataType "NUMERIC"
  then dataType
  else if eqs dataType "FLOAT" || eqs dataType "REAL" then "REAL"
  else if eqs dataType "DOUBLE" || eqs dataType "DOUBLE PRECISION"
  then "DOUBLE"
  (* Binary types *)
  else if eqs dataType "BYTEA" || eqs dataType "BLOB" ||
          eqs dataType "LONGBLOB" || eqs dataType "VARBINARY(MAX)" ||
          eqs dataType "IMAGE" then "BINARY"
  (* JSON type *)
  else if eqs dataType "JSON" || eqs dataType "JSONB" then "JSON"
  (* UUID type *)
  else if eqs dataType "UUID" || eqs dataType "UNIQUEIDENTIFIER" then "UUID"
  else dataType.

Definition toPostgres (normalized : string) : string :=
  if eqs normalized "BOOLEAN" then "BOOLEAN"
  else if eqs normalized "TIMESTAMP" then "TIMESTAMP"
  else if eqs normalized "TIMESTAMP_TZ" then "TIMESTAMP WITH TIME ZONE"
  else if eqs normalized "BINARY" then "BYTEA"
  else if eqs normalized "JSON" then "JSONB"
  else if eqs normalized "UUID" then "UUID"
  else if eqs normalized "DOUBLE" then "DOUBLE PRECISION"
  else normalized.

Definition toMySQL (normalized : string) : string :=
  if eqs normalized "BOOLEAN" then "TINYINT(1)"
  else if eqs normalized "TIMESTAMP" then "DATETIME"
  else if eqs normalized "TIMESTAMP_TZ" then "DATETIME"
  else if eqs normalized "BINARY" then "LONGBLOB"
  else if eqs normalized "JSON" then "JSON"
  else if eqs normalized "UUID" then "CHAR(36)"
  else if eqs normalized "DOUBLE" then "DOUBLE"
  else if eqs normalized "TEXT" then "LONGTEXT"
  else normalized.

Definition toSQLServer (normalized : string) : string :=
  if eqs normalized "BOOLEAN" then "BIT"
  else if eqs normalized "TIMESTAMP" then "DATETIME2"
  else if eqs normalized "TIMESTAMP_TZ" then "DATETIMEOFFSET"
  else if eqs normalized "BINARY" then "VARBINARY(MAX)"
  else if eqs normalized "JSON" then "NVARCHAR(MAX)"
  else if eqs normalized "UUID" then "UNIQUEIDENTIFIER"
  else if eqs normalized "DOUBLE" then "FLOAT"
  else if eqs normalized "TEXT" then "NVARCHAR(MAX)"
  else if eqs normalized "INTEGER" then "INT"
  else if HasPrefix normalized "VARCHAR"
  then ReplaceFirst normalized "VARCHAR" "NVARCHAR"
  else normalized.

Definition toTargetType (normalized : string) : string :=
  if eqs (to t) "postgres" then toPostgres normalized
  else if eqs (to t) "mysql" then toMySQL normalized
  else if eqs (to t) "sqlserver" then toSQLServer normalized
  else normalized.

Definition mapDataType (dataType : string) : string :=
  (* First normalize from source dialect *)
  let normalized := normalizeType dataType in
  (* Then convert to target dialect *)
  toTargetType normalized.

(** The empty string is "no warning". *)
Definition checkDataLoss (original mapped tableName colName : string)
  : string :=
  if (eqs original "JSONB" || eqs original "JSON") && eqs (to t) "sqlserver"
  then tableName +:+ "." +:+ colName +:+
       ": JSON stored as NVARCHAR(MAX) - JSON functions available but no native type"
  else if (eqs original "UUID" || eqs original "UNIQUEIDENTIFIER") &&
          eqs (to t) "mysql"
  then tableName +:+ "." +:+ colName +:+
       ": UUID stored as CHAR(36) - no native UUID type in MySQL"
  else if HasPrefix original "TIMESTAMP" && Contains original "TIME ZONE" &&
          eqs (to t) "mysql"
  then tableName +:+ "." +:+ colName +:+
       ": Timezone information will be lost - MySQL DATETIME has no timezone"
  else if eqs original "DOUBLE PRECISION" && eqs (to t) "sqlserver"
  then tableName +:+ "." +:+ colName +:+
       ": DOUBLE PRECISION mapped to FLOAT - verify precision requirements"
  else EmptyString.

Definition transformType (dataType : string) (isIdentity : bool)
    (tableName colName : string) : string * list string :=
  let upper := ToUpper dataType in
  (* Handle identity/auto-increment types *)
  if isIdentity then (mapIdentityType upper, [])
  else
    let mapped := mapDataType upper in
    let warning := checkDataLoss upper mapped tableName colName in
    if negb (eqs warning EmptyString) then (mapped, [warning])
    else (mapped, []).

(** The result is a pointer to a fresh string, never nil. *)
Definition transformDefault (defaultVal : string) : option string :=
  let upper := ToUpper defaultVal in
  if eqs upper "NOW()" || eqs upper "CURRENT_TIMESTAMP" ||
     eqs upper "GETDATE()" || eqs upper "GETUTCDATE()" then
    Some (if eqs (to t) "postgres" then "NOW()"
          else if eqs (to t) "mysql" then "CURRENT_TIMESTAMP"
          else if eqs (to t) "sqlserver" then "GETDATE()"
          else EmptyString)
  else if eqs upper "TRUE" || eqs upper "FALSE" then
    Some (if eqs (to t) "mysql" then
            if eqs upper "TRUE" then "1" else "0"
          else if eqs (to t) "sqlserver" then
            if eqs upper "TRUE" then "1" else "0"
          else defaultVal)
  else if eqs upper "GEN_RANDOM_UUID()" || eqs upper "UUID()" ||
          eqs upper "NEWID()" then
    Some (if eqs (to t) "postgres" then "gen_random_uuid()"
          else if eqs (to t) "mysql" then "UUID()"
          else if eqs (to t) "sqlserver" then "NEWID()"
          else EmptyString)
  else Some defaultVal.

Definition transformColumn (col : Column) (tableName : string)
  : Column * list string :=
  let '(type, warnings) :=
    transformType (Column_Type col) (Column_IsIdentity col) tableName
                  (Column_Name col) in
  ({| Column_Name := Column_Name col;
      Column_Type := type;
      Column_Nullable := Column_Nullable col;
      Column_Default :=
        match Column_Default col with
        | Some d => transformDefault d
        | None => Column_Default col
        end;
      Column_IsPrimaryKey := Column_IsPrimaryKey col;
      Column_IsUnique := Column_IsUnique col;
      Column_IsIdentity := Column_IsIdentity col;
      Column_Comment := Column_Comment col |}, warnings).

Definition mapIndexType (indexType : string) : string :=
  if eqs indexType EmptyString then EmptyString
  else
    let upper := ToUpper indexType in
    if eqs (to t) "mysql" then
      (* MySQL supports BTREE and HASH *)
      if eqs upper "GIN" || eqs upper "GIST" || eqs upper "BRIN"
      then "BTREE" else upper
    else if eqs (to t) "sqlserver" then
      if eqs upper "GIN" || eqs upper "GIST" || eqs upper "BRIN" ||
         eqs upper "HASH"
      then EmptyString else EmptyString
    else indexType.

Definition transformIndex (idx : Index) : Index :=
  {| Index_Name := Index_Name idx;
     Index_Table := Index_Table idx;
     Index_Schema := Index_Schema idx;
     Index_Columns := Index_Columns idx;
     Index_IsUnique := Index_IsUnique idx;
     Index_IsPrimary := Index_IsPrimary idx;
     Index_Type := mapIndexType (Index_Type idx) |}.

Definition transformView (view : View) : View * list string :=
  ({| View_Name := View_Name view;
      View_Schema := View_Schema view;
      View_Definition := View_Definition view |},
   if negb (eqs (from t) (to t)) then
     ["View '" +:+ View_Name view +:+ "' may contain " +:+ from t +:+
      "-specific SQL that requires manual review"]
   else []).

Definition transformTable (table : Table) : Table * list string :=
  let cols := map (fun col => transformColumn col (Table_Name table))
                  (Table_Columns table) in
  ({| Table_Name := Table_Name table;
      Table_Schema := Table_Schema table;
      Table_Columns := map fst cols;
      Table_PrimaryKey := Table_PrimaryKey table;
      Table_ForeignKeys := Table_ForeignKeys table;
      Table_Indexes := map transformIndex (Table_Indexes table);
      Table_Constraints := Table_Constraints table |},
   concat (map snd cols)).

(** [Transformer.Transform]: the transformed schema and the warnings, those
    of the tables first, then those of the views. *)
Definition Transform (s : Schema) : Schema * list string :=
  let tables := map transformTable (Tables s) in
  let views := map transformView (Views s) in
  ({| Tables := map fst tables;
      Indexes := map transformIndex (Indexes s);
      Views := map fst views |},
   (concat (map snd tables) ++ concat (map snd views))%list).

End Transformer.

Definition SupportedDialects : list string := ["postgres"; "mysql"; "sqlserver"].

Definition IsSupported (dialect : string) : bool :=
  existsb (fun d => eqs d dialect) SupportedDialects.

End Dialect.

(** ** internal/diff: the differ *)
Module Diff.
Import GoStrings Schema.

Definition eqs (a b : string) : bool := String.eqb a b.

Record ColumnChanges : Type := mkColumnChanges {
  ColumnChanges_Name : string;
  OldType : string;
  NewType : string;
  NullableChanged : bool;
  OldNullable : bool;
  NewNullable : bool;
  DefaultChanged : bool;
  OldDefault : option string;
  NewDefault : option string
}.

Record TableChanges : Type := mkTableChanges {
  TableChanges_Name : string;
  AddedColumns : list Column;
  RemovedColumns : list Column;
  ModifiedColumns : list ColumnChanges;
  TableChanges_AddedIndexes : list Index;
  TableChanges_RemovedIndexes : list Index;
  AddedForeignKeys : list ForeignKey;
  RemovedForeignKeys : list ForeignKey;
  AddedConstraints : list Constraint;
  RemovedConstraints : list Constraint;
  PrimaryKeyChanged : bool
}.

Record ViewChanges : Type := mkViewChanges {
  ViewChanges_Name : string;
  OldDefinition : string;
  NewDefinition : string
}.

Record Changes : Type := mkChanges {
  AddedTables : list Table;
  RemovedTables : list Table;
  ModifiedTables : list TableChanges;
  AddedIndexes : list Index;
  RemovedIndexes : list Index;
  AddedViews : list View;
  RemovedViews : list View;
  ModifiedViews : list ViewChanges
}.

(** [m := make(map[string]*T); for i := range l { m[key(l[i])] = &l[i] }]:
    a later element replaces an earlier one with the same key. *)
Definition index_by {A : Type} (key : A -> string) (l : list A)
  : gmap string A :=
  foldl (fun m x => <[key x := x]> m) ∅ l.

(** [for k, v := range m { if _, exists := other[k]; !exists { out =
    append(out, *v) } }] *)
Definition only_in {A B : Type} (m : gmap string A) (other : gmap string B)
  : list A :=
  omap (fun kv : string * A =>
          match other !! kv.1 with
          | None => Some kv.2
          | Some _ => None
          end)
       (map_to_list m).

(** [for k, a := range m { if b, exists := other[k]; exists { if c :=
    cmp(k, a, b); c != nil { out = append(out, *c) } } }] *)
Definition in_both {A C : Type} (cmp : string -> A -> A -> option C)
    (m other : gmap string A) : list C :=
  omap (fun kv : string * A =>
          match other !! kv.1 with
          | Some b => cmp kv.1 kv.2 b
          | None => None
          end)
       (map_to_list m).

Definition sameDefault (a b : option string) : bool :=
  match a, b with
  | None, None => true
  | Some x, Some y => EqualFold x y
  | _, _ => false
  end.

Definition compareColumn (source target : Column) : option ColumnChanges :=
  let typeChanged :=
    negb (EqualFold (Column_Type source) (Column_Type target)) in
  let nullableChanged :=
    negb (Bool.eqb (Column_Nullable source) (Column_Nullable target)) in
  let defaultChanged :=
    negb (sameDefault (Column_Default source) (Column_Default target)) in
  let hasChanges := typeChanged || nullableChanged || defaultChanged in
  if negb hasChanges then None
  else
    Some {| ColumnChanges_Name := Column_Name source;
            OldType := if typeChanged then Column_Type source else EmptyString;
            NewType := if typeChanged then Column_Type target else EmptyString;
            NullableChanged := nullableChanged;
            OldNullable := nullableChanged && Column_Nullable source;
            NewNullable := nullableChanged && Column_Nullable target;
            DefaultChanged := defaultChanged;
            OldDefault :=
              if defaultChanged then Column_Default source else None;
            NewDefault :=
              if defaultChanged then Column_Default target else None |}.

Definition samePrimaryKey (source target : option PrimaryKey) : bool :=
  match source, target with
  | None, None => true
  | Some s, Some t =>
      (length (PrimaryKey_Columns s) =? length (PrimaryKey_Columns t)) &&
      forallb (fun p : string * string => eqs p.1 p.2)
              (combine (PrimaryKey_Columns s) (PrimaryKey_Columns t))
  | _, _ => false
  end.

(** The key of a foreign key in the maps of [compareTable]. *)
Definition fk_key (fk : ForeignKey) : string :=
  if eqs (ForeignKey_Name fk) EmptyString
  then Join (ForeignKey_Columns fk) "_" +:+ "_fk"
  else ForeignKey_Name fk.

Definition nonempty {A : Type} (l : list A) : bool :=
  match l with [] => false | _ :: _ => true end.

Definition compareTable (source target : Table) : option TableChanges :=
  (* Compare columns *)
  let sourceColMap := index_by Column_Name (Table_Columns source) in
  let targetColMap := index_by Column_Name (Table_Columns target) in
  let addedColumns := only_in targetColMap sourceColMap in
  let removedColumns := only_in sourceColMap targetColMap in
  let modifiedColumns :=
    in_both (fun _ => compareColumn) sourceColMap targetColMap in
  (* Compare indexes within table *)
  let sourceIdxMap := index_by Index_Name (Table_Indexes source) in
  let targetIdxMap := index_by Index_Name (Table_Indexes target) in
  let addedIndexes := only_in targetIdxMap sourceIdxMap in
  let removedIndexes := only_in sourceIdxMap targetIdxMap in
  (* Compare foreign keys *)
  let sourceFKMap := index_by fk_key (Table_ForeignKeys source) in
  let targetFKMap := index_by fk_key (Table_ForeignKeys target) in
  let addedForeignKeys := only_in targetFKMap sourceFKMap in
  let removedForeignKeys := only_in sourceFKMap targetFKMap in
  (* Compare primary keys *)
  let primaryKeyChanged :=
    negb (samePrimaryKey (Table_PrimaryKey source) (Table_PrimaryKey target)) in
  let hasChanges :=
    nonempty addedColumns || nonempty removedColumns ||
    nonempty modifiedColumns || nonempty addedIndexes ||
    nonempty removedIndexes || nonempty addedForeignKeys ||
    nonempty removedForeignKeys || primaryKeyChanged in
  if negb hasChanges then None
  else
    Some {| TableChanges_Name := Table_Name source;
            AddedColumns := addedColumns;
            RemovedColumns := removedColumns;
            ModifiedColumns := modifiedColumns;
            TableChanges_AddedIndexes := addedIndexes;
            TableChanges_RemovedIndexes := removedIndexes;
            AddedForeignKeys := addedForeignKeys;
            RemovedForeignKeys := removedForeignKeys;
            AddedConstraints := [];
            RemovedConstraints := [];
            PrimaryKeyChanged := primaryKeyChanged |}.

(** The [normalizeSQL] of package diff: whitespace runs collapsed, ends
    trimmed, upper case. *)
Definition normalizeSQL (sql : string) : string :=
  let sql := TrimSpace sql in
  let sql := Join (Fields sql) " " in
  ToUpper sql.

Definition compareView (name : string) (sourceView targetView : View)
  : option ViewChanges :=
  if negb (eqs (normalizeSQL (View_Definition sourceView))
               (normalizeSQL (View_Definition targetView)))
  then Some {| ViewChanges_Name := name;
               OldDefinition := View_Definition sourceView;
               NewDefinition := View_Definition targetView |}
  else None.

(** [Differ.Compare], with the three passes [compareTables],
    [compareStandaloneIndexes] and [compareViews] filling the fields of the
    result. *)
Definition Compare (source target : Schema) : Changes :=
  let sourceTables := index_by Table_Name (Tables source) in
  let targetTables := index_by Table_Name (Tables target) in
  let sourceIndexes := index_by Index_Name (Indexes source) in
  let targetIndexes := index_by Index_Name (Indexes target) in
  let sourceViews := index_by View_Name (Views source) in
  let targetViews := index_by View_Name (Views target) in
  {| AddedTables := only_in targetTables sourceTables;
     RemovedTables := only_in sourceTables targetTables;
     ModifiedTables :=
       in_both (fun _ => compareTable) sourceTables targetTables;
     AddedIndexes := only_in targetIndexes sourceIndexes;
     RemovedIndexes := only_in sourceIndexes targetIndexes;
     AddedViews := only_in targetViews sourceViews;
     RemovedViews := only_in sourceViews targetViews;
     ModifiedViews := in_both compareView sourceViews targetViews |}.

Definition IsEmpty (c : Changes) : bool :=
  (length (AddedTables c) =? 0) &&
  (length (RemovedTables c) =? 0) &&
  (length (ModifiedTables c) =? 0) &&
  (length (AddedIndexes c) =? 0) &&
  (length (RemovedIndexes c) =? 0) &&
  (length (AddedViews c) =? 0) &&
  (length (RemovedViews c) =? 0) &&
  (length (ModifiedViews c) =? 0).

End Diff.

(** ** Predicates of the specification *)
Module Props.
Import GoStrings Regexp Go Schema Dialect Diff.

(** What a transformation keeps of a column: everything but the type and
    the default expression. *)
Definition column_frame (c c' : Column) : Prop :=
  Column_Name c' = Column_Name c /\
  Column_Nullable c' = Column_Nullable c /\
  Column_IsPrimaryKey c' = Column_IsPrimaryKey c /\
  Column_IsUnique c' = Column_IsUnique c /\
  Column_IsIdentity c' = Column_IsIdentity c /\
  Column_Comment c' = Column_Comment c.

(** What a transformation keeps of an index: everything but the method. *)
Definition index_frame (i i' : Index) : Prop :=
  Index_Name i' = Index_Name i /\
  Index_Table i' = Index_Table i /\
  Index_Schema i' = Index_Schema i /\
  Index_Columns i' = Index_Columns i /\
  Index_IsUnique i' = Index_IsUnique i /\
  Index_IsPrimary i' = Index_IsPrimary i.

Definition table_frame (tb tb' : Table) : Prop :=
  Table_Name tb' = Table_Name tb /\
  Table_Schema tb' = Table_Schema tb /\
  Table_PrimaryKey tb' = Table_PrimaryKey tb /\
  Table_ForeignKeys tb' = Table_ForeignKeys tb /\
  Table_Constraints tb' = Table_Constraints tb /\
  Forall2 column_frame (Table_Columns tb) (Table_Columns tb') /\
  Forall2 index_frame (Table_Indexes tb) (Table_Indexes tb').





(** The type of a column after a pass through an unknown target dialect. *)
Definition passed_through (c c' : Column) : Prop :=
  Column_Type c' =
    if Column_IsIdentity c then ToUpper (Column_Type c)
    else normalizeType (ToUpper (Column_Type c)).

(** A quote character of the statement splitter. *)
Definition is_quote (c : ascii) : bool :=
  eqb_ascii c "'" || eqb_ascii c "034".

(** Text made of plain characters and of complete quoted literals: a
    literal is an opening quote character, a body without that character,
    and the same character closing it.  After such a text a reader is
    outside any literal. *)
Inductive outside_literals : string -> Prop :=
| outside_nil : outside_literals EmptyString
| outside_plain (c : ascii) (s : string) :
    is_quote c = false -> outside_literals s ->
    outside_literals (String c s)
| outside_literal (q : ascii) (body s : string) :
    is_quote q = true -> mem_ascii q body = false -> outside_literals s ->
    outside_literals (String q (body +:+ String q s)).

(** The trimmed, non-empty ones of a list of statements. *)
Definition trimmed (l : list string) : list string :=
  List.filter (fun s => negb (len s =? 0)) (map TrimSpace l).

(** The statements [Parse] looks at: the pieces of the normalized text,
    trimmed, the empty ones dropped. *)
Definition statements_of (sql : string) : list string :=
  trimmed (splitStatements (Schema.normalizeSQL sql)).

Definition same_kind (a b : stmt_kind) : bool :=
  match a, b with
  | CreateTable, CreateTable | CreateIndex, CreateIndex
  | CreateView, CreateView | Other, Other => true
  | _, _ => false
  end.

Definition kind_is (k : stmt_kind) (stmt : string) : bool :=
  same_kind (classify stmt) k.

(** The first opening parenthesis of a statement, if there is one, comes
    before its last closing parenthesis, if there is one. *)
Definition parens_ok (stmt : string) : bool :=
  match GoStrings.Index stmt "(", LastIndex stmt ")" with
  | Some parenStart, Some parenEnd => parenStart + 1 <=? parenEnd
  | _, _ => true
  end.

Definition member_ok (s : string) : bool :=
  if kind_is CreateTable s then parens_ok s else true.

(** No CREATE TABLE statement of the text has its last closing parenthesis
    before its first opening one. *)
Definition tables_parenthesized (sql : string) : bool :=
  forallb member_ok (statements_of sql).

(** The table a CREATE TABLE statement contributes. *)
Definition is_table_of (stmt : string) (table : Table) : Prop :=
  parseCreateTable stmt = Returned (table, None).

(** The number of commas of a text. *)
Fixpoint commas (s : string) : nat :=
  match s with
  | EmptyString => 0
  | String c s' => (if eqb_ascii c "," then 1 else 0) + commas s'
  end.

(** The number of comma-separated entries in group [i] of the leftmost
    match of a pattern, [0] when the pattern does not match. *)
Definition group_arity (r : regex) (groups i : nat) (def : string) : nat :=
  match FindStringSubmatch r groups def with
  | Some m => S (commas (nth i m EmptyString))
  | None => 0
  end.

End Props.

(** ** The spelling of a dialect *)
Module Spelling.
Import GoStrings Schema Dialect.

(** No lower-case letter. *)
Fixpoint upper_only (s : string) : bool :=
  match s with
  | EmptyString => true
  | String c s' => negb (is_lower c) && upper_only s'
  end.



(** One digit or more, a closing parenthesis, and nothing after it. *)
Fixpoint digits_close (s : string) : bool :=
  match s with
  | EmptyString => false
  | String d rest => is_digit d && (eqs rest ")" || digits_close rest)
  end.

Fixpoint strip_prefix (prefix s : string) : option string :=
  match prefix, s with
  | EmptyString, _ => Some s
  | String p prefix', String c s' =>
      if eqb_ascii c p then strip_prefix prefix' s' else None
  | String _ _, EmptyString => None
  end.

(** A type name with a length: [name(n)] for a number [n]. *)
Definition sized (name ty : string) : bool :=
  match strip_prefix name ty with
  | Some (String "(" rest) => digits_close rest
  | _ => false
  end.


(** A type name that stands for a character string with a length. *)
Definition varchar_like (ty : string) : bool :=
  HasPrefix ty "VARCHAR" || HasPrefix ty "NVARCHAR" ||
  HasPrefix ty "CHARACTER VARYING".

(** The type names a dialect spells otherwise: names of other dialects
    and of the intermediate representation, and synonyms. *)
Definition respelled (d : string) : list string :=
  if eqs d "postgres" then
    ["INT"; "TINYINT"; "BOOL"; "BIT"; "TINYINT(1)"; "LONGTEXT"; "MEDIUMTEXT";
     "NTEXT"; "TIMESTAMP WITHOUT TIME ZONE"; "DATETIME"; "DATETIME2";
     "TIMESTAMPTZ"; "DATETIMEOFFSET"; "TIMESTAMP_TZ";
     "TIME WITHOUT TIME ZONE"; "FLOAT"; "DOUBLE"; "BLOB"; "LONGBLOB";
     "VARBINARY(MAX)"; "IMAGE"; "BINARY"; "JSON"; "UNIQUEIDENTIFIER"]
  else if eqs d "mysql" then
    ["INT"; "TINYINT"; "BOOLEAN"; "BOOL"; "BIT"; "TEXT"; "MEDIUMTEXT";
     "NTEXT"; "TIMESTAMP"; "TIMESTAMP WITHOUT TIME ZONE"; "DATETIME2";
     "TIMESTAMP WITH TIME ZONE"; "TIMESTAMPTZ"; "DATETIMEOFFSET";
     "TIMESTAMP_TZ"; "TIME WITHOUT TIME ZONE"; "FLOAT"; "DOUBLE PRECISION";
     "BYTEA"; "BLOB"; "VARBINARY(MAX)"; "IMAGE"; "BINARY"; "JSONB"; "UUID";
     "UNIQUEIDENTIFIER"]
  else if eqs d "sqlserver" then
    ["INTEGER"; "TINYINT"; "BOOLEAN"; "BOOL"; "TINYINT(1)"; "TEXT";
     "LONGTEXT"; "MEDIUMTEXT"; "NTEXT"; "TIMESTAMP";
     "TIMESTAMP WITHOUT TIME ZONE"; "DATETIME"; "TIMESTAMP WITH TIME ZONE";
     "TIMESTAMPTZ"; "TIMESTAMP_TZ"; "TIME WITHOUT TIME ZONE"; "FLOAT";
     "DOUBLE"; "DOUBLE PRECISION"; "BYTEA"; "BLOB"; "LONGBLOB"; "IMAGE";
     "BINARY"; "JSON"; "JSONB"; "UUID"]
  else [].

(** The type of a column that is not an identity column, in the spelling
    of dialect [d]: in upper case; none of the names [d] spells otherwise;
    if it is a character string with a length, then VARCHAR(n), and in
    sqlserver NVARCHAR(n) or NVARCHAR(MAX); in mysql no TIMESTAMP with a
    time zone. *)
Definition canonical_type (d ty : string) : bool :=
  upper_only ty &&
  negb (existsb (eqs ty) (respelled d)) &&
  (if varchar_like ty then
     if eqs d "sqlserver"
     then sized "NVARCHAR" ty || eqs ty "NVARCHAR(MAX)"
     else sized "VARCHAR" ty
   else true) &&
  negb (eqs d "mysql" && HasPrefix ty "TIMESTAMP" && Contains ty "TIME ZONE").

(** The types of an identity column. *)
Definition identity_types (d : string) : list string :=
  if eqs d "postgres" then ["SERIAL"; "BIGSERIAL"]
  else if eqs d "mysql" then ["INT AUTO_INCREMENT"; "BIGINT AUTO_INCREMENT"]
  else if eqs d "sqlserver" then ["INT IDENTITY(1,1)"; "BIGINT IDENTITY(1,1)"]
  else [].

(** The current time and a fresh UUID, as a dialect writes them. *)
Definition now_default (d : string) : string :=
  if eqs d "postgres" then "NOW()"
  else if eqs d "mysql" then "CURRENT_TIMESTAMP"
  else "GETDATE()".

Definition uuid_default (d : string) : string :=
  if eqs d "postgres" then "gen_random_uuid()"
  else if eqs d "mysql" then "UUID()"
  else "NEWID()".

(** The default expressions that are rewritten, in upper case: the
    spellings of the current time and of a fresh UUID and, but for
    postgres, the boolean literals. *)
Definition respelled_defaults (d : string) : list string :=
  ["NOW()"; "CURRENT_TIMESTAMP"; "GETDATE()"; "GETUTCDATE()";
   "GEN_RANDOM_UUID()"; "UUID()"; "NEWID()"] ++
  (if eqs d "postgres" then [] else ["TRUE"; "FALSE"]).

Definition canonical_default (d x : string) : bool :=
  eqs x (now_default d) || eqs x (uuid_default d) ||
  negb (existsb (eqs (ToUpper x)) (respelled_defaults d)).

(** The index methods: any for postgres; none, or one in upper case other
    than GIN, GIST and BRIN, for mysql; none for sqlserver. *)
Definition canonical_index_type (d ty : string) : bool :=
  if eqs d "mysql" then
    eqs ty EmptyString ||
    (upper_only ty && negb (existsb (eqs ty) ["GIN"; "GIST"; "BRIN"]))
  else if eqs d "sqlserver" then eqs ty EmptyString
  else true.

Definition canonical_column (d : string) (c : Column) : bool :=
  (if Column_IsIdentity c
   then existsb (eqs (Column_Type c)) (identity_types d)
   else canonical_type d (Column_Type c)) &&
  match Column_Default c with
  | Some x => canonical_default d x
  | None => true
  end.

Definition canonical_index (d : string) (i : Index) : bool :=
  canonical_index_type d (Index_Type i).

Definition canonical_table (d : string) (tb : Table) : bool :=
  forallb (canonical_column d) (Table_Columns tb) &&
  forallb (canonical_index d) (Table_Indexes tb).

(** A schema in the spelling of dialect [d]. *)
Definition canonical_schema (d : string) (s : Schema) : bool :=
  forallb (canonical_table d) (Tables s) &&
  forallb (canonical_index d) (Indexes s).






End Spelling.

(** ** The shapes of a decoded rune *)
Module RuneProps.
Import GoStrings Utf8.
Local Open Scope Z_scope.

(** What [DecodeRuneInString] returns on a text that is not empty, by the
    UTF-8 encoding forms: an ASCII byte, a byte that starts no well-formed
    sequence, and the well-formed sequences of two, three and four bytes
    (shortest form, no surrogate half, at most [MaxRune]). *)
Inductive decoded : string -> rune -> nat -> Prop :=
| decoded_ascii (c0 : ascii) (t : string) :
    byte_val c0 < 128 -> decoded (String c0 t) (byte_val c0) 1
| decoded_invalid (c0 : ascii) (t : string) :
    128 <= byte_val c0 -> decoded (String c0 t) RuneError 1
| decoded_2 (c0 c1 : ascii) (t : string) :
    194 <= byte_val c0 <= 223 -> 128 <= byte_val c1 <= 191 ->
    decoded (String c0 (String c1 t))
            (byte_val c0 mod 32 * 64 + byte_val c1 mod 64) 2
| decoded_3 (c0 c1 c2 : ascii) (t : string) :
    224 <= byte_val c0 <= 239 -> 128 <= byte_val c1 <= 191 ->
    (byte_val c0 = 224 -> 160 <= byte_val c1) ->
    (byte_val c0 = 237 -> byte_val c1 <= 159) ->
    128 <= byte_val c2 <= 191 ->
    decoded (String c0 (String c1 (String c2 t)))
            (byte_val c0 mod 16 * 4096 + byte_val c1 mod 64 * 64 +
             byte_val c2 mod 64) 3
| decoded_4 (c0 c1 c2 c3 : ascii) (t : string) :
    240 <= byte_val c0 <= 244 -> 128 <= byte_val c1 <= 191 ->
    (byte_val c0 = 240 -> 144 <= byte_val c1) ->
    (byte_val c0 = 244 -> byte_val c1 <= 143) ->
    128 <= byte_val c2 <= 191 -> 128 <= byte_val c3 <= 191 ->
    decoded (String c0 (String c1 (String c2 (String c3 t))))
            (byte_val c0 mod 8 * 262144 + byte_val c1 mod 64 * 4096 +
             byte_val c2 mod 64 * 64 + byte_val c3 mod 64) 4.

(** Every byte of the text is outside ASCII. *)
Fixpoint non_ascii (s : string) : bool :=
  match s with
  | EmptyString => true
  | String c s' => (128 <=? byte_val c) && non_ascii s'
  end.

End RuneProps.

(** ** Sample inputs *)
Module Samples.
Import Schema.

Definition oracle_input : Schema :=
  {| Tables := [ {| Table_Name := "users"; Table_Schema := EmptyString;
                    Table_Columns :=
                      [ mkColumn "id" "int" false None true false false
                                 EmptyString ];
                    Table_PrimaryKey := None; Table_ForeignKeys := [];
                    Table_Indexes := []; Table_Constraints := [] |} ];
     Indexes := [ mkIndex "i" "users" EmptyString ["id"] false false "gin" ];
     Views := [] |}.

(** A schema with one table [t] of one column [c] of the given type. *)
Definition one_column (type : string) : Schema :=
  {| Tables := [ {| Table_Name := "t"; Table_Schema := EmptyString;
                    Table_Columns :=
                      [ mkColumn "c" type true None false false false
                                 EmptyString ];
                    Table_PrimaryKey := None; Table_ForeignKeys := [];
                    Table_Indexes := []; Table_Constraints := [] |} ];
     Indexes := []; Views := [] |}.

(** A schema in the spelling of the postgres projection. *)
Definition canonical_pg : Schema :=
  {| Tables := [ {| Table_Name := "users"; Table_Schema := EmptyString;
                    Table_Columns :=
                      [ mkColumn "id" "SERIAL" false None true false true
                                 EmptyString;
                        mkColumn "email" "VARCHAR(255)" false None false true
                                 false EmptyString;
                        mkColumn "created_at" "TIMESTAMP" true (Some "NOW()")
                                 false false false EmptyString ];
                    Table_PrimaryKey := Some (mkPrimaryKey EmptyString ["id"]);
                    Table_ForeignKeys := [];
                    Table_Indexes :=
                      [ mkIndex "users_email" "users" EmptyString ["email"]
                                true false "btree" ];
                    Table_Constraints := [] |} ];
     Indexes := [];
     Views := [ mkView "v" EmptyString "SELECT id FROM users" ] |}.

(** A text with a CREATE TABLE without a body, a statement of no
    recognized kind, and an index. *)
Definition mixed_statements : string :=
  "CREATE TABLE t; GRANT ALL ON t TO u; CREATE INDEX i ON t (a)".

(** The statement of the first scenario of the specification. *)
Definition users_statement : string :=
  "CREATE TABLE users (id SERIAL PRIMARY KEY, email VARCHAR(255) NOT NULL UNIQUE)".

(** A table with a foreign key of two local columns and one referenced
    column, and a foreign key without a REFERENCES clause. *)
Definition foreign_keys_statement : string :=
  "CREATE TABLE t (a INT, b INT, FOREIGN KEY (a, b) REFERENCES u (x), FOREIGN KEY (a))".

End Samples.

(** ** internal/diff: the text report *)
Module Report.
Import GoStrings Schema Diff.

(** The newline character. *)
Definition nl : string := String "010" EmptyString.

(** The verb [%d] of [fmt.Sprintf] on a length. *)
Definition itoa (n : nat) : string := NilEmpty.string_of_uint (Nat.to_uint n).

(** [strings.Repeat]. *)
Fixpoint Repeat (s : string) (count : nat) : string :=
  match count with
  | 0 => EmptyString
  | S n => s +:+ Repeat s n
  end.

(** [for _, x := range l { sb.WriteString(line(x)) }] *)
Fixpoint write_each {A : Type} (line : A -> string) (l : list A) : string :=
  match l with
  | [] => EmptyString
  | x :: l' => line x +:+ write_each line l'
  end.

(** [if len(l) > 0 { sb.WriteString(title); for ... ; sb.WriteString(tail) }] *)
Definition write_section {A : Type} (title : string) (line : A -> string)
    (tail : string) (l : list A) : string :=
  if 0 <? length l then title +:+ write_each line l +:+ tail
  else EmptyString.

Definition nullable_word (b : bool) : string :=
  if b then "NULL" else "NOT NULL".

Definition write_modified_column (col : ColumnChanges) : string :=
  (if negb (eqs (OldType col) EmptyString)
   then "  ~ Column " +:+ ColumnChanges_Name col +:+ ": type " +:+
        OldType col +:+ " → " +:+ NewType col +:+ nl
   else EmptyString) +:+
  (if NullableChanged col
   then "  ~ Column " +:+ ColumnChanges_Name col +:+ ": " +:+
        nullable_word (OldNullable col) +:+ " → " +:+
        nullable_word (NewNullable col) +:+ nl
   else EmptyString).

Definition write_modified_table (tc : TableChanges) : string :=
  "Modified Table: " +:+ TableChanges_Name tc +:+ nl +:+
  Repeat "-" 40 +:+ nl +:+
  write_each (fun col => "  + Column: " +:+ Column_Name col +:+ " " +:+
                         Column_Type col +:+ nl) (AddedColumns tc) +:+
  write_each (fun col => "  - Column: " +:+ Column_Name col +:+ nl)
             (RemovedColumns tc) +:+
  write_each write_modified_column (ModifiedColumns tc) +:+
  write_each (fun idx => "  + Index: " +:+ Index_Name idx +:+ nl)
             (TableChanges_AddedIndexes tc) +:+
  write_each (fun idx => "  - Index: " +:+ Index_Name idx +:+ nl)
             (TableChanges_RemovedIndexes tc) +:+
  write_each (fun fk => "  + FK: " +:+ Join (ForeignKey_Columns fk) ", " +:+
                        " → " +:+ ForeignKey_ReferencedTable fk +:+ nl)
             (AddedForeignKeys tc) +:+
  write_each (fun fk => "  - FK: " +:+ Join (ForeignKey_Columns fk) ", " +:+
                        " → " +:+ ForeignKey_ReferencedTable fk +:+ nl)
             (RemovedForeignKeys tc) +:+
  (if PrimaryKeyChanged tc then "  ~ Primary key changed" +:+ nl
   else EmptyString) +:+
  nl.

(** [diff.WriteText]: the text handed to the writer. *)
Definition WriteText (c : Changes) : string :=
  if IsEmpty c then "No differences found." +:+ nl
  else
    write_section ("Added Tables:" +:+ nl)
      (fun t => "  + " +:+ Table_Name t +:+ " (" +:+
                itoa (length (Table_Columns t)) +:+ " columns)" +:+ nl)
      nl (AddedTables c) +:+
    write_section ("Removed Tables:" +:+ nl)
      (fun t => "  - " +:+ Table_Name t +:+ nl) nl (RemovedTables c) +:+
    write_each write_modified_table (ModifiedTables c) +:+
    write_section ("Added Indexes:" +:+ nl)
      (fun idx => "  + " +:+ Index_Name idx +:+ " ON " +:+ Index_Table idx +:+ nl)
      nl (AddedIndexes c) +:+
    write_section ("Removed Indexes:" +:+ nl)
      (fun idx => "  - " +:+ Index_Name idx +:+ nl) nl (RemovedIndexes c) +:+
    write_section ("Added Views:" +:+ nl)
      (fun v => "  + " +:+ View_Name v +:+ nl) nl (AddedViews c) +:+
    write_section ("Removed Views:" +:+ nl)
      (fun v => "  - " +:+ View_Name v +:+ nl) nl (RemovedViews c) +:+
    write_section ("Modified Views:" +:+ nl)
      (fun v => "  ~ " +:+ ViewChanges_Name v +:+ " (definition changed)" +:+ nl)
      EmptyString (ModifiedViews c).

End Report.

(** ** internal/db and pkg/migrate: telling a connection string *)
Module Db.
Import GoStrings Go.

Section DetectDialect.

(** [url.Parse] of the standard library, as far as [detectDialect] looks at
    its result: the scheme of the URL, [None] when parsing fails. *)
Variable url_scheme : string -> option string.

Definition detectDialect (connStr : string) : string * option error :=
  if HasPrefix connStr "postgres://" || HasPrefix connStr "postgresql://"
  then ("postgres", None)
  else if HasPrefix connStr "mysql://" then ("mysql", None)
  else if HasPrefix connStr "sqlserver://" || HasPrefix connStr "mssql://"
  then ("sqlserver", None)
  else
    let failed :=
      (EmptyString,
       Some "unable to detect database dialect from connection string") in
    (* Try to parse as URL and check scheme *)
    match url_scheme connStr with
    | Some scheme =>
        if negb (String.eqb scheme EmptyString) then
          if String.eqb scheme "postgres" || String.eqb scheme "postgresql"
          then ("postgres", None)
          else if String.eqb scheme "mysql" then ("mysql", None)
          else if String.eqb scheme "sqlserver" || String.eqb scheme "mssql"
          then ("sqlserver", None)
          else failed
        else failed
    | None => failed
    end.

End DetectDialect.

Definition driverName (dialect : string) : string :=
  if String.eqb dialect "postgres" then "postgres"
  else if String.eqb dialect "mysql" then "mysql"
  else if String.eqb dialect "sqlserver" then "sqlserver"
  else dialect.

(** [isConnectionString] of package migrate: one of the five URL prefixes,
    with at least one character after it. *)
Definition isConnectionString (s : string) : bool :=
  existsb (fun prefix =>
             (len prefix <? len s) &&
             String.eqb (take_str (len prefix) s) prefix)
          ["postgres://"; "postgresql://"; "mysql://"; "sqlserver://";
           "mssql://"].

End Db.

(** ** Further predicates *)
Module MoreProps.
Import GoStrings Regexp Go Schema Dialect Diff.

(** All the pieces the splitter has read: the statements split off and the
    one being read. *)
Definition split_pieces (st : split_state) : list string :=
  statements st ++ [current st].

(** Two states of the statement splitter that read on alike: the first has
    the statements [before] ahead of those of the second, and they agree on
    the statement being read and on the literal they are in, if any. *)
Definition split_ahead (before : list string) (st st' : split_state) : Prop :=
  statements st = (before ++ statements st')%list /\
  current st = current st' /\
  inString st = inString st' /\
  (inString st = true -> stringChar st = stringChar st').

Definition defs_pieces (st : defs_state) : list string :=
  defs st ++ [defs_current st].

(** The end of [splitColumnDefs]: the definition being read is kept when it
    is not empty. *)
Definition defs_finish (st : defs_state) : list string :=
  if 0 <? len (defs_current st) then (defs st ++ [defs_current st])%list
  else defs st.

(** Reading a text with [n] parentheses open: the number still open at its
    end, [None] when a closing parenthesis comes with none open. *)
Fixpoint paren_scan (n : nat) (s : string) : option nat :=
  match s with
  | EmptyString => Some n
  | String c s' =>
      if eqb_ascii c "(" then paren_scan (S n) s'
      else if eqb_ascii c ")" then
        match n with
        | 0 => None
        | S n' => paren_scan n' s'
        end
      else paren_scan n s'
  end.

(** The last element of a list with the given key. *)
Fixpoint latest {A : Type} (key : A -> string) (k : string) (l : list A)
  : option A :=
  match l with
  | [] => None
  | x :: l' =>
      match latest key k l' with
      | Some y => Some y
      | None => if String.eqb (key x) k then Some x else None
      end
  end.

(** Two lists with the same keys. *)
Definition same_keys {A : Type} (key : A -> string) (l1 l2 : list A) : Prop :=
  forall k, In k (map key l1) <-> In k (map key l2).

(** The elements two lists have under the same key, the last of each key
    on either side, pass the test. *)
Definition latest_agree {A : Type} (key : A -> string)
    (test : string -> A -> A -> Prop) (l1 l2 : list A) : Prop :=
  forall k x y,
    latest key k l1 = Some x -> latest key k l2 = Some y -> test k x y.

(** A text without white space. *)
Fixpoint no_space (s : string) : bool :=
  match s with
  | EmptyString => true
  | String c s' => negb (is_space c) && no_space s'
  end.

(** What every column read by [parseColumnDef] satisfies. *)
Definition parsed_column (col : Column) : Prop :=
  (Column_IsPrimaryKey col = true -> Column_Nullable col = false) /\
  Column_Type col <> EmptyString /\
  no_space (Column_Type col) = true /\
  no_space (Column_Name col) = true /\
  Column_Comment col = EmptyString.

(** The referential actions the parser records. *)
Definition parsed_foreign_key (fk : ForeignKey) : Prop :=
  (ForeignKey_OnDelete fk = EmptyString \/ ForeignKey_OnDelete fk = "CASCADE" \/
   ForeignKey_OnDelete fk = "SET NULL") /\
  (ForeignKey_OnUpdate fk = EmptyString \/ ForeignKey_OnUpdate fk = "CASCADE").

(** A record of table changes that reports something. *)
Definition reports_change (tc : TableChanges) : Prop :=
  AddedColumns tc <> [] \/ RemovedColumns tc <> [] \/
  ModifiedColumns tc <> [] \/ TableChanges_AddedIndexes tc <> [] \/
  TableChanges_RemovedIndexes tc <> [] \/ AddedForeignKeys tc <> [] \/
  RemovedForeignKeys tc <> [] \/ PrimaryKeyChanged tc = true.

(** The warning [transformView] gives about a view. *)
Definition view_warning (src : string) (v : View) : string :=
  "View '" +:+ View_Name v +:+ "' may contain " +:+ src +:+
  "-specific SQL that requires manual review".

(** The standalone indexes of a schema and those of its tables. *)
Definition all_indexes (s : Schema) : list Index :=
  (Indexes s ++ concat (map Table_Indexes (Tables s)))%list.

(** An index method as the mapping to mysql leaves it: in upper case, and
    none of the methods mysql does not have. *)
Definition mysql_method (ty : string) : Prop :=
  ToUpper ty = ty /\ ty <> "GIN" /\ ty <> "GIST" /\ ty <> "BRIN".

Definition panicked {A : Type} (o : outcome A) : bool :=
  match o with
  | Panicked _ => true
  | Returned _ => false
  end.

End MoreProps.

(** ** Further sample inputs *)
Module MoreSamples.
Import Schema.

Definition plain_column (name : string) : Column :=
  mkColumn name "INT" true None false false false EmptyString.

(** The table [users(id, email)] and the same with a column [name]. *)
Definition users_v1 : Schema :=
  mkSchema [mkTable "users" EmptyString
                    [plain_column "id"; plain_column "email"]
                    None [] [] []] [] [].

Definition users_v2 : Schema :=
  mkSchema [mkTable "users" EmptyString
                    [plain_column "id"; plain_column "email";
                     plain_column "name"]
                    None [] [] []] [] [].

End MoreSamples.

(** * Properties *)

(** ** The transformer *)
Module DialectFacts.
Import GoStrings Regexp Schema Dialect Props Samples.

Lemma eqs_eq (a b : string) : eqs a b = true <-> a = b.
Proof. apply String.eqb_eq. Qed.


Lemma transformIndex_frame (t : Transformer) (i : Index) :
  index_frame i (transformIndex t i).
Proof. repeat split. Qed.

Lemma transformColumn_frame (t : Transformer) (c : Column) (tn : string) :
  column_frame c (transformColumn t c tn).1.
Proof.
  unfold transformColumn.
  destruct (transformType t _ _ _ _) as [ty w]; simpl.
  repeat split.
Qed.

Lemma Forall2_map_r {A B : Type} (R : A -> B -> Prop) (f : A -> B)
    (l : list A) :
  (forall x, R x (f x)) -> Forall2 R l (map f l).
Proof. intros H; induction l; simpl; constructor; auto. Qed.

Lemma transformTable_frame (t : Transformer) (tb : Table) :
  table_frame tb (transformTable t tb).1.
Proof.
  unfold transformTable, table_frame; simpl.
  repeat split.
  - rewrite map_map. apply Forall2_map_r.
    intros c. apply transformColumn_frame.
  - apply Forall2_map_r. intros i. apply transformIndex_frame.
Qed.

Lemma transformView_fst (t : Transformer) (v : View) :
  (transformView t v).1 = v.
Proof. destruct v; reflexivity. Qed.

Lemma map_id_in {A : Type} (f : A -> A) (l : list A) :
  (forall x, In x l -> f x = x) -> map f l = l.
Proof.
  induction l as [|a l IH]; simpl; intros H; [reflexivity|].
  rewrite H, IH; auto.
Qed.

Lemma map_id_ext {A : Type} (f : A -> A) (l : list A) :
  (forall x, f x = x) -> map f l = l.
Proof. intros H. apply map_id_in. auto. Qed.

(** C10: a transformation, whatever the two dialect names, returns as many
    tables, standalone indexes and views as it was given; a table keeps its
    name, namespace, primary key, foreign keys and constraints; a column
    keeps its name, its nullable, primary-key, unique and identity flags and
    its comment; an index keeps its name, table, namespace, columns and its
    unique and primary flags; the views are returned as they are.  Only
    column types, column defaults and index methods are outside the
    frame. *)
Theorem Transform_frame (t : Transformer) (s : Schema) :
  length (Tables (Transform t s).1) = length (Tables s) /\
  length (Indexes (Transform t s).1) = length (Indexes s) /\
  length (Views (Transform t s).1) = length (Views s) /\
  Forall2 table_frame (Tables s) (Tables (Transform t s).1) /\
  Forall2 index_frame (Indexes s) (Indexes (Transform t s).1) /\
  Views (Transform t s).1 = Views s.
Proof.
  unfold Transform; simpl.
  rewrite !map_map, !length_map.
  assert (Hv : map (fun v => (transformView t v).1) (Views s) = Views s)
    by (apply map_id_ext, transformView_fst).
  rewrite Hv.
  repeat split.
  - apply Forall2_map_r. intros tb. apply transformTable_frame.
  - apply Forall2_map_r. intros i. apply transformIndex_frame.
Qed.

(** C7, as the code has it: the canonical type TIMESTAMP_TZ is projected to
    TIMESTAMP WITH TIME ZONE for postgres, to DATETIME for mysql and to
    DATETIMEOFFSET for sqlserver. *)
Theorem timestamp_tz_projection (src : string) :
  toTargetType (NewTransformer src "postgres") "TIMESTAMP_TZ"
    = "TIMESTAMP WITH TIME ZONE" /\
  toTargetType (NewTransformer src "mysql") "TIMESTAMP_TZ" = "DATETIME" /\
  toTargetType (NewTransformer src "sqlserver") "TIMESTAMP_TZ"
    = "DATETIMEOFFSET".
Proof. repeat split. Qed.

(** C7 as stated fails: for mysql the projection of TIMESTAMP_TZ is not
    TIMESTAMP. *)
Lemma timestamp_tz_mysql_not_timestamp :
  ~ (toPostgres "TIMESTAMP_TZ" = "TIMESTAMP WITH TIME ZONE" /\
     toMySQL "TIMESTAMP_TZ" = "TIMESTAMP" /\
     toSQLServer "TIMESTAMP_TZ" = "DATETIMEOFFSET").
Proof. intros (_ & H & _). vm_compute in H. discriminate H. Qed.

(** *** Unknown target dialects *)

Lemma IsSupported_spec (d : string) :
  IsSupported d = true <-> d = "postgres" \/ d = "mysql" \/ d = "sqlserver".
Proof.
  unfold IsSupported, SupportedDialects, existsb.
  rewrite !orb_true_iff, !eqs_eq. intuition congruence.
Qed.

Lemma unsupported_eqs (d : string) :
  IsSupported d = false ->
  eqs d "postgres" = false /\ eqs d "mysql" = false /\
  eqs d "sqlserver" = false.
Proof.
  unfold IsSupported, SupportedDialects, existsb.
  rewrite !orb_false_iff. intros (H1 & H2 & H3 & _).
  unfold eqs in *. rewrite String.eqb_sym in H1.
  rewrite String.eqb_sym in H2. rewrite String.eqb_sym in H3. auto.
Qed.

Section Unsupported.
Variable t : Transformer.
Hypothesis Hto : IsSupported (to t) = false.

Lemma toTargetType_unsupported (n : string) : toTargetType t n = n.
Proof.
  destruct (unsupported_eqs _ Hto) as (H1 & H2 & H3).
  unfold toTargetType. rewrite H1, H2, H3. reflexivity.
Qed.

Lemma mapIdentityType_unsupported (u : string) : mapIdentityType t u = u.
Proof.
  destruct (unsupported_eqs _ Hto) as (H1 & H2 & H3).
  unfold mapIdentityType. rewrite H1, H2, H3. reflexivity.
Qed.

Lemma mapIndexType_unsupported (ty : string) : mapIndexType t ty = ty.
Proof.
  destruct (unsupported_eqs _ Hto) as (H1 & H2 & H3).
  unfold mapIndexType. rewrite H2, H3.
  destruct (eqs ty EmptyString) eqn:E; [|reflexivity].
  apply eqs_eq in E. congruence.
Qed.

Lemma checkDataLoss_unsupported (o m tn cn : string) :
  checkDataLoss t o m tn cn = EmptyString.
Proof.
  destruct (unsupported_eqs _ Hto) as (H1 & H2 & H3).
  unfold checkDataLoss. rewrite H2, H3, !andb_false_r. reflexivity.
Qed.

Lemma transformType_unsupported (ty : string) (isId : bool) (tn cn : string) :
  transformType t ty isId tn cn =
    (if isId then ToUpper ty else normalizeType (ToUpper ty), []).
Proof.
  unfold transformType, mapDataType.
  rewrite mapIdentityType_unsupported, toTargetType_unsupported,
    checkDataLoss_unsupported.
  destruct isId; reflexivity.
Qed.

Lemma transformIndex_unsupported (i : Index) : transformIndex t i = i.
Proof.
  unfold transformIndex. rewrite mapIndexType_unsupported.
  destruct i; reflexivity.
Qed.

Lemma transformColumn_unsupported (c : Column) (tn : string) :
  passed_through c (transformColumn t c tn).1 /\
  (transformColumn t c tn).2 = [].
Proof.
  unfold transformColumn, passed_through.
  rewrite transformType_unsupported. simpl. split; reflexivity.
Qed.

Lemma concat_nil {A : Type} (ls : list (list A)) :
  Forall (fun l => l = []) ls -> concat ls = [].
Proof. induction 1; simpl; [reflexivity | subst; assumption]. Qed.

Lemma transformTable_unsupported (tb : Table) :
  Forall2 passed_through (Table_Columns tb)
          (Table_Columns (transformTable t tb).1) /\
  Table_Indexes (transformTable t tb).1 = Table_Indexes tb /\
  (transformTable t tb).2 = [].
Proof.
  unfold transformTable; simpl. repeat split.
  - rewrite map_map. apply Forall2_map_r.
    intros c. apply transformColumn_unsupported.
  - apply map_id_ext, transformIndex_unsupported.
  - apply concat_nil. rewrite map_map. apply Forall_map, Forall_forall.
    intros c _. apply transformColumn_unsupported.
Qed.

End Unsupported.

(** C3, as the code has it: [Transform] has no error result.  For a target
    dialect name that is none of postgres, mysql, sqlserver it returns a
    schema all the same: every column type is normalized to its canonical
    spelling and passed through (the type of an identity column is only
    upper-cased), every index is returned unchanged, and the only warnings
    are those about the views. *)
Theorem Transform_unsupported_target (t : Transformer) (s : Schema) :
  IsSupported (to t) = false ->
  Forall2 (fun tb tb' =>
             Forall2 passed_through (Table_Columns tb) (Table_Columns tb') /\
             Table_Indexes tb' = Table_Indexes tb)
          (Tables s) (Tables (Transform t s).1) /\
  Indexes (Transform t s).1 = Indexes s /\
  (Transform t s).2 = concat (map (fun v => (transformView t v).2) (Views s)).
Proof.
  intros Hto. unfold Transform; simpl. repeat split.
  - rewrite map_map. apply Forall2_map_r. intros tb.
    destruct (transformTable_unsupported t Hto tb) as (Hc & Hi & _). auto.
  - apply map_id_ext, transformIndex_unsupported, Hto.
  - rewrite !map_map.
    rewrite (concat_nil (map (fun x => (transformTable t x).2) (Tables s))).
    + reflexivity.
    + apply Forall_map, Forall_forall. intros tb _.
      apply (transformTable_unsupported t Hto tb).
Qed.

Lemma Transform_unsupported_target_witness :
  IsSupported "oracle" = false /\
  Forall2 (fun tb tb' =>
             Forall2 passed_through (Table_Columns tb) (Table_Columns tb') /\
             Table_Indexes tb' = Table_Indexes tb)
          (Tables oracle_input)
          (Tables (Transform (NewTransformer "postgres" "oracle")
                             oracle_input).1) /\
  Indexes (Transform (NewTransformer "postgres" "oracle") oracle_input).1
    = Indexes oracle_input /\
  (Transform (NewTransformer "postgres" "oracle") oracle_input).2 =
    concat (map (fun v => (transformView
                             (NewTransformer "postgres" "oracle") v).2)
                (Views oracle_input)).
Proof.
  split; [reflexivity|].
  apply (Transform_unsupported_target
           (NewTransformer "postgres" "oracle") oracle_input).
  reflexivity.
Defined.

(** C3 as stated fails: a transformation to the unknown dialect oracle
    returns a schema, with the column type passed through in canonical
    spelling and the index method kept, and no warning or error. *)
Lemma Transform_oracle_passes_through :
  Transform (NewTransformer "postgres" "oracle") oracle_input =
    ({| Tables := [ {| Table_Name := "users"; Table_Schema := EmptyString;
                       Table_Columns :=
                         [ mkColumn "id" "INTEGER" false None true false false
                                    EmptyString ];
                       Table_PrimaryKey := None; Table_ForeignKeys := [];
                       Table_Indexes := []; Table_Constraints := [] |} ];
        Indexes := [ mkIndex "i" "users" EmptyString ["id"] false false "gin" ];
        Views := [] |}, []).
Proof. vm_compute. reflexivity. Qed.

(** *** Transforming a dialect into itself *)












End DialectFacts.

(** ** The differ *)
Module DiffFacts.
Import GoStrings Schema Diff.

Lemma EqualFold_refl (s : string) : EqualFold s s = true.
Proof.
  induction s as [|a s IH]; simpl; [reflexivity|].
  unfold eqb_ascii. rewrite Ascii.eqb_refl. exact IH.
Qed.

Lemma sameDefault_refl (d : option string) : sameDefault d d = true.
Proof. destruct d; simpl; [apply EqualFold_refl | reflexivity]. Qed.

Lemma same_strings_refl (l : list string) :
  forallb (fun p : string * string => eqs p.1 p.2) (combine l l) = true.
Proof.
  induction l as [|x l IH]; simpl; [reflexivity|].
  unfold eqs at 1. rewrite String.eqb_refl. exact IH.
Qed.

Lemma samePrimaryKey_refl (pk : option PrimaryKey) : samePrimaryKey pk pk = true.
Proof.
  destruct pk as [pk|]; simpl; [|reflexivity].
  rewrite Nat.eqb_refl, same_strings_refl. reflexivity.
Qed.

Lemma compareColumn_refl (c : Column) : compareColumn c c = None.
Proof.
  unfold compareColumn.
  rewrite EqualFold_refl, Bool.eqb_reflx, sameDefault_refl. reflexivity.
Qed.

Lemma compareView_refl (name : string) (v : View) : compareView name v v = None.
Proof.
  unfold compareView, eqs. rewrite String.eqb_refl. reflexivity.
Qed.

Lemma omap_all_None {A B : Type} (f : A -> option B) (l : list A) :
  (forall x, x ∈ l -> f x = None) -> omap f l = [].
Proof.
  induction l as [|a l IH]; intros H; simpl; [reflexivity|].
  rewrite (H a) by apply list_elem_of_here.
  apply IH. intros x Hx. apply H. by apply list_elem_of_further.
Qed.

(** Ranging over a map and looking each key up in the same map finds every
    key: nothing is only on one side. *)
Lemma only_in_same {A : Type} (m : gmap string A) : only_in m m = [].
Proof.
  unfold only_in. apply omap_all_None.
  intros [k v] Hkv. apply elem_of_map_to_list in Hkv.
  simpl. rewrite Hkv. reflexivity.
Qed.

Lemma in_both_same {A C : Type} (cmp : string -> A -> A -> option C)
    (m : gmap string A) :
  (forall k v, cmp k v v = None) -> in_both cmp m m = [].
Proof.
  intros Hcmp. unfold in_both. apply omap_all_None.
  intros [k v] Hkv. apply elem_of_map_to_list in Hkv.
  simpl. rewrite Hkv. apply Hcmp.
Qed.

Lemma compareTable_refl (tb : Table) : compareTable tb tb = None.
Proof.
  unfold compareTable.
  rewrite !only_in_same, samePrimaryKey_refl.
  rewrite in_both_same by (intros; apply compareColumn_refl).
  reflexivity.
Qed.

(** C4: the differences of a schema with itself are empty: no added,
    removed or modified table, no added or removed index, no added, removed
    or modified view. *)
Theorem Compare_same_IsEmpty (s : Schema) : IsEmpty (Compare s s) = true.
Proof.
  unfold Compare, IsEmpty; simpl.
  rewrite !only_in_same.
  rewrite in_both_same by (intros; apply compareTable_refl).
  rewrite in_both_same by (intros; apply compareView_refl).
  reflexivity.
Qed.

End DiffFacts.

(** ** The parser *)
Module ParserFacts.
Import GoStrings Utf8 Regexp Go Schema Props RuneProps Samples.
Local Open Scope list_scope.

(** *** Strings *)

Lemma append_nil_l (s : string) : EmptyString +:+ s = s.
Proof. reflexivity. Qed.

Lemma append_cons (c : ascii) (a b : string) :
  String c a +:+ b = String c (a +:+ b).
Proof. reflexivity. Qed.

Lemma append_nil_r (s : string) : s +:+ EmptyString = s.
Proof. induction s as [|c s IH]; [reflexivity|]. rewrite append_cons, IH. done. Qed.

Lemma append_assoc (a b c : string) : (a +:+ b) +:+ c = a +:+ (b +:+ c).
Proof.
  induction a as [|x a IH]; [reflexivity|]. rewrite !append_cons, IH. done.
Qed.

Lemma literal_app (q : ascii) (body s : string) :
  String q (body +:+ String q s) =
    String q (body +:+ String q EmptyString) +:+ s.
Proof. rewrite append_cons, append_assoc. reflexivity. Qed.

Lemma len_append (a b : string) : len (a +:+ b) = len a + len b.
Proof.
  induction a as [|x a IH]; [reflexivity|]. rewrite append_cons. simpl. lia.
Qed.

(** *** Bytes and runes *)

Section Runes.
Local Open Scope Z_scope.

Lemma byte_val_range (c : ascii) : 0 <= byte_val c < 256.
Proof.
  unfold byte_val. pose proof (N_ascii_bounded c). lia.
Qed.

Lemma byte_of_val (c : ascii) : byte_of (byte_val c) = c.
Proof.
  unfold byte_of. rewrite Z.mod_small by apply byte_val_range.
  unfold byte_val. rewrite N2Z.id. apply ascii_N_embedding.
Qed.

Lemma byte_of_eq (z : Z) (c : ascii) : z = byte_val c -> byte_of z = c.
Proof. intros ->. apply byte_of_val. Qed.

Lemma lor_add (x y n : Z) :
  0 <= n -> 0 <= y < 2 ^ n -> x mod 2 ^ n = 0 -> Z.lor x y = x + y.
Proof.
  intros Hn Hy Hx.
  assert (H0 : Z.land x y = 0).
  { apply Z.bits_inj'. intros i Hi. rewrite Z.land_spec, Z.bits_0.
    destruct (Z.lt_ge_cases i n) as [Hlt|Hge].
    - rewrite <- (Z.mod_pow2_bits_low x n i) by lia.
      rewrite Hx, Z.bits_0. reflexivity.
    - rewrite <- (Z.mod_small y (2 ^ n)) by lia.
      rewrite Z.mod_pow2_bits_high by lia. apply andb_false_r. }
  rewrite <- Z.lxor_lor by exact H0.
  symmetry. apply Z.add_nocarry_lxor. exact H0.
Qed.


Ltac zmod := Z.div_mod_to_equations; lia.

Lemma land_maskx (a : Z) : Z.land a maskx = a mod 64.
Proof. exact (Z.land_ones a 6 ltac:(lia)). Qed.

Lemma land_mask2 (a : Z) : Z.land a mask2 = a mod 32.
Proof. exact (Z.land_ones a 5 ltac:(lia)). Qed.

Lemma land_mask3 (a : Z) : Z.land a mask3 = a mod 16.
Proof. exact (Z.land_ones a 4 ltac:(lia)). Qed.

Lemma land_mask4 (a : Z) : Z.land a mask4 = a mod 8.
Proof. exact (Z.land_ones a 3 ltac:(lia)). Qed.

Lemma combine2 (a b : Z) :
  Z.lor (Z.shiftl (Z.land a mask2) 6) (Z.land b maskx) =
    a mod 32 * 64 + b mod 64.
Proof.
  rewrite land_mask2, land_maskx, Z.shiftl_mul_pow2 by lia.
  apply (lor_add _ _ 6); [lia| |].
  - change (2 ^ 6) with 64. apply Z.mod_pos_bound. lia.
  - apply Z.mod_mul. lia.
Qed.

Lemma combine3 (a b c : Z) :
  Z.lor (Z.lor (Z.shiftl (Z.land a mask3) 12) (Z.shiftl (Z.land b maskx) 6))
        (Z.land c maskx) =
    a mod 16 * 4096 + b mod 64 * 64 + c mod 64.
Proof.
  rewrite land_mask3, !land_maskx, !Z.shiftl_mul_pow2 by lia.
  change (2 ^ 12) with 4096. change (2 ^ 6) with 64.
  rewrite (lor_add (a mod 16 * 4096) (b mod 64 * 64) 12);
    [|lia|change (2 ^ 12) with 4096; zmod|apply Z.mod_mul; lia].
  apply (lor_add _ _ 6); change (2 ^ 6) with 64; [lia|zmod|zmod].
Qed.

Lemma combine4 (a b c d : Z) :
  Z.lor (Z.lor (Z.lor (Z.shiftl (Z.land a mask4) 18)
                      (Z.shiftl (Z.land b maskx) 12))
               (Z.shiftl (Z.land c maskx) 6))
        (Z.land d maskx) =
    a mod 8 * 262144 + b mod 64 * 4096 + c mod 64 * 64 + d mod 64.
Proof.
  rewrite land_mask4, !land_maskx, !Z.shiftl_mul_pow2 by lia.
  change (2 ^ 18) with 262144. change (2 ^ 12) with 4096.
  change (2 ^ 6) with 64.
  rewrite (lor_add (a mod 8 * 262144) (b mod 64 * 4096) 18);
    [|lia|change (2 ^ 18) with 262144; zmod|apply Z.mod_mul; lia].
  rewrite (lor_add (a mod 8 * 262144 + b mod 64 * 4096) (c mod 64 * 64) 12);
    [|lia|change (2 ^ 12) with 4096; zmod|change (2 ^ 12) with 4096; zmod].
  apply (lor_add _ _ 6); change (2 ^ 6) with 64; [lia|zmod|zmod].
Qed.

Lemma lor_t2 (y : Z) : 0 <= y < 64 -> Z.lor t2 y = 192 + y.
Proof. intros H. apply (lor_add 192 y 6); [lia|exact H|reflexivity]. Qed.

Lemma lor_t3 (y : Z) : 0 <= y < 32 -> Z.lor t3 y = 224 + y.
Proof. intros H. apply (lor_add 224 y 5); [lia|exact H|reflexivity]. Qed.

Lemma lor_t4 (y : Z) : 0 <= y < 16 -> Z.lor t4 y = 240 + y.
Proof. intros H. apply (lor_add 240 y 4); [lia|exact H|reflexivity]. Qed.

Lemma lor_tx (y : Z) : Z.lor tx (Z.land y maskx) = 128 + y mod 64.
Proof.
  rewrite land_maskx. apply (lor_add 128 _ 6); [lia| |reflexivity].
  change (2 ^ 6) with 64. apply Z.mod_pos_bound. lia.
Qed.


Lemma first_spec (b : Z) :
  match first b with
  | ascii_byte => b < 128
  | invalid_byte => 128 <= b
  | lead_byte sz lo hi =>
      128 <= lo /\ hi <= 191 /\
      ((sz = 2%nat /\ 194 <= b <= 223 /\ lo = 128 /\ hi = 191) \/
       (sz = 3%nat /\ 224 <= b <= 239 /\
        lo = (if b =? 224 then 160 else 128) /\
        hi = (if b =? 237 then 159 else 191)) \/
       (sz = 4%nat /\ 240 <= b <= 244 /\
        lo = (if b =? 240 then 144 else 128) /\
        hi = (if b =? 244 then 143 else 191)))
  end.
Proof.
  unfold first, locb, hicb.
  repeat match goal with
         | |- context [if ?x <? ?y then _ else _] =>
             destruct (Z.ltb_spec x y)
         | |- context [if ?x =? ?y then _ else _] =>
             destruct (Z.eqb_spec x y)
         end; try lia;
    (split; [lia|split; [lia|]]);
    repeat match goal with
           | |- context [?x =? ?y] => destruct (Z.eqb_spec x y); try lia
           end;
    try (left; repeat split; lia);
    try (right; left; repeat split; lia);
    try (right; right; repeat split; lia).
Qed.

Lemma decode_spec (s : string) :
  s <> EmptyString ->
  decoded s (DecodeRuneInString s).1 (DecodeRuneInString s).2.
Proof.
  destruct s as [|c0 rest]; [congruence|]. intros _.
  unfold DecodeRuneInString.
  pose proof (first_spec (byte_val c0)) as F.
  destruct (first (byte_val c0)) as [| |sz lo hi].
  - apply decoded_ascii, F.
  - apply decoded_invalid, F.
  - assert (H0 : 128 <= byte_val c0) by (destruct F as (_ & _ & [F|[F|F]]); lia).
    destruct (len (String c0 rest) <? sz)%nat eqn:El;
      [apply decoded_invalid, H0|].
    destruct rest as [|c1 rest1]; [apply decoded_invalid, H0|].
    destruct (Z.ltb_spec (byte_val c1) lo); cbn [orb];
      [apply decoded_invalid, H0|].
    destruct (Z.ltb_spec hi (byte_val c1)); cbn [orb];
      [apply decoded_invalid, H0|].
    destruct F as (Hlo & Hhi & [F|[F|F]]); destruct F as (-> & Hb & El' & Eh).
    + cbn [Nat.leb]. rewrite combine2. apply decoded_2; lia.
    + cbn [Nat.leb].
      destruct rest1 as [|c2 rest2]; [apply decoded_invalid, H0|].
      unfold locb, hicb.
      destruct (Z.ltb_spec (byte_val c2) 128); cbn [orb];
        [apply decoded_invalid, H0|].
      destruct (Z.ltb_spec 191 (byte_val c2)); cbn [orb];
        [apply decoded_invalid, H0|].
      rewrite combine3. apply decoded_3; try lia.
      * intros E. rewrite E in El'. cbn in El'. lia.
      * intros E. rewrite E in Eh. cbn in Eh. lia.
    + cbn [Nat.leb].
      destruct rest1 as [|c2 rest2]; [apply decoded_invalid, H0|].
      unfold locb, hicb.
      destruct (Z.ltb_spec (byte_val c2) 128); cbn [orb];
        [apply decoded_invalid, H0|].
      destruct (Z.ltb_spec 191 (byte_val c2)); cbn [orb];
        [apply decoded_invalid, H0|].
      destruct rest2 as [|c3 rest3]; [apply decoded_invalid, H0|].
      destruct (Z.ltb_spec (byte_val c3) 128); cbn [orb];
        [apply decoded_invalid, H0|].
      destruct (Z.ltb_spec 191 (byte_val c3)); cbn [orb];
        [apply decoded_invalid, H0|].
      rewrite combine4. apply decoded_4; try lia.
      * intros E. rewrite E in El'. cbn in El'. lia.
      * intros E. rewrite E in Eh. cbn in Eh. lia.
Qed.


Lemma decoded_width (s : string) (r : rune) (w : nat) :
  decoded s r w -> (1 <= w <= len s)%nat.
Proof. destruct 1; cbn [len]; lia. Qed.

(** A rune that does not start with an ASCII byte is no ASCII character,
    and the bytes it is read from are all outside ASCII. *)
Lemma decoded_non_ascii (c0 : ascii) (t : string) (r : rune) (w : nat) :
  decoded (String c0 t) r w -> 128 <= byte_val c0 ->
  128 <= r /\ non_ascii (take_str w (String c0 t)) = true.
Proof.
  intros H H0. inversion H; subst; cbn [take_str non_ascii];
    repeat match goal with
           | |- context [?x <=? ?y] => destruct (Z.leb_spec x y); [|lia]
           end; cbn [andb]; (split; [|reflexivity]);
    unfold RuneError; try lia; zmod.
Qed.

Lemma EncodeRune_ascii (c : ascii) :
  byte_val c < 128 -> EncodeRune (rune_lit c) = String c EmptyString.
Proof.
  intros H. pose proof (byte_val_range c). unfold EncodeRune, rune_lit.
  rewrite Z.mod_small by lia. unfold rune1Max.
  destruct (Z.leb_spec (byte_val c) 127); [|lia].
  rewrite byte_of_val. reflexivity.
Qed.

(** Encoding undoes decoding, but for a byte that starts no well-formed
    sequence. *)
Lemma decoded_EncodeRune (s : string) (r : rune) (w : nat) :
  decoded s r w -> (r =? RuneError) && (w =? 1)%nat = false ->
  EncodeRune r = take_str w s.
Proof.
  intros H Hv. destruct H as [c0 t H0|c0 t H0|c0 c1 t H0 H1
                              |c0 c1 c2 t H0 H1 Ha Hb H2
                              |c0 c1 c2 c3 t H0 H1 Ha Hb H2 H3].
  - apply EncodeRune_ascii, H0.
  - rewrite Z.eqb_refl in Hv. discriminate.
  - set (r := byte_val c0 mod 32 * 64 + byte_val c1 mod 64).
    assert (Hr : 128 <= r <= 2047) by (subst r; zmod).
    unfold EncodeRune. rewrite Z.mod_small by lia.
    unfold rune1Max, rune2Max.
    destruct (Z.leb_spec r 127); [lia|].
    destruct (Z.leb_spec r 2047); [|lia].
    rewrite Z.shiftr_div_pow2, lor_tx by lia. change (2 ^ 6) with 64.
    rewrite lor_t2 by zmod. cbn [take_str].
    f_equal; [|f_equal]; apply byte_of_eq; subst r; zmod.
  - set (r := byte_val c0 mod 16 * 4096 + byte_val c1 mod 64 * 64 +
              byte_val c2 mod 64).
    assert (Hr : 2048 <= r <= 65535 /\ (r < 55296 \/ 57343 < r))
      by (subst r; zmod).
    unfold EncodeRune. rewrite Z.mod_small by lia.
    unfold rune1Max, rune2Max, rune3Max, MaxRune, surrogateMin, surrogateMax.
    destruct (Z.leb_spec r 127); [lia|].
    destruct (Z.leb_spec r 2047); [lia|].
    destruct (Z.ltb_spec 1114111 r); [lia|].
    replace ((55296 <=? r) && (r <=? 57343)) with false
      by (symmetry; apply andb_false_iff; rewrite !Z.leb_gt; lia).
    cbn [orb].
    destruct (Z.leb_spec r 65535); [|lia].
    unfold encode3.
    rewrite !Z.shiftr_div_pow2, !lor_tx by lia.
    change (2 ^ 6) with 64. change (2 ^ 12) with 4096.
    rewrite lor_t3 by zmod. cbn [take_str].
    f_equal; [|f_equal; [|f_equal]]; apply byte_of_eq; subst r; zmod.
  - set (r := byte_val c0 mod 8 * 262144 + byte_val c1 mod 64 * 4096 +
              byte_val c2 mod 64 * 64 + byte_val c3 mod 64).
    assert (Hr : 65536 <= r <= 1114111) by (subst r; zmod).
    unfold EncodeRune. rewrite Z.mod_small by lia.
    unfold rune1Max, rune2Max, rune3Max, MaxRune, surrogateMin, surrogateMax.
    destruct (Z.leb_spec r 127); [lia|].
    destruct (Z.leb_spec r 2047); [lia|].
    destruct (Z.ltb_spec 1114111 r); [lia|].
    replace ((55296 <=? r) && (r <=? 57343)) with false
      by (symmetry; apply andb_false_iff; rewrite !Z.leb_gt; lia).
    cbn [orb].
    destruct (Z.leb_spec r 65535); [lia|].
    rewrite !Z.shiftr_div_pow2, !lor_tx by lia.
    change (2 ^ 6) with 64. change (2 ^ 12) with 4096.
    change (2 ^ 18) with 262144.
    rewrite lor_t4 by zmod. cbn [take_str].
    f_equal; [|f_equal; [|f_equal; [|f_equal]]]; apply byte_of_eq;
      subst r; zmod.
Qed.


Ltac decode_ifs :=
  repeat match goal with
         | |- context [if (?x <? ?y)%Z || _ then _ else _] =>
             destruct (Z.ltb_spec x y); cbn [orb]
         | |- context [if (?x <? ?y)%Z then _ else _] =>
             destruct (Z.ltb_spec x y)
         | |- context [if (?x <? ?y)%nat then _ else _] =>
             destruct (Nat.ltb_spec x y)
         | |- context [if (?x <=? ?y)%nat then _ else _] =>
             destruct (Nat.leb_spec x y)
         end.

(** An ASCII character is a decoding boundary: what follows it plays no
    part in the decoding of what comes before. *)
Lemma decode_app_ascii (s : string) (c : ascii) (t : string) :
  s <> EmptyString -> byte_val c < 128 ->
  DecodeRuneInString (s +:+ String c t) = DecodeRuneInString s.
Proof.
  intros Hs Hc. destruct s as [|c0 rest]; [congruence|].
  change (String c0 rest +:+ String c t)
    with (String c0 (rest +:+ String c t)).
  unfold DecodeRuneInString.
  pose proof (first_spec (byte_val c0)) as F.
  destruct (first (byte_val c0)) as [| |sz lo hi]; [reflexivity..|].
  destruct F as (Hlo & Hhi & F). unfold locb, hicb.
  destruct rest as [|c1 [|c2 [|c3 rest3]]];
    rewrite ?append_cons, ?append_nil_l; cbn [len];
    destruct F as [F|[F|F]]; destruct F as (-> & _ & _ & _);
    decode_ifs; try reflexivity; try lia.
Qed.


Lemma take_drop_str (n : nat) (s : string) : take_str n s +:+ drop_str n s = s.
Proof.
  revert s. induction n as [|n IH]; intros [|c s]; try reflexivity.
  cbn [take_str drop_str]. rewrite append_cons, IH. reflexivity.
Qed.

Lemma drop_str_app (n : nat) (a b : string) :
  (n <= len a)%nat -> drop_str n (a +:+ b) = drop_str n a +:+ b.
Proof.
  revert a. induction n as [|n IH]; intros [|c a] H; cbn [len] in H;
    try reflexivity; try lia.
  rewrite append_cons. cbn [drop_str]. apply IH. lia.
Qed.

Lemma len_drop_str (n : nat) (s : string) :
  (n <= len s)%nat -> (len (drop_str n s) = len s - n)%nat.
Proof.
  revert s. induction n as [|n IH]; intros [|c s] H; cbn [len] in *;
    try reflexivity; try lia.
  cbn [drop_str]. rewrite IH by lia. lia.
Qed.

(** *** The runes of a text *)

Lemma runes_from_drop (k : nat) (s : string) :
  (k <= len s)%nat -> runes_from k s = runes (drop_str k s).
Proof.
  revert s. induction k as [|k IH]; intros [|c s] H; cbn [len] in H;
    try reflexivity; try lia.
  cbn [runes_from drop_str]. apply IH. lia.
Qed.

(** One step of the loop over a text that is not empty: the rune decoded,
    then the runes of the text after it. *)
Lemma runes_unfold (s : string) :
  s <> EmptyString ->
  runes s =
    (DecodeRuneInString s).1 :: runes (drop_str (DecodeRuneInString s).2 s).
Proof.
  intros Hs. pose proof (decoded_width _ _ _ (decode_spec s Hs)) as Hw.
  destruct s as [|c s]; [congruence|]. unfold runes at 1.
  cbn [runes_from]. cbn [len] in Hw.
  destruct (DecodeRuneInString (String c s)) as [r w]. cbn [fst snd] in *.
  rewrite runes_from_drop by lia.
  destruct w as [|w]; [lia|]. cbn [drop_str].
  replace (S w - 1)%nat with w by lia. reflexivity.
Qed.

Lemma ValidString_unfold (s : string) :
  s <> EmptyString ->
  ValidString s =
    negb (((DecodeRuneInString s).1 =? RuneError) &&
          ((DecodeRuneInString s).2 =? 1)%nat) &&
    ValidString (drop_str (DecodeRuneInString s).2 s).
Proof.
  intros Hs. pose proof (decoded_width _ _ _ (decode_spec s Hs)) as Hw.
  assert (Hk : forall k t, (k <= len t)%nat ->
                           valid_from k t = ValidString (drop_str k t)).
  { induction k as [|k IH]; intros [|c t] H; cbn [len] in H;
      try reflexivity; try lia.
    cbn [valid_from drop_str]. apply IH. lia. }
  destruct s as [|c s]; [congruence|]. unfold ValidString at 1.
  cbn [valid_from]. cbn [len] in Hw.
  destruct (DecodeRuneInString (String c s)) as [r w]. cbn [fst snd] in *.
  rewrite Hk by lia.
  destruct w as [|w]; [lia|]. cbn [drop_str].
  replace (S w - 1)%nat with w by lia. reflexivity.
Qed.

Lemma runes_nil : runes EmptyString = [].
Proof. reflexivity. Qed.

Lemma runes_cons_ascii (c : ascii) (s : string) :
  byte_val c < 128 -> runes (String c s) = rune_lit c :: runes s.
Proof.
  intros Hc. rewrite runes_unfold by discriminate.
  pose proof (decode_spec (String c s) ltac:(discriminate)) as H.
  destruct (DecodeRuneInString (String c s)) as [r w]. cbn [fst snd] in *.
  inversion H; subst; try lia. reflexivity.
Qed.

(** Induction on a text by the runes of the loop: an ASCII character, or a
    rune outside ASCII read from bytes outside ASCII, which is written back
    as these bytes unless it is the rune of an invalid byte. *)
Lemma rune_ind (P : string -> Prop) :
  P EmptyString ->
  (forall c s, byte_val c < 128 -> P s -> P (String c s)) ->
  (forall chunk s r,
      chunk <> EmptyString -> non_ascii chunk = true -> 128 <= r ->
      runes (chunk +:+ s) = r :: runes s ->
      P s -> P (chunk +:+ s)) ->
  forall s, P s.
Proof.
  intros Hnil Hascii Hwide s.
  assert (H : forall n s, (len s <= n)%nat -> P s); [|exact (H _ s (le_n _))].
  clear s. induction n as [|n IH]; intros [|c0 t] Hlen; cbn [len] in Hlen;
    try exact Hnil; try lia.
  destruct (Z.lt_ge_cases (byte_val c0) 128) as [Hc|Hc].
  { apply Hascii; [exact Hc|apply IH; lia]. }
  set (s := String c0 t).
  pose proof (decode_spec s ltac:(discriminate)) as Hd.
  pose proof (decoded_width _ _ _ Hd) as Hw.
  destruct (decoded_non_ascii _ _ _ _ Hd Hc) as [Hr Hna].
  pose proof (runes_unfold s ltac:(discriminate)) as Hu.
  rewrite <- (take_drop_str (DecodeRuneInString s).2 s) in Hu at 1.
  rewrite <- (take_drop_str (DecodeRuneInString s).2 s).
  apply (Hwide _ _ (DecodeRuneInString s).1); [|exact Hna|exact Hr|exact Hu|].
  - destruct (DecodeRuneInString s).2; [lia|]. discriminate.
  - apply IH. rewrite len_drop_str by lia. subst s. cbn [len] in *. lia.
Qed.

(** An ASCII character is a boundary of the loop: the runes of a text
    around it are those of the text before it, the character, and those of
    the text after it. *)
Lemma runes_app_ascii (a : string) (c : ascii) (b : string) :
  byte_val c < 128 ->
  runes (a +:+ String c b) = (runes a ++ rune_lit c :: runes b)%list.
Proof.
  intros Hc.
  assert (H : forall n a, (len a <= n)%nat ->
                          runes (a +:+ String c b) =
                            (runes a ++ rune_lit c :: runes b)%list);
    [|exact (H _ a (le_n _))].
  clear a. induction n as [|n IH]; intros [|c0 t] Hlen; cbn [len] in Hlen;
    try lia; try (rewrite append_nil_l; apply runes_cons_ascii, Hc).
  set (s := String c0 t) in *.
  assert (Hs : s <> EmptyString) by discriminate.
  pose proof (decoded_width _ _ _ (decode_spec s Hs)) as Hw.
  rewrite (runes_unfold (s +:+ String c b)) by discriminate.
  rewrite (runes_unfold s Hs), decode_app_ascii by assumption.
  rewrite drop_str_app by lia.
  rewrite IH; [reflexivity|].
  rewrite len_drop_str by lia. subst s. cbn [len] in *. lia.
Qed.

Lemma string_of_runes_app (rs1 rs2 : list rune) :
  string_of_runes (rs1 ++ rs2)%list = string_of_runes rs1 +:+ string_of_runes rs2.
Proof.
  induction rs1 as [|r rs1 IH]; [reflexivity|].
  cbn [app string_of_runes]. rewrite IH, append_assoc. reflexivity.
Qed.

(** A text that is valid UTF-8 comes out of decoding and encoding as it
    went in. *)
Lemma string_of_runes_valid (s : string) :
  ValidString s = true -> string_of_runes (runes s) = s.
Proof.
  assert (H : forall n s, (len s <= n)%nat -> ValidString s = true ->
                          string_of_runes (runes s) = s);
    [|exact (H _ s (le_n _))].
  clear s. induction n as [|n IH]; intros [|c0 t] Hlen Hv; cbn [len] in Hlen;
    try reflexivity; try lia.
  set (s := String c0 t) in *.
  assert (Hs : s <> EmptyString) by discriminate.
  pose proof (decode_spec s Hs) as Hd.
  pose proof (decoded_width _ _ _ Hd) as Hw.
  rewrite ValidString_unfold in Hv by exact Hs.
  apply andb_true_iff in Hv as [Hv1 Hv2]. apply negb_true_iff in Hv1.
  rewrite runes_unfold by exact Hs. cbn [string_of_runes].
  rewrite (decoded_EncodeRune _ _ _ Hd Hv1), IH; [apply take_drop_str| |exact Hv2].
  rewrite len_drop_str by lia. subst s. cbn [len] in *. lia.
Qed.

Lemma rune_lit_eqb (a b : ascii) : (rune_lit a =? rune_lit b) = eqb_ascii a b.
Proof.
  unfold rune_lit, eqb_ascii. destruct (Ascii.eqb_spec a b) as [->|Hne].
  - apply Z.eqb_refl.
  - apply Z.eqb_neq. intros E. apply Hne.
    rewrite <- (byte_of_val a), <- (byte_of_val b), E. reflexivity.
Qed.

(** A rune outside ASCII is none of the characters the program looks for. *)
Lemma wide_not_lit (r : rune) (c : ascii) :
  128 <= r -> byte_val c < 128 -> (r =? rune_lit c) = false.
Proof. intros Hr Hc. apply Z.eqb_neq. unfold rune_lit. lia. Qed.

Lemma non_ascii_neq (c d : ascii) :
  128 <= byte_val c -> byte_val d < 128 -> eqb_ascii c d = false.
Proof.
  intros Hc Hd. rewrite <- rune_lit_eqb. apply wide_not_lit; assumption.
Qed.

End Runes.

Lemma range_string_app_ascii {S : Type} (step : S -> rune -> S)
    (a : string) (c : ascii) (b : string) (st : S) :
  (byte_val c < 128)%Z ->
  range_string step (a +:+ String c b) st =
    range_string step b (step (range_string step a st) (rune_lit c)).
Proof.
  intros Hc. unfold range_string.
  rewrite runes_app_ascii by exact Hc.
  rewrite fold_left_app. reflexivity.
Qed.

(** *** The statement splitter *)

Lemma eqb_ascii_eq (a b : ascii) : eqb_ascii a b = true <-> a = b.
Proof. apply Ascii.eqb_eq. Qed.


Lemma quote_not_semicolon (q : ascii) :
  is_quote q = true -> eqb_ascii q ";" = false.
Proof.
  unfold is_quote. rewrite orb_true_iff, !eqb_ascii_eq.
  intros [-> | ->]; reflexivity.
Qed.

Lemma quote_ascii (q : ascii) : is_quote q = true -> (byte_val q < 128)%Z.
Proof.
  unfold is_quote. rewrite orb_true_iff, !eqb_ascii_eq.
  intros [-> | ->]; reflexivity.
Qed.

(** Outside a literal, a quote character opens one and is written. *)
Lemma split_step_open (st : split_state) (q : ascii) :
  inString st = false -> is_quote q = true ->
  split_step st (rune_lit q) =
    mkSplit (statements st) (current st +:+ String q EmptyString) true
            (rune_lit q).
Proof.
  intros Hin Hq. unfold split_step, WriteRune. rewrite Hin, !rune_lit_eqb.
  cbn [negb andb]. unfold is_quote in Hq. rewrite Hq.
  rewrite andb_false_r, EncodeRune_ascii by (apply quote_ascii, Hq).
  reflexivity.
Qed.

(** Inside a literal every rune but the closing quote is written, a
    semicolon too. *)
Lemma split_step_inside (st : split_state) (r : rune) :
  inString st = true -> (r =? stringChar st)%Z = false ->
  split_step st r =
    mkSplit (statements st) (WriteRune (current st) r) true (stringChar st).
Proof.
  intros Hin Hr. unfold split_step. rewrite Hin, Hr. cbn [negb andb].
  rewrite andb_false_r. reflexivity.
Qed.

Lemma split_step_close (st : split_state) (q : ascii) :
  inString st = true -> stringChar st = rune_lit q -> is_quote q = true ->
  split_step st (rune_lit q) =
    mkSplit (statements st) (current st +:+ String q EmptyString) false
            (rune_lit q).
Proof.
  intros Hin Hsc Hq. unfold split_step, WriteRune.
  rewrite Hin, Hsc, Z.eqb_refl, !rune_lit_eqb. cbn [negb andb].
  rewrite (quote_not_semicolon _ Hq), EncodeRune_ascii
    by (apply quote_ascii, Hq).
  reflexivity.
Qed.

Lemma split_body (rs : list rune) (st : split_state) :
  inString st = true -> ~ In (stringChar st) rs ->
  fold_left split_step rs st =
    mkSplit (statements st) (current st +:+ string_of_runes rs) true
            (stringChar st).
Proof.
  revert st. induction rs as [|r rs IH]; intros st Hin Hnot.
  - cbn. rewrite append_nil_r. destruct st; cbn in *; congruence.
  - cbn [fold_left]. rewrite split_step_inside; [|exact Hin|].
    + rewrite IH; cbn [statements current inString stringChar];
        [|reflexivity|intros H; apply Hnot; right; exact H].
      unfold WriteRune. cbn [string_of_runes]. rewrite append_assoc.
      reflexivity.
    + apply Z.eqb_neq. intros ->. apply Hnot. left. reflexivity.
Qed.

Lemma mem_ascii_app (q : ascii) (a b : string) :
  mem_ascii q (a +:+ b) = mem_ascii q a || mem_ascii q b.
Proof.
  induction a as [|c a IH]; [reflexivity|].
  rewrite append_cons. cbn [mem_ascii]. rewrite IH, orb_assoc. reflexivity.
Qed.

(** The runes of a text without the ASCII character [q]: none is [q]. *)
Lemma runes_without (q : ascii) (body : string) :
  (byte_val q < 128)%Z -> mem_ascii q body = false ->
  ~ In (rune_lit q) (runes body).
Proof.
  intros Hq. induction body as [|c s Hc IH|chunk s r _ _ Hr Hrunes IH]
    using rune_ind; intros Hmem.
  - intros [].
  - rewrite runes_cons_ascii by exact Hc. cbn [mem_ascii] in Hmem.
    apply orb_false_iff in Hmem as [Hne Hmem].
    intros [E|H]; [|exact (IH Hmem H)].
    assert (Hb : (rune_lit c =? rune_lit q)%Z = true)
      by (rewrite E; apply Z.eqb_refl).
    rewrite rune_lit_eqb in Hb. unfold eqb_ascii in *.
    rewrite Ascii.eqb_sym in Hb. congruence.
  - rewrite Hrunes. rewrite mem_ascii_app in Hmem.
    apply orb_false_iff in Hmem as [_ Hmem].
    intros [E|H]; [|exact (IH Hmem H)].
    unfold rune_lit in E. lia.
Qed.

Lemma cons_app_middle {A : Type} (x : A) (l : list A) (y : A) (r : list A) :
  x :: l ++ y :: r = (x :: l ++ [y]) ++ r.
Proof. cbn [app]. rewrite <- List.app_assoc. reflexivity. Qed.

(** A whole literal read from outside any literal is written to the
    statement being read; no statement ends within it. *)
Lemma split_literal (q : ascii) (body : string) (st : split_state) :
  inString st = false -> is_quote q = true -> mem_ascii q body = false ->
  fold_left split_step (rune_lit q :: runes body ++ [rune_lit q]) st =
    mkSplit (statements st)
            (current st +:+
             String q (string_of_runes (runes body) +:+ String q EmptyString))
            false (rune_lit q).
Proof.
  intros Hin Hq Hmem. cbn [fold_left].
  rewrite split_step_open by assumption.
  rewrite fold_left_app, (split_body (runes body));
    cbn [statements current inString stringChar];
    [|reflexivity|apply runes_without; [apply quote_ascii, Hq|exact Hmem]].
  cbn [fold_left].
  rewrite split_step_close; [|reflexivity|reflexivity|exact Hq].
  cbn [statements current]. rewrite !append_assoc. reflexivity.
Qed.

Lemma split_step_plain (st : split_state) (r : rune) :
  inString st = false ->
  (r =? rune_lit "'")%Z || (r =? rune_lit "034")%Z = false ->
  inString (split_step st r) = false.
Proof.
  intros Hin Hr. unfold split_step. rewrite Hin, Hr. cbn [negb andb].
  destruct (r =? rune_lit ";")%Z; reflexivity.
Qed.

(** Bytes outside ASCII are plain characters of a text. *)
Lemma outside_literals_non_ascii (chunk s : string) :
  non_ascii chunk = true -> outside_literals (chunk +:+ s) ->
  outside_literals s.
Proof.
  induction chunk as [|c chunk IH]; intros Hna Hout; [exact Hout|].
  cbn [non_ascii] in Hna. apply andb_true_iff in Hna as [Hc Hna].
  apply Z.leb_le in Hc. rewrite append_cons in Hout.
  inversion Hout as [|c' s' Hq Hs|q body s' Hq Hmem Hs]; subst.
  - exact (IH Hna Hs).
  - apply quote_ascii in Hq. lia.
Qed.

Lemma outside_literals_run (pre : string) :
  outside_literals pre ->
  forall st, inString st = false ->
             inString (range_string split_step pre st) = false.
Proof.
  unfold range_string.
  assert (H : forall n pre, len pre <= n -> outside_literals pre ->
                forall st, inString st = false ->
                           inString (fold_left split_step (runes pre) st) = false);
    [|exact (H _ pre (le_n _))].
  clear pre. induction n as [|n IH]; intros [|c0 t] Hlen Hout st Hin;
    cbn [len] in Hlen; try exact Hin; try lia.
  destruct (Z.lt_ge_cases (byte_val c0) 128) as [Hc|Hc].
  - inversion Hout as [|c s Hq Hs|q body s Hq Hmem Hs]; subst.
    + rewrite runes_cons_ascii by exact Hc. cbn [fold_left].
      apply IH; [lia|exact Hs|].
      apply split_step_plain; [exact Hin|].
      rewrite !rune_lit_eqb. exact Hq.
    + rewrite runes_cons_ascii, runes_app_ascii by exact Hc.
      rewrite len_append in Hlen. cbn [len] in Hlen.
      rewrite cons_app_middle, fold_left_app.
      apply IH; [lia|exact Hs|].
      rewrite split_literal by assumption. reflexivity.
  - set (s := String c0 t) in *.
    assert (Hs : s <> EmptyString) by discriminate.
    pose proof (decode_spec s Hs) as Hd.
    pose proof (decoded_width _ _ _ Hd) as Hw.
    destruct (decoded_non_ascii _ _ _ _ Hd Hc) as [Hr Hna].
    rewrite runes_unfold by exact Hs. cbn [fold_left].
    rewrite <- (take_drop_str (DecodeRuneInString s).2 s) in Hout.
    apply IH.
    + rewrite len_drop_str by lia. subst s. cbn [len] in *. lia.
    + exact (outside_literals_non_ascii _ _ Hna Hout).
    + apply split_step_plain; [exact Hin|].
      rewrite !wide_not_lit by (try exact Hr; reflexivity). reflexivity.
Qed.

Lemma split_step_cases (st : split_state) (r : rune) :
  (exists i sc, split_step st r =
                  mkSplit (statements st ++ [current st]) EmptyString i sc) \/
  (exists i sc, split_step st r =
                  mkSplit (statements st) (WriteRune (current st) r) i sc).
Proof.
  unfold split_step.
  destruct (if negb (inString st) &&
               ((r =? rune_lit "'")%Z || (r =? rune_lit "034")%Z)
            then (true, r)
            else if inString st && (r =? stringChar st)%Z
                 then (false, stringChar st)
                 else (inString st, stringChar st)) as [i sc].
  destruct ((r =? rune_lit ";")%Z && negb i); [left | right]; eauto.
Qed.

(** The statements already split off stay where they are. *)
Lemma split_statements_kept (rs : list rune) (st : split_state) :
  exists more,
    split_finish (fold_left split_step rs st) = statements st ++ more.
Proof.
  revert st. induction rs as [|r rs IH]; intros st.
  - cbn. unfold split_finish.
    destruct (0 <? len (current st)); [eauto|].
    exists []. by rewrite List.app_nil_r.
  - cbn [fold_left].
    destruct (split_step_cases st r) as [(i & sc & E)|(i & sc & E)];
      rewrite E; destruct (IH (split_step st r)) as [more Hmore];
      rewrite E in Hmore; rewrite Hmore; cbn [statements].
    + rewrite <- List.app_assoc. eauto.
    + eauto.
Qed.

Lemma EncodeRune_nonempty (r : rune) : EncodeRune r <> EmptyString.
Proof.
  unfold EncodeRune, encode3.
  repeat match goal with
         | |- context [if ?b then _ else _] => destruct b
         end; discriminate.
Qed.

Lemma append_nonempty_l (a b : string) :
  a <> EmptyString -> a +:+ b <> EmptyString.
Proof. destruct a; [congruence|discriminate]. Qed.

(** What has been written to the statement being read stays in it: the
    statement is emitted, with what follows up to the next boundary. *)
Lemma split_current_kept (rs : list rune) (st : split_state) :
  current st <> EmptyString ->
  exists after rest,
    split_finish (fold_left split_step rs st) =
      statements st ++ (current st +:+ after) :: rest.
Proof.
  revert st. induction rs as [|r rs IH]; intros st Hne.
  - cbn. unfold split_finish.
    destruct (current st) as [|a cur] eqn:E; [congruence|]. cbn.
    exists EmptyString, []. by rewrite append_nil_r.
  - cbn [fold_left].
    destruct (split_step_cases st r) as [(i & sc & E)|(i & sc & E)].
    + destruct (split_statements_kept rs (split_step st r)) as [more Hm].
      rewrite E in *. cbn [statements] in Hm. rewrite Hm.
      exists EmptyString, more.
      rewrite append_nil_r, <- List.app_assoc. reflexivity.
    + destruct (IH (split_step st r)) as (after & rest & H).
      { rewrite E. cbn [current]. apply append_nonempty_l, Hne. }
      rewrite E in *. cbn [statements current] in H. rewrite H.
      exists (EncodeRune r +:+ after), rest. unfold WriteRune.
      rewrite append_assoc. reflexivity.
Qed.

(** C9: a quoted literal that starts outside any literal ends up whole in
    one statement, whatever it contains: the splitter takes no semicolon
    inside a single- or double-quoted literal for a statement boundary.
    The statement holds the body of the literal as the loop writes it,
    rune by rune: the body itself when it is valid UTF-8, with [U+FFFD]
    for each byte that starts no valid sequence otherwise. *)
Theorem splitStatements_keeps_literal (pre : string) (q : ascii)
    (body post : string) :
  outside_literals pre -> is_quote q = true -> mem_ascii q body = false ->
  exists stmts1 before written after stmts2,
    splitStatements (pre +:+ String q (body +:+ String q post)) =
      stmts1 ++ (before +:+ String q (written +:+ String q after)) :: stmts2 /\
    written = string_of_runes (runes body) /\
    (ValidString body = true -> written = body).
Proof.
  intros Hpre Hq Hmem. unfold splitStatements.
  pose proof (quote_ascii q Hq) as Hascii.
  rewrite range_string_app_ascii by exact Hascii.
  pose proof (outside_literals_run pre Hpre split_init eq_refl) as Hout.
  set (st1 := range_string split_step pre split_init) in *.
  unfold range_string. rewrite runes_app_ascii by exact Hascii.
  change (fold_left split_step (runes body ++ rune_lit q :: runes post)
            (split_step st1 (rune_lit q)))
    with (fold_left split_step
            (rune_lit q :: runes body ++ rune_lit q :: runes post) st1).
  rewrite cons_app_middle, fold_left_app.
  rewrite (split_literal q body st1) by assumption.
  destruct (split_current_kept (runes post)
              (mkSplit (statements st1)
                       (current st1 +:+
                        String q (string_of_runes (runes body) +:+
                                  String q EmptyString))
                       false (rune_lit q))) as (after & rest & H).
  { cbn [current]. destruct (current st1); discriminate. }
  rewrite H. cbn [statements current].
  exists (statements st1), (current st1), (string_of_runes (runes body)),
    after, rest.
  split; [|split; [reflexivity|apply string_of_runes_valid]].
  rewrite !append_assoc, !append_cons, append_assoc. reflexivity.
Qed.

Lemma splitStatements_keeps_literal_witness :
  outside_literals "a TEXT DEFAULT " /\ is_quote "'" = true /\
  mem_ascii "'" (String "195" (String "169" ";y")) = false /\
  exists stmts1 before written after stmts2,
    splitStatements ("a TEXT DEFAULT " +:+
                     String "'" (String "195" (String "169" ";y") +:+
                                 String "'" "; b")) =
      stmts1 ++ (before +:+ String "'" (written +:+ String "'" after)) :: stmts2 /\
    written = string_of_runes (runes (String "195" (String "169" ";y"))) /\
    (ValidString (String "195" (String "169" ";y")) = true ->
     written = String "195" (String "169" ";y")).
Proof.
  assert (Hpre : outside_literals "a TEXT DEFAULT ")
    by (repeat (apply outside_plain; [reflexivity|]); apply outside_nil).
  split; [exact Hpre|]. split; [reflexivity|]. split; [reflexivity|].
  apply (splitStatements_keeps_literal "a TEXT DEFAULT " "'"
           (String "195" (String "169" ";y")) "; b" Hpre);
    reflexivity.
Defined.

(** The statement of the specification: one statement up to the separator
    after the literal, the semicolon of the literal kept. *)
Example splitStatements_default_literal :
  splitStatements "CREATE TABLE t (a TEXT DEFAULT 'x;y'); SELECT 1" =
    ["CREATE TABLE t (a TEXT DEFAULT 'x;y')"; " SELECT 1"].
Proof. vm_compute. reflexivity. Qed.

(** A byte that starts no valid sequence is written as [U+FFFD], the three
    bytes EF BF BD; a well-formed sequence is written as it is. *)
Example splitStatements_invalid_byte :
  splitStatements (String "a" (String "255" ";b")) =
    [String "a" (String "239" (String "191" (String "189" EmptyString))); "b"] /\
  splitStatements (String "195" (String "169" ";b")) =
    [String "195" (String "169" EmptyString); "b"].
Proof. split; vm_compute; reflexivity. Qed.

(** *** Parse *)

Lemma LastIndex_bound (s sub : string) (i : nat) :
  LastIndex s sub = Some i -> i <= len s.
Proof.
  revert i. induction s as [|c s IH]; intros i; cbn [LastIndex len].
  - destruct (HasPrefix EmptyString sub); intros [= <-]; lia.
  - destruct (LastIndex s sub) as [j|].
    + intros [= <-]. specialize (IH j eq_refl). lia.
    + destruct (HasPrefix (String c s) sub); intros [= <-]; lia.
Qed.

(** [parseCreateTable] returns, with a nil error, on every statement whose
    parentheses are in order. *)
Lemma parseCreateTable_returns (stmt : string) :
  parens_ok stmt = true ->
  exists table, parseCreateTable stmt = Returned (table, None).
Proof.
  unfold parens_ok, parseCreateTable. intros Hok.
  destruct (match FindStringSubmatch tableNameRe 2 stmt with
            | Some (_ :: ns :: name :: _) => (ns, name)
            | _ => (EmptyString, EmptyString)
            end) as [ns name].
  destruct (GoStrings.Index stmt "(") as [a|]; [|eauto].
  destruct (LastIndex stmt ")") as [b|] eqn:Eb; [|eauto].
  apply LastIndex_bound in Eb.
  unfold slice.
  replace ((a + 1 <=? b) && (b <=? len stmt)) with true; [simpl; eauto|].
  symmetry. apply andb_true_iff. split; [exact Hok|].
  apply Nat.leb_le. exact Eb.
Qed.

Lemma parseCreateIndex_error (stmt : string) : (parseCreateIndex stmt).2 = None.
Proof.
  unfold parseCreateIndex.
  destruct (match FindStringSubmatch indexTableRe 2 stmt with
            | Some (_ :: ns :: t :: _) => (ns, t)
            | _ => (EmptyString, EmptyString)
            end) as [ns t].
  reflexivity.
Qed.

Lemma parseCreateView_error (stmt : string) : (parseCreateView stmt).2 = None.
Proof.
  unfold parseCreateView.
  destruct (match FindStringSubmatch viewNameRe 2 stmt with
            | Some (_ :: ns :: n :: _) => (ns, n)
            | _ => (EmptyString, EmptyString)
            end) as [ns n].
  reflexivity.
Qed.

Lemma parse_statement_empty (schema : Schema) (stmt : string) :
  (len (TrimSpace stmt) =? 0) = true ->
  parse_statement schema stmt = Returned schema.
Proof. intros H. unfold parse_statement. rewrite H. reflexivity. Qed.

Lemma parse_statement_cases (schema : Schema) (stmt : string) :
  let s := TrimSpace stmt in
  (len s =? 0) = false -> member_ok s = true ->
  match classify s with
  | CreateTable =>
      exists table,
        is_table_of s table /\
        parse_statement schema stmt =
          Returned (mkSchema (Tables schema ++ [table]) (Indexes schema)
                             (Views schema))
  | CreateIndex =>
      parse_statement schema stmt =
        Returned (mkSchema (Tables schema)
                           (Indexes schema ++ [(parseCreateIndex s).1])
                           (Views schema))
  | CreateView =>
      parse_statement schema stmt =
        Returned (mkSchema (Tables schema) (Indexes schema)
                           (Views schema ++ [(parseCreateView s).1]))
  | Other => parse_statement schema stmt = Returned schema
  end.
Proof.
  intros s Hlen Hok. unfold parse_statement. fold s. rewrite Hlen.
  unfold member_ok, kind_is in Hok.
  destruct (classify s).
  - destruct (parseCreateTable_returns s Hok) as [table Ht].
    exists table. split; [exact Ht|]. rewrite Ht. reflexivity.
  - pose proof (parseCreateIndex_error s) as He.
    destruct (parseCreateIndex s) as [idx e]. simpl in *. subst e.
    reflexivity.
  - pose proof (parseCreateView_error s) as He.
    destruct (parseCreateView s) as [v e]. simpl in *. subst e.
    reflexivity.
  - reflexivity.
Qed.

Lemma kind_is_eq (s : string) (k0 : stmt_kind) :
  classify s = k0 -> forall k, kind_is k s = same_kind k0 k.
Proof. intros <- k. reflexivity. Qed.

Lemma trimmed_cons (x : string) (l : list string) :
  trimmed (x :: l) =
    if len (TrimSpace x) =? 0 then trimmed l else TrimSpace x :: trimmed l.
Proof.
  unfold trimmed. simpl. destruct (len (TrimSpace x) =? 0); reflexivity.
Qed.

(** The loop of [Parse]: each statement of a recognized kind adds one
    entity, in order; the others add nothing. *)
Lemma range_fold_parse_statement (l : list string) (acc : Schema) :
  forallb member_ok (trimmed l) = true ->
  exists tables,
    range_fold parse_statement l acc =
      Returned
        (mkSchema
           (Tables acc ++ tables)
           (Indexes acc ++ map (fun s => (parseCreateIndex s).1)
                               (List.filter (kind_is CreateIndex) (trimmed l)))
           (Views acc ++ map (fun s => (parseCreateView s).1)
                             (List.filter (kind_is CreateView) (trimmed l)))) /\
    Forall2 is_table_of (List.filter (kind_is CreateTable) (trimmed l)) tables.
Proof.
  revert acc. induction l as [|x l IH]; intros acc Hok.
  - exists []. simpl. rewrite !List.app_nil_r. destruct acc. split; [done|].
    constructor.
  - rewrite trimmed_cons in *.
    cbn [range_fold].
    destruct (len (TrimSpace x) =? 0) eqn:Hlen.
    + rewrite parse_statement_empty by exact Hlen. apply IH, Hok.
    + cbn [forallb] in Hok. apply andb_true_iff in Hok as [Hx Hok].
      pose proof (parse_statement_cases acc x Hlen Hx) as Hstep.
      cbv zeta in Hstep. cbn [List.filter].
      destruct (classify (TrimSpace x)) eqn:Hk;
        rewrite !(kind_is_eq _ _ Hk); cbn [same_kind map].
      * destruct Hstep as (table & Ht & ->). cbn [Go.bind].
        destruct (IH (mkSchema (Tables acc ++ [table]) (Indexes acc)
                               (Views acc)) Hok) as (tables & -> & HT).
        exists (table :: tables). cbn [Tables Indexes Views].
        rewrite <- List.app_assoc. split; [reflexivity|].
        constructor; assumption.
      * rewrite Hstep. cbn [Go.bind].
        destruct (IH (mkSchema (Tables acc)
                               (Indexes acc ++ [(parseCreateIndex (TrimSpace x)).1])
                               (Views acc)) Hok) as (tables & -> & HT).
        exists tables. cbn [Tables Indexes Views].
        rewrite <- List.app_assoc. split; [reflexivity|assumption].
      * rewrite Hstep. cbn [Go.bind].
        destruct (IH (mkSchema (Tables acc) (Indexes acc)
                               (Views acc ++ [(parseCreateView (TrimSpace x)).1]))
                     Hok) as (tables & -> & HT).
        exists tables. cbn [Tables Indexes Views].
        rewrite <- List.app_assoc. split; [reflexivity|assumption].
      * rewrite Hstep. cbn [Go.bind]. apply IH, Hok.
Qed.



(** The statements of the sample text and what [Parse] makes of them. *)
Example Parse_mixed_statements :
  statements_of mixed_statements =
    ["CREATE TABLE t"; "GRANT ALL ON t TO u"; "CREATE INDEX i ON t (a)"] /\
  Parse mixed_statements =
    Returned
      ({| Tables := [ mkTable "t" EmptyString [] None [] [] [] ];
          Indexes := [ mkIndex "i" "t" EmptyString ["a"] false false
                               EmptyString ];
          Views := [] |}, None).
Proof. split; vm_compute; reflexivity. Qed.


(** Where the parentheses of a CREATE TABLE statement are out of order the
    slice expression of [parseCreateTable] panics, and [Parse] with it. *)
Remark Parse_panics_on_reversed_parentheses :
  Parse "CREATE TABLE t )(" = Panicked "slice bounds out of range".
Proof. vm_compute. reflexivity. Qed.

(** *** Primary keys *)

(** C5 at the statement of the first scenario: the parser gives one table
    [users] with the two columns [id] and [email], [email] unique and not
    nullable, as the claim has it; but the inline PRIMARY KEY only sets the
    primary-key flag of [id] and leaves the table without a PrimaryKey,
    where the claim has the single column [id]. *)
Theorem Parse_users_scenario :
  exists table id email,
    Parse users_statement =
      Returned ({| Tables := [table]; Indexes := []; Views := [] |}, None) /\
    Table_Name table = "users" /\
    Table_Columns table = [id; email] /\
    Table_PrimaryKey table = None /\
    Column_Name id = "id" /\ Column_IsPrimaryKey id = true /\
    Column_Name email = "email" /\
    Column_IsUnique email = true /\ Column_Nullable email = false.
Proof.
  eexists _, _, _. split; [vm_compute; reflexivity|].
  repeat split.
Qed.

(** The table parsed from the statement has no PrimaryKey, so its
    PrimaryKey is not the single column [id]. *)
Lemma Parse_users_no_PrimaryKey :
  ~ exists schema err table pk,
      Parse users_statement = Returned (schema, err) /\
      Tables schema = [table] /\
      Table_PrimaryKey table = Some pk /\ PrimaryKey_Columns pk = ["id"].
Proof.
  intros (schema & err & table & pk & Hp & Ht & Hpk & _).
  vm_compute in Hp. injection Hp as <- _.
  simpl in Ht. injection Ht as <-. discriminate Hpk.
Qed.

(** The sibling paths: a table-level PRIMARY KEY member and a named
    constraint give the table its PrimaryKey. *)
Remark Parse_users_table_level_PrimaryKey :
  exists table named,
    Parse "CREATE TABLE users (id SERIAL, email VARCHAR(255) NOT NULL UNIQUE, PRIMARY KEY (id))" =
      Returned ({| Tables := [table]; Indexes := []; Views := [] |}, None) /\
    Table_PrimaryKey table = Some (mkPrimaryKey EmptyString ["id"]) /\
    Parse "CREATE TABLE users (id SERIAL, email VARCHAR(255) NOT NULL UNIQUE, CONSTRAINT users_pk PRIMARY KEY (id))" =
      Returned ({| Tables := [named]; Indexes := []; Views := [] |}, None) /\
    Table_PrimaryKey named = Some (mkPrimaryKey "users_pk" ["id"]).
Proof.
  eexists _, _. split; [vm_compute; reflexivity|].
  split; [reflexivity|]. split; [vm_compute; reflexivity|]. reflexivity.
Qed.

(** *** Nullable columns *)

(** A column is nullable unless its definition contains NOT NULL or
    PRIMARY KEY, in any case of the letters. *)
Lemma parseColumnDef_nullable (def : string) (col : Column) :
  parseColumnDef def = Some col ->
  Column_Nullable col =
    negb (Contains (ToUpper def) "NOT NULL" ||
          Contains (ToUpper def) "PRIMARY KEY").
Proof.
  unfold parseColumnDef.
  destruct (Fields def) as [|name [|type rest]]; try discriminate.
  intros [= <-]. cbn [Column_Nullable].
  destruct (Contains (ToUpper def) "NOT NULL"),
           (Contains (ToUpper def) "PRIMARY KEY"); reflexivity.
Qed.

(** A table-level PRIMARY KEY member leaves the columns read so far as they
    are: their nullable flags are not revisited. *)
Lemma primary_key_member_keeps_columns (table : Table) (def : string) :
  HasPrefix (ToUpper (TrimSpace def)) "PRIMARY KEY" = true ->
  Table_Columns (table_member table def) = Table_Columns table.
Proof.
  intros H. unfold table_member.
  destruct (len (TrimSpace def) =? 0); [reflexivity|].
  rewrite H. reflexivity.
Qed.

(** C6 at a table-level PRIMARY KEY: the column [id] is in the primary key
    of the table and is still nullable. *)
Lemma Parse_table_level_primary_key_nullable :
  Parse "CREATE TABLE t (id INT, PRIMARY KEY (id))" =
    Returned
      ({| Tables :=
            [ {| Table_Name := "t"; Table_Schema := EmptyString;
                 Table_Columns :=
                   [ mkColumn "id" "INT" true None false false false
                              EmptyString ];
                 Table_PrimaryKey := Some (mkPrimaryKey EmptyString ["id"]);
                 Table_ForeignKeys := []; Table_Indexes := [];
                 Table_Constraints := [] |} ];
          Indexes := []; Views := [] |}, None).
Proof. vm_compute. reflexivity. Qed.

(** The sibling path: an inline PRIMARY KEY makes the column not
    nullable. *)
Remark Parse_inline_primary_key_not_nullable :
  Parse "CREATE TABLE t (id INT PRIMARY KEY)" =
    Returned
      ({| Tables :=
            [ {| Table_Name := "t"; Table_Schema := EmptyString;
                 Table_Columns :=
                   [ mkColumn "id" "INT" false None true false false
                              EmptyString ];
                 Table_PrimaryKey := None;
                 Table_ForeignKeys := []; Table_Indexes := [];
                 Table_Constraints := [] |} ];
          Indexes := []; Views := [] |}, None).
Proof. vm_compute. reflexivity. Qed.

(** *** Foreign keys *)

Lemma ToUpper_cons (c : ascii) (s : string) :
  ToUpper (String c s) = String (upper_ascii c) (ToUpper s).
Proof. reflexivity. Qed.

Lemma HasPrefix_empty (s : string) : HasPrefix s EmptyString = true.
Proof. destruct s; reflexivity. Qed.

(** A case-insensitive literal matches exactly the texts that start with
    it, up to case, and consumes as many characters as it has. *)
Lemma exec_lit_i {A : Type} (w s : string) (c : caps)
    (k : string -> caps -> option A) :
  exec (lit_i w) s c k =
    if HasPrefix (ToUpper s) (ToUpper w) then k (drop_str (len w) s) c
    else None.
Proof.
  revert s k. induction w as [|a w IH]; intros s k;
    [destruct s; reflexivity|].
  assert (Hhead : forall k' : string -> caps -> option A,
            exec (chr_i a) s c k' =
              match s with
              | String b s' =>
                  if eqb_ascii (upper_ascii b) (upper_ascii a) then k' s' c
                  else None
              | EmptyString => None
              end) by reflexivity.
  destruct w as [|a' w].
  - cbn [lit_i]. rewrite Hhead. destruct s as [|b s]; [reflexivity|].
    rewrite !ToUpper_cons. cbn [HasPrefix ToUpper len drop_str].
    rewrite HasPrefix_empty, andb_true_r. reflexivity.
  - change (lit_i (String a (String a' w)))
      with (Cat (chr_i a) (lit_i (String a' w))).
    cbn [exec]. rewrite Hhead. destruct s as [|b s]; [reflexivity|].
    rewrite (ToUpper_cons b), (ToUpper_cons a). cbn [HasPrefix].
    destruct (eqb_ascii (upper_ascii b) (upper_ascii a)); [|reflexivity].
    rewrite IH. reflexivity.
Qed.

(** A pattern that starts with a case-insensitive literal finds nothing in
    a text that does not contain the literal, up to case. *)
Lemma find_from_literal_absent (w : string) (rest : regex) (s : string)
    (start : nat) :
  Contains (ToUpper s) (ToUpper w) = false ->
  find_from (Cat (lit_i w) rest) start s = None.
Proof.
  revert start. induction s as [|b s IH]; intros start Hc.
  - cbn [find_from]. unfold match_here. cbn [exec]. rewrite exec_lit_i.
    change (ToUpper EmptyString) with EmptyString in *.
    cbn [Contains] in Hc. apply orb_false_iff in Hc as [-> _].
    reflexivity.
  - rewrite ToUpper_cons in Hc. cbn [Contains] in Hc.
    apply orb_false_iff in Hc as [Hp Hc].
    cbn [find_from]. unfold match_here. cbn [exec]. rewrite exec_lit_i.
    rewrite ToUpper_cons, Hp. apply IH, Hc.
Qed.

Lemma refRe_absent (def : string) :
  Contains (ToUpper def) "REFERENCES" = false ->
  FindStringSubmatch refRe 3 def = None.
Proof.
  intros Hc. unfold FindStringSubmatch, find.
  change refRe with
    (Cat (lit_i "REFERENCES")
         (cat_all ([s1] ++ qualified_name 1 ++
                   [s0; chr "("; Cap 3 (plus not_rparen); chr ")"]))).
  rewrite find_from_literal_absent; [reflexivity | exact Hc].
Qed.

Lemma split_go_length (cur s : string) :
  length (split_go "," cur s) = S (commas s).
Proof.
  revert cur. induction s as [|c s IH]; intros cur; [reflexivity|].
  cbn [split_go commas]. destruct (eqb_ascii c ","); cbn [length];
    rewrite IH; reflexivity.
Qed.

Lemma column_names_length (cols : string) :
  length (column_names cols) = S (commas cols).
Proof.
  unfold column_names, Split. rewrite length_map. apply split_go_length.
Qed.

(** C8, as the code has it: a foreign key takes its local columns from the
    FOREIGN KEY (...) group and its referenced columns from the
    REFERENCES ... (...) group, each on its own: the local list has one
    entry per comma-separated entry of the first group, the referenced list
    one per entry of the second, and either is empty when its pattern does
    not match.  The two lengths agree only where the text lists as many
    names on both sides.  Where the text has no REFERENCES, the referenced
    columns, table and namespace are empty. *)
Theorem parseForeignKey_column_counts (def : string) :
  exists fk,
    parseForeignKeyConstraint def = Some fk /\
    length (ForeignKey_Columns fk) = group_arity localRe 1 1 def /\
    length (ForeignKey_ReferencedCols fk) = group_arity refRe 3 3 def /\
    (Contains (ToUpper def) "REFERENCES" = false ->
     ForeignKey_ReferencedCols fk = [] /\
     ForeignKey_ReferencedTable fk = EmptyString /\
     ForeignKey_ReferencedSchema fk = EmptyString).
Proof.
  pose proof (refRe_absent def) as Habs. revert Habs.
  unfold parseForeignKeyConstraint, group_arity.
  unfold FindStringSubmatch.
  destruct (find localRe def) as [fl|], (find refRe def) as [fr|];
    cbn [seq map nth]; intros Habs;
    (eexists; split; [reflexivity|]); cbn;
    rewrite ?column_names_length; repeat split;
    try reflexivity;
    match goal with
    | Hc : Contains _ _ = false |- _ => specialize (Habs Hc); discriminate
    end.
Qed.

Lemma parseForeignKey_column_counts_witness :
  Contains (ToUpper "FOREIGN KEY (a, b)") "REFERENCES" = false /\
  exists fk,
    parseForeignKeyConstraint "FOREIGN KEY (a, b)" = Some fk /\
    length (ForeignKey_Columns fk) = 2 /\
    ForeignKey_ReferencedCols fk = [] /\
    ForeignKey_ReferencedTable fk = EmptyString.
Proof.
  split; [reflexivity|].
  destruct (parseForeignKey_column_counts "FOREIGN KEY (a, b)")
    as (fk & Hfk & Hl & _ & Hr).
  destruct (Hr eq_refl) as (Hc & Ht & _).
  exists fk. repeat split; [exact Hfk | | exact Hc | exact Ht].
  rewrite Hl. vm_compute. reflexivity.
Defined.

(** C8 as stated fails: a FOREIGN KEY member with two local columns and
    one referenced column, and one without REFERENCES, give foreign keys
    whose two lists differ in length. *)
Lemma Parse_foreign_key_arity_mismatch :
  exists table fk1 fk2,
    Parse foreign_keys_statement =
      Returned ({| Tables := [table]; Indexes := []; Views := [] |}, None) /\
    Table_ForeignKeys table = [fk1; fk2] /\
    ForeignKey_Columns fk1 = ["a"; "b"] /\
    ForeignKey_ReferencedCols fk1 = ["x"] /\
    ForeignKey_Columns fk2 = ["a"] /\
    ForeignKey_ReferencedCols fk2 = [] /\
    length (ForeignKey_Columns fk1) <> length (ForeignKey_ReferencedCols fk1) /\
    length (ForeignKey_Columns fk2) <> length (ForeignKey_ReferencedCols fk2).
Proof.
  eexists _, _, _. split; [vm_compute; reflexivity|].
  repeat split; simpl; discriminate.
Qed.

End ParserFacts.

(** ** The two splitters *)
Module SplitterFacts.
Import GoStrings Utf8 Go Schema Props RuneProps MoreProps ParserFacts.
Local Open Scope list_scope.

Lemma Join_snoc_nonempty (l : list string) (x sep : string) :
  l <> [] -> Join (l ++ [x]) sep = Join l sep +:+ sep +:+ x.
Proof.
  induction l as [|a l IH]; intros Hne; [congruence|].
  destruct l as [|b l]; [reflexivity|].
  change (Join ((a :: b :: l) ++ [x]) sep)
    with (a +:+ sep +:+ Join ((b :: l) ++ [x]) sep).
  rewrite IH by discriminate.
  change (Join (a :: b :: l) sep) with (a +:+ sep +:+ Join (b :: l) sep).
  rewrite !append_assoc. reflexivity.
Qed.

Lemma Join_snoc_append (l : list string) (x y sep : string) :
  Join (l ++ [x +:+ y]) sep = Join (l ++ [x]) sep +:+ y.
Proof.
  destruct l as [|a l]; [reflexivity|].
  rewrite !Join_snoc_nonempty by discriminate.
  rewrite !append_assoc. reflexivity.
Qed.

Lemma snoc_nonempty {A : Type} (l : list A) (x : A) : l ++ [x] <> [].
Proof. destruct l; discriminate. Qed.

(** *** splitStatements *)

(** A step either ends a statement, at a semicolon, or writes the rune. *)
Lemma split_step_semicolon_or_write (st : split_state) (r : rune) :
  (r = rune_lit ";" /\
   exists i sc, split_step st r =
                  mkSplit (statements st ++ [current st]) EmptyString i sc) \/
  (exists i sc, split_step st r =
                  mkSplit (statements st) (WriteRune (current st) r) i sc).
Proof.
  unfold split_step.
  destruct (if negb (inString st) &&
               ((r =? rune_lit "'")%Z || (r =? rune_lit "034")%Z)
            then (true, r)
            else if inString st && (r =? stringChar st)%Z
                 then (false, stringChar st)
                 else (inString st, stringChar st)) as [i sc].
  destruct (r =? rune_lit ";")%Z eqn:E; [|right; eauto].
  apply Z.eqb_eq in E.
  destruct (negb i); [left | right]; eauto.
Qed.

Lemma split_step_pieces (st : split_state) (r : rune) :
  Join (split_pieces (split_step st r)) ";" =
    Join (split_pieces st) ";" +:+ EncodeRune r.
Proof.
  unfold split_pieces.
  destruct (split_step_semicolon_or_write st r)
    as [(-> & i & sc & ->)|(i & sc & ->)]; cbn [statements current].
  - rewrite Join_snoc_nonempty by apply snoc_nonempty.
    rewrite append_nil_r, EncodeRune_ascii by reflexivity. reflexivity.
  - apply Join_snoc_append.
Qed.

Lemma split_run_pieces (rs : list rune) (st : split_state) :
  Join (split_pieces (fold_left split_step rs st)) ";" =
    Join (split_pieces st) ";" +:+ string_of_runes rs.
Proof.
  revert st. induction rs as [|r rs IH]; intros st.
  - cbn. rewrite append_nil_r. reflexivity.
  - cbn [fold_left string_of_runes].
    rewrite IH, split_step_pieces, append_assoc. reflexivity.
Qed.

(** The splitter drops nothing but the separators of what it reads: the
    statements joined by semicolons are the runes of the text written
    back, less one final semicolon when the text ends with a separator. *)
Lemma splitStatements_join_runes (sql : string) :
  Join (splitStatements sql) ";" = string_of_runes (runes sql) \/
  Join (splitStatements sql) ";" +:+ ";" = string_of_runes (runes sql).
Proof.
  pose proof (split_run_pieces (runes sql) split_init) as H.
  unfold splitStatements, split_finish, range_string.
  set (st := fold_left split_step (runes sql) split_init) in *.
  change (Join (split_pieces split_init) ";") with EmptyString in H.
  rewrite append_nil_l in H. unfold split_pieces in H.
  destruct (current st) as [|a cur] eqn:Ec; cbn [len Nat.ltb Nat.leb].
  - destruct (statements st) as [|x l] eqn:Es.
    + left. exact H.
    + right. rewrite Join_snoc_nonempty in H by discriminate.
      rewrite append_nil_r in H. exact H.
  - left. exact H.
Qed.

(** On a text that is valid UTF-8 the splitter drops nothing but the
    separators: the statements joined by semicolons are the text again,
    less one final semicolon when the text ends with a separator. *)
Theorem splitStatements_join (sql : string) :
  ValidString sql = true ->
  Join (splitStatements sql) ";" = sql \/
  Join (splitStatements sql) ";" +:+ ";" = sql.
Proof.
  intros Hv. rewrite <- (string_of_runes_valid sql Hv) at 2 4.
  apply splitStatements_join_runes.
Qed.

Lemma splitStatements_join_witness :
  ValidString (String "195" (String "169" "t'e;'; x;")) = true /\
  (Join (splitStatements (String "195" (String "169" "t'e;'; x;"))) ";" =
     String "195" (String "169" "t'e;'; x;") \/
   Join (splitStatements (String "195" (String "169" "t'e;'; x;"))) ";" +:+
     ";" = String "195" (String "169" "t'e;'; x;")).
Proof.
  split; [reflexivity|].
  apply (splitStatements_join (String "195" (String "169" "t'e;'; x;"))).
  reflexivity.
Defined.

Lemma split_step_ahead (before : list string) (st st' : split_state)
    (r : rune) :
  split_ahead before st st' ->
  split_ahead before (split_step st r) (split_step st' r).
Proof.
  intros (Hs & Hc & Hi & Hq). unfold split_step.
  rewrite Hs, Hc, Hi.
  destruct (inString st') eqn:Ei.
  - rewrite (Hq Hi). cbn [negb andb].
    destruct (r =? stringChar st')%Z; cbn [negb andb];
      rewrite ?andb_false_r, ?andb_true_r;
      destruct (r =? rune_lit ";")%Z; cbn [negb andb];
      repeat split; cbn; rewrite ?List.app_assoc; auto; discriminate.
  - cbn [negb andb].
    destruct ((r =? rune_lit "'")%Z || (r =? rune_lit "034")%Z);
      cbn [negb andb];
      rewrite ?andb_false_r, ?andb_true_r;
      destruct (r =? rune_lit ";")%Z; cbn [negb andb];
      repeat split; cbn; rewrite ?List.app_assoc; auto; discriminate.
Qed.

Lemma split_run_ahead (rs : list rune) (before : list string)
    (st st' : split_state) :
  split_ahead before st st' ->
  split_ahead before (fold_left split_step rs st)
              (fold_left split_step rs st').
Proof.
  revert st st'. induction rs as [|r rs IH]; intros st st' H; [exact H|].
  cbn [fold_left]. apply IH, split_step_ahead, H.
Qed.

Lemma split_finish_ahead (before : list string) (st st' : split_state) :
  split_ahead before st st' ->
  split_finish st = before ++ split_finish st'.
Proof.
  intros (Hs & Hc & _). unfold split_finish. rewrite Hs, Hc.
  destruct (0 <? len (current st')); rewrite ?List.app_assoc; reflexivity.
Qed.

(** A semicolon outside any literal cuts the text in two parts that are
    split on their own: the statements of the whole are those of the part
    up to the semicolon followed by those of the rest. *)
Theorem splitStatements_at_semicolon (pre post : string) :
  outside_literals pre ->
  splitStatements (pre +:+ String ";" post) =
    splitStatements (pre +:+ ";") ++ splitStatements post.
Proof.
  intros Hpre. unfold splitStatements.
  rewrite !range_string_app_ascii by reflexivity.
  pose proof (outside_literals_run pre Hpre split_init eq_refl) as Hout.
  set (st1 := range_string split_step pre split_init) in *.
  change (range_string split_step EmptyString (split_step st1 (rune_lit ";")))
    with (split_step st1 (rune_lit ";")).
  set (st2 := split_step st1 (rune_lit ";")).
  assert (H2 : split_ahead (split_finish st2) st2 split_init).
  { subst st2. unfold split_step. rewrite Hout.
    cbn. unfold split_ahead. cbn. rewrite List.app_nil_r.
    repeat split. discriminate. }
  unfold range_string. apply split_finish_ahead, split_run_ahead, H2.
Qed.

Lemma splitStatements_at_semicolon_witness :
  outside_literals "a 'x;y' b" /\
  splitStatements ("a 'x;y' b" +:+ String ";" " c;d") =
    splitStatements ("a 'x;y' b" +:+ ";") ++ splitStatements " c;d".
Proof.
  assert (H : outside_literals "a 'x;y' b").
  { apply outside_plain; [reflexivity|]. apply outside_plain; [reflexivity|].
    apply (outside_literal "'" "x;y" " b"); [reflexivity|reflexivity|].
    repeat (apply outside_plain; [reflexivity|]). apply outside_nil. }
  split; [exact H|].
  apply (splitStatements_at_semicolon "a 'x;y' b" " c;d" H).
Defined.

(** *** splitColumnDefs *)

Lemma splitColumnDefs_finish (body : string) :
  splitColumnDefs body =
    defs_finish (range_string defs_step body (mkDefs [] EmptyString 0%Z)).
Proof. reflexivity. Qed.

(** A step either ends a definition, at a comma with no parenthesis open,
    or writes the rune. *)
Lemma defs_step_comma_or_write (st : defs_state) (r : rune) :
  (r = rune_lit "," /\ parenDepth st = 0%Z /\
   defs_step st r =
     mkDefs (defs st ++ [defs_current st]) EmptyString (parenDepth st)) \/
  (exists d, defs_step st r =
               mkDefs (defs st) (WriteRune (defs_current st) r) d).
Proof.
  unfold defs_step.
  destruct (r =? rune_lit "(")%Z; [right; eauto|].
  destruct (r =? rune_lit ")")%Z; [right; eauto|].
  destruct (r =? rune_lit ",")%Z eqn:E; [|right; eauto].
  apply Z.eqb_eq in E.
  destruct (parenDepth st =? 0)%Z eqn:Ed; [left|right; eauto].
  apply Z.eqb_eq in Ed. auto.
Qed.

Lemma defs_step_pieces (st : defs_state) (r : rune) :
  Join (defs_pieces (defs_step st r)) "," =
    Join (defs_pieces st) "," +:+ EncodeRune r.
Proof.
  unfold defs_pieces.
  destruct (defs_step_comma_or_write st r) as [(-> & _ & ->)|(d & ->)];
    cbn [defs defs_current].
  - rewrite Join_snoc_nonempty by apply snoc_nonempty.
    rewrite append_nil_r, EncodeRune_ascii by reflexivity. reflexivity.
  - apply Join_snoc_append.
Qed.

Lemma defs_run_pieces (rs : list rune) (st : defs_state) :
  Join (defs_pieces (fold_left defs_step rs st)) "," =
    Join (defs_pieces st) "," +:+ string_of_runes rs.
Proof.
  revert st. induction rs as [|r rs IH]; intros st.
  - cbn. rewrite append_nil_r. reflexivity.
  - cbn [fold_left string_of_runes].
    rewrite IH, defs_step_pieces, append_assoc. reflexivity.
Qed.

(** The member splitter drops nothing but the commas it splits at of what
    it reads: the definitions joined by commas are the runes of the body
    written back, less one final comma when the body ends with a
    separator. *)
Lemma splitColumnDefs_join_runes (body : string) :
  Join (splitColumnDefs body) "," = string_of_runes (runes body) \/
  Join (splitColumnDefs body) "," +:+ "," = string_of_runes (runes body).
Proof.
  pose proof (defs_run_pieces (runes body) (mkDefs [] EmptyString 0%Z)) as H.
  rewrite splitColumnDefs_finish. unfold defs_finish, range_string.
  set (st := fold_left defs_step (runes body) (mkDefs [] EmptyString 0%Z))
    in *.
  change (Join (defs_pieces (mkDefs [] EmptyString 0%Z)) ",")
    with EmptyString in H.
  rewrite append_nil_l in H. unfold defs_pieces in H.
  destruct (defs_current st) as [|a cur] eqn:Ec; cbn [len Nat.ltb Nat.leb].
  - destruct (defs st) as [|x l] eqn:Es.
    + left. exact H.
    + right. rewrite Join_snoc_nonempty in H by discriminate.
      rewrite append_nil_r in H. exact H.
  - left. exact H.
Qed.

(** On a body that is valid UTF-8 the member splitter drops nothing but
    the commas it splits at: the definitions joined by commas are the body
    again, less one final comma when the body ends with a separator. *)
Theorem splitColumnDefs_join (body : string) :
  ValidString body = true ->
  Join (splitColumnDefs body) "," = body \/
  Join (splitColumnDefs body) "," +:+ "," = body.
Proof.
  intros Hv. rewrite <- (string_of_runes_valid body Hv) at 2 4.
  apply splitColumnDefs_join_runes.
Qed.

Lemma splitColumnDefs_join_witness :
  ValidString (String "195" (String "169" " INT, p NUMERIC(10,2),")) = true /\
  (Join (splitColumnDefs (String "195" (String "169" " INT, p NUMERIC(10,2),")))
        "," = String "195" (String "169" " INT, p NUMERIC(10,2),") \/
   Join (splitColumnDefs (String "195" (String "169" " INT, p NUMERIC(10,2),")))
        "," +:+ "," = String "195" (String "169" " INT, p NUMERIC(10,2),")).
Proof.
  split; [reflexivity|].
  apply (splitColumnDefs_join
           (String "195" (String "169" " INT, p NUMERIC(10,2),"))).
  reflexivity.
Defined.

Lemma paren_scan_non_ascii (chunk s : string) (n : nat) :
  non_ascii chunk = true -> paren_scan n (chunk +:+ s) = paren_scan n s.
Proof.
  induction chunk as [|c chunk IH]; intros Hna; [reflexivity|].
  cbn [non_ascii] in Hna. apply andb_true_iff in Hna as [Hc Hna].
  apply Z.leb_le in Hc. rewrite append_cons. cbn [paren_scan].
  rewrite !non_ascii_neq by (try exact Hc; reflexivity). exact (IH Hna).
Qed.

(** The step on a rune outside ASCII: it is written, nothing else. *)
Lemma defs_step_wide (st : defs_state) (r : rune) :
  (128 <= r)%Z ->
  defs_step st r =
    mkDefs (defs st) (WriteRune (defs_current st) r) (parenDepth st).
Proof.
  intros Hr. unfold defs_step.
  rewrite !wide_not_lit by (try exact Hr; reflexivity). reflexivity.
Qed.

(** Within a parenthesis the depth is at least one, so that nothing is
    split off: the text is written to the definition being read. *)
Lemma defs_run_inside (inner : string) (n m : nat) (base : Z)
    (st : defs_state) :
  (0 <= base)%Z -> paren_scan n inner = Some m ->
  parenDepth st = (base + 1 + Z.of_nat n)%Z ->
  range_string defs_step inner st =
    mkDefs (defs st) (defs_current st +:+ string_of_runes (runes inner))
           (base + 1 + Z.of_nat m)%Z.
Proof.
  intros Hbase. unfold range_string. revert n st.
  induction inner as [|c inner Hc IH|chunk inner r _ Hna Hr Hrunes IH]
    using rune_ind; intros n st Hscan Hd.
  - cbn in Hscan. injection Hscan as <-. cbn.
    rewrite append_nil_r, <- Hd. destruct st; reflexivity.
  - cbn [paren_scan] in Hscan. rewrite runes_cons_ascii by exact Hc.
    cbn [fold_left string_of_runes]. unfold defs_step, WriteRune.
    rewrite !rune_lit_eqb, EncodeRune_ascii by exact Hc.
    destruct (eqb_ascii c "(").
    + rewrite (IH (S n)); [|exact Hscan|cbn; lia].
      cbn. rewrite append_assoc. reflexivity.
    + destruct (eqb_ascii c ")").
      * destruct n as [|n']; [discriminate|].
        rewrite (IH n'); [|exact Hscan|cbn; lia].
        cbn. rewrite append_assoc. reflexivity.
      * replace (parenDepth st =? 0)%Z with false
          by (symmetry; apply Z.eqb_neq; lia).
        assert (E : (if eqb_ascii c ","
                     then mkDefs (defs st)
                                 (defs_current st +:+ String c EmptyString)
                                 (parenDepth st)
                     else mkDefs (defs st)
                                 (defs_current st +:+ String c EmptyString)
                                 (parenDepth st)) =
                    mkDefs (defs st)
                           (defs_current st +:+ String c EmptyString)
                           (parenDepth st))
          by (destruct (eqb_ascii c ","); reflexivity).
        rewrite E. rewrite (IH n); [|exact Hscan|cbn; lia].
        cbn. rewrite append_assoc. reflexivity.
  - rewrite paren_scan_non_ascii in Hscan by exact Hna.
    rewrite Hrunes. cbn [fold_left string_of_runes].
    rewrite defs_step_wide by exact Hr.
    rewrite (IH n); [|exact Hscan|exact Hd].
    cbn. unfold WriteRune. rewrite append_assoc. reflexivity.
Qed.

(** Before the parenthesis: the depth follows the parentheses read. *)
Lemma defs_run_depth (pre : string) (n k : nat) (st : defs_state) :
  paren_scan n pre = Some k -> parenDepth st = Z.of_nat n ->
  parenDepth (range_string defs_step pre st) = Z.of_nat k.
Proof.
  unfold range_string. revert n st.
  induction pre as [|c pre Hc IH|chunk pre r _ Hna Hr Hrunes IH]
    using rune_ind; intros n st Hscan Hd.
  - cbn in Hscan. injection Hscan as <-. exact Hd.
  - cbn [paren_scan] in Hscan. rewrite runes_cons_ascii by exact Hc.
    cbn [fold_left]. unfold defs_step. rewrite !rune_lit_eqb.
    destruct (eqb_ascii c "(").
    + apply (IH (S n)); [exact Hscan|cbn; lia].
    + destruct (eqb_ascii c ")").
      * destruct n as [|n']; [discriminate|].
        apply (IH n'); [exact Hscan|cbn; lia].
      * apply (IH n); [exact Hscan|].
        destruct (eqb_ascii c ","), (parenDepth st =? 0)%Z; exact Hd.
  - rewrite paren_scan_non_ascii in Hscan by exact Hna.
    rewrite Hrunes. cbn [fold_left]. rewrite defs_step_wide by exact Hr.
    apply (IH n); [exact Hscan|exact Hd].
Qed.

Lemma defs_kept (rs : list rune) (st : defs_state) :
  exists more,
    defs_finish (fold_left defs_step rs st) = defs st ++ more.
Proof.
  revert st. induction rs as [|r rs IH]; intros st.
  - cbn. unfold defs_finish.
    destruct (0 <? len (defs_current st)); [eauto|].
    exists []. by rewrite List.app_nil_r.
  - cbn [fold_left].
    destruct (IH (defs_step st r)) as [more Hmore]. rewrite Hmore.
    destruct (defs_step_comma_or_write st r) as [(_ & _ & ->)|(d & ->)];
      cbn [defs].
    + rewrite <- List.app_assoc. eauto.
    + eauto.
Qed.

Lemma defs_current_kept (rs : list rune) (st : defs_state) :
  defs_current st <> EmptyString ->
  exists after rest,
    defs_finish (fold_left defs_step rs st) =
      defs st ++ (defs_current st +:+ after) :: rest.
Proof.
  revert st. induction rs as [|r rs IH]; intros st Hne.
  - cbn. unfold defs_finish.
    destruct (defs_current st) as [|a cur] eqn:E; [congruence|]. cbn.
    exists EmptyString, []. by rewrite append_nil_r.
  - cbn [fold_left].
    destruct (defs_step_comma_or_write st r) as [(_ & _ & E)|(d & E)].
    + destruct (defs_kept rs (defs_step st r)) as [more Hm].
      rewrite E in *. cbn [defs] in Hm. rewrite Hm.
      exists EmptyString, more.
      rewrite append_nil_r, <- List.app_assoc. reflexivity.
    + destruct (IH (defs_step st r)) as (after & rest & H).
      { rewrite E. cbn [defs_current]. apply append_nonempty_l, Hne. }
      rewrite E in *. cbn [defs defs_current] in H. rewrite H.
      exists (EncodeRune r +:+ after), rest. unfold WriteRune.
      rewrite append_assoc. reflexivity.
Qed.

(** A parenthesized group whose own parentheses are matched, after a text
    that closes no parenthesis it did not open, stays whole in one member
    definition: no comma inside it splits (the type NUMERIC(10,2), a CHECK
    expression).  The definition holds the group as the loop writes it,
    rune by rune: the text itself when it is valid UTF-8, with [U+FFFD]
    for each byte that starts no valid sequence otherwise. *)
Theorem splitColumnDefs_keeps_group (pre inner post : string) (k : nat) :
  paren_scan 0 pre = Some k -> paren_scan 0 inner = Some 0 ->
  exists defs1 before written after defs2,
    splitColumnDefs (pre +:+ String "(" (inner +:+ String ")" post)) =
      defs1 ++ (before +:+ String "(" (written +:+ String ")" after)) :: defs2 /\
    written = string_of_runes (runes inner) /\
    (ValidString inner = true -> written = inner).
Proof.
  intros Hpre Hin. rewrite splitColumnDefs_finish.
  rewrite range_string_app_ascii by reflexivity.
  set (st1 := range_string defs_step pre (mkDefs [] EmptyString 0%Z)).
  assert (Hd : parenDepth st1 = Z.of_nat k)
    by (apply (defs_run_depth pre 0 k); [exact Hpre|reflexivity]).
  rewrite range_string_app_ascii by reflexivity.
  assert (E1 : defs_step st1 (rune_lit "(") =
               mkDefs (defs st1) (defs_current st1 +:+ "(")
                      (parenDepth st1 + 1)%Z) by reflexivity.
  rewrite E1.
  rewrite (defs_run_inside inner 0 0 (Z.of_nat k));
    [|lia|exact Hin|cbn; lia].
  cbn [defs defs_current].
  match goal with
  | |- context [defs_step ?st (rune_lit ")")] =>
      assert (E2 : defs_step st (rune_lit ")") =
                   mkDefs (defs st) (defs_current st +:+ ")")
                          (parenDepth st - 1)%Z) by reflexivity;
      rewrite E2
  end.
  cbn [defs defs_current parenDepth]. unfold range_string.
  match goal with
  | |- context [fold_left defs_step (runes post) ?st] =>
      destruct (defs_current_kept (runes post) st) as (after & rest & H)
  end.
  { cbn. destruct (defs_current st1); discriminate. }
  rewrite H. cbn [defs defs_current].
  exists (defs st1), (defs_current st1), (string_of_runes (runes inner)),
    after, rest.
  split; [|split; [reflexivity|apply string_of_runes_valid]].
  rewrite !append_assoc. reflexivity.
Qed.

Lemma splitColumnDefs_keeps_group_witness :
  paren_scan 0 "id INT, price NUMERIC" = Some 0 /\
  paren_scan 0 "10,2" = Some 0 /\
  exists defs1 before written after defs2,
    splitColumnDefs ("id INT, price NUMERIC" +:+
                     String "(" ("10,2" +:+ String ")" " NOT NULL, x INT")) =
      defs1 ++ (before +:+ String "(" (written +:+ String ")" after)) :: defs2 /\
    written = string_of_runes (runes "10,2") /\
    (ValidString "10,2" = true -> written = "10,2").
Proof.
  split; [reflexivity|]. split; [reflexivity|].
  apply (splitColumnDefs_keeps_group "id INT, price NUMERIC" "10,2"
                                     " NOT NULL, x INT" 0); reflexivity.
Defined.

End SplitterFacts.

(** ** What the parser returns *)
Module ParserInvariants.
Import GoStrings Regexp Go Schema Props MoreProps Samples ParserFacts.
Local Open Scope list_scope.

(** *** When Parse panics *)

Lemma parseCreateTable_panics (stmt : string) :
  parens_ok stmt = false ->
  parseCreateTable stmt = Panicked "slice bounds out of range".
Proof.
  unfold parens_ok, parseCreateTable. intros Hok.
  destruct (match FindStringSubmatch tableNameRe 2 stmt with
            | Some (_ :: ns :: name :: _) => (ns, name)
            | _ => (EmptyString, EmptyString)
            end) as [ns name].
  destruct (GoStrings.Index stmt "(") as [a|]; [|discriminate].
  destruct (LastIndex stmt ")") as [b|]; [|discriminate].
  unfold slice. rewrite Hok. reflexivity.
Qed.

Lemma parse_statement_returns_or_panics (schema : Schema) (stmt : string) :
  (len (TrimSpace stmt) =? 0) = false ->
  if member_ok (TrimSpace stmt)
  then exists schema', parse_statement schema stmt = Returned schema'
  else parse_statement schema stmt = Panicked "slice bounds out of range".
Proof.
  intros Hlen. destruct (member_ok (TrimSpace stmt)) eqn:Hok.
  - pose proof (parse_statement_cases schema stmt Hlen Hok) as H.
    cbv zeta in H. destruct (classify (TrimSpace stmt)); eauto.
    destruct H as (table & _ & H). eauto.
  - unfold member_ok, kind_is in Hok. unfold parse_statement.
    rewrite Hlen. destruct (classify (TrimSpace stmt)); try discriminate.
    cbn [same_kind] in Hok. rewrite (parseCreateTable_panics _ Hok).
    reflexivity.
Qed.

Lemma range_fold_parse_statement_panics (l : list string) (acc : Schema) :
  forallb member_ok (trimmed l) = false ->
  range_fold parse_statement l acc = Panicked "slice bounds out of range".
Proof.
  revert acc. induction l as [|x l IH]; intros acc Hbad; [discriminate|].
  rewrite trimmed_cons in Hbad. cbn [range_fold].
  destruct (len (TrimSpace x) =? 0) eqn:Hlen.
  - rewrite parse_statement_empty by exact Hlen. apply IH, Hbad.
  - pose proof (parse_statement_returns_or_panics acc x Hlen) as Hx.
    cbn [forallb] in Hbad.
    destruct (member_ok (TrimSpace x)).
    + destruct Hx as [schema' ->]. cbn [Go.bind]. apply IH, Hbad.
    + rewrite Hx. reflexivity.
Qed.

(** When the outcome of [Parse] is a panic. *)
Lemma Parse_panicked (sql : string) :
  panicked (Parse sql) = negb (tables_parenthesized sql).
Proof.
  unfold tables_parenthesized, statements_of, Parse.
  destruct (forallb member_ok
              (trimmed (splitStatements (Schema.normalizeSQL sql)))) eqn:Hok.
  - destruct (range_fold_parse_statement _ (mkSchema [] [] []) Hok)
      as (tables & Hrun & _).
    unfold mbind, outcome_bind. rewrite Hrun. reflexivity.
  - unfold mbind, outcome_bind.
    rewrite (range_fold_parse_statement_panics _ _ Hok). reflexivity.
Qed.

(** [Parse] panics exactly on the texts in which some CREATE TABLE
    statement has its last closing parenthesis before its first opening
    one; on every other text it returns. *)
Theorem Parse_panics_iff (sql : string) :
  panicked (Parse sql) = negb (tables_parenthesized sql).
Proof. exact (Parse_panicked sql). Qed.

(** What [Parse] returns, when it returns. *)
Lemma Parse_returned (sql : string) (schema : Schema) (err : option error) :
  Parse sql = Returned (schema, err) ->
  err = None /\
  Forall2 is_table_of
          (List.filter (kind_is CreateTable) (statements_of sql))
          (Tables schema) /\
  Indexes schema =
    map (fun s => (parseCreateIndex s).1)
        (List.filter (kind_is CreateIndex) (statements_of sql)).
Proof.
  intros Hp. pose proof (Parse_panicked sql) as Hpan.
  rewrite Hp in Hpan. cbn in Hpan.
  destruct (tables_parenthesized sql) eqn:Hok; [|discriminate].
  unfold tables_parenthesized, statements_of in Hok.
  destruct (range_fold_parse_statement _ (mkSchema [] [] []) Hok)
    as (tables & Hrun & Htables).
  unfold Parse, mbind, outcome_bind in Hp. rewrite Hrun in Hp.
  cbn in Hp. injection Hp as <- <-. auto.
Qed.

(** *** The columns and indexes of a parsed schema *)

Lemma rev_app_len (a b : string) :
  len (String.rev_app a b) = len a + len b.
Proof.
  revert b. induction a as [|c a IH]; intros b; [reflexivity|].
  cbn [String.rev_app len]. rewrite IH. cbn [len]. lia.
Qed.

Lemma no_space_rev_app (a b : string) :
  no_space (String.rev_app a b) = no_space a && no_space b.
Proof.
  revert b. induction a as [|c a IH]; intros b; [reflexivity|].
  cbn [String.rev_app no_space]. rewrite IH. cbn [no_space].
  destruct (is_space c), (no_space a), (no_space b); reflexivity.
Qed.

Lemma rev_word (w : string) :
  w <> EmptyString -> no_space w = true ->
  String.rev w <> EmptyString /\ no_space (String.rev w) = true.
Proof.
  intros Hne Hns. unfold String.rev. split.
  - intros E. apply (f_equal len) in E. rewrite rev_app_len in E.
    destruct w; [congruence|]. cbn in E. lia.
  - rewrite no_space_rev_app, Hns. reflexivity.
Qed.

(** The fields of a text are not empty and hold no white space. *)
Lemma fields_go_words (s : string) (cur : option string) :
  match cur with
  | Some w => w <> EmptyString /\ no_space w = true
  | None => True
  end ->
  Forall (fun w => w <> EmptyString /\ no_space w = true) (fields_go cur s).
Proof.
  revert cur. induction s as [|c s IH]; intros cur Hcur.
  - destruct cur as [w|]; cbn [fields_go]; [|constructor].
    constructor; [|constructor]. apply rev_word; apply Hcur.
  - cbn [fields_go]. destruct (is_space c) eqn:Ec.
    + destruct cur as [w|]; [|apply IH; exact I].
      constructor; [apply rev_word; apply Hcur | apply IH; exact I].
    + apply IH. split; [discriminate|].
      cbn [no_space]. rewrite Ec. cbn.
      destruct cur as [w|]; [apply Hcur | reflexivity].
Qed.

Lemma no_space_trim_left (p : ascii -> bool) (s : string) :
  no_space s = true -> no_space (trim_left_by p s) = true.
Proof.
  induction s as [|c s IH]; intros H; [reflexivity|].
  cbn [trim_left_by]. destruct (p c); [|exact H].
  cbn [no_space] in H. apply andb_true_iff in H as [_ H]. auto.
Qed.

Lemma no_space_trim_right (p : ascii -> bool) (s : string) :
  no_space s = true -> no_space (trim_right_by p s) = true.
Proof.
  induction s as [|c s IH]; intros H; [reflexivity|].
  cbn [no_space] in H. apply andb_true_iff in H as [Hc H].
  cbn [trim_right_by]. specialize (IH H).
  destruct (trim_right_by p s) as [|a r].
  - destruct (p c); [reflexivity|]. cbn [no_space]. rewrite Hc. reflexivity.
  - cbn [no_space] in *. rewrite Hc. exact IH.
Qed.

Lemma parseColumnDef_parsed (def : string) (col : Column) :
  parseColumnDef def = Some col -> parsed_column col.
Proof.
  unfold parseColumnDef.
  pose proof (fields_go_words def None I) as Hw. fold (Fields def) in Hw.
  destruct (Fields def) as [|name [|type rest]]; try discriminate.
  inversion Hw as [|? ? [_ Hname] Hw']. inversion Hw' as [|? ? [Hty Hns] _].
  subst. intros [= <-]. unfold parsed_column. cbn.
  repeat split; try assumption.
  - destruct (Contains (ToUpper def) "PRIMARY KEY"); [reflexivity|discriminate].
  - unfold Trim, trim_by.
    apply no_space_trim_right, no_space_trim_left, Hname.
Qed.

(** A member of a CREATE TABLE adds at most a column read by
    [parseColumnDef], and never an index. *)
Lemma table_member_columns (table : Table) (def : string) :
  Table_Indexes (table_member table def) = Table_Indexes table /\
  (Forall parsed_column (Table_Columns table) ->
   Forall parsed_column (Table_Columns (table_member table def))).
Proof.
  unfold table_member, parseNamedConstraint.
  destruct (len (TrimSpace def) =? 0); [auto|].
  repeat match goal with
         | |- context [if ?b then _ else _] => destruct b
         | |- context [match ?o with Some _ => _ | None => _ end] =>
             destruct o eqn:?
         end;
    (split; [reflexivity|]); cbn; auto.
  intros H. apply Forall_app. split; [exact H|].
  constructor; [|constructor].
  match goal with
  | E : parseColumnDef _ = Some _ |- _ => apply (parseColumnDef_parsed _ _ E)
  end.
Qed.

Lemma fold_table_member_columns (defs : list string) (table : Table) :
  Table_Indexes (fold_left table_member defs table) = Table_Indexes table /\
  (Forall parsed_column (Table_Columns table) ->
   Forall parsed_column (Table_Columns (fold_left table_member defs table))).
Proof.
  revert table. induction defs as [|d defs IH]; intros table; [auto|].
  cbn [fold_left].
  destruct (IH (table_member table d)) as [Hi Hc].
  destruct (table_member_columns table d) as [Hi' Hc'].
  split; [congruence | auto].
Qed.

Lemma parseCreateTable_columns (stmt : string) (table : Table) :
  is_table_of stmt table ->
  Table_Indexes table = [] /\ Forall parsed_column (Table_Columns table).
Proof.
  unfold is_table_of, parseCreateTable.
  destruct (match FindStringSubmatch tableNameRe 2 stmt with
            | Some (_ :: ns :: name :: _) => (ns, name)
            | _ => (EmptyString, EmptyString)
            end) as [ns name].
  assert (Hnone : forall t : Table,
            Returned (mkTable name ns [] None [] [] [], @None error)
              = Returned (t, None) ->
            Table_Indexes t = [] /\ Forall parsed_column (Table_Columns t)).
  { intros t [= <-]. split; [reflexivity | constructor]. }
  destruct (GoStrings.Index stmt "(") as [a|]; [|apply Hnone].
  destruct (LastIndex stmt ")") as [b|]; [|apply Hnone].
  destruct (slice stmt (a + 1) b) as [body|msg]; [|discriminate].
  cbn. intros [= <-].
  destruct (fold_table_member_columns (splitColumnDefs body)
              (mkTable name ns [] None [] [] [])) as [Hi Hc].
  split; [exact Hi | apply Hc; constructor].
Qed.

(** In a schema returned by [Parse], a column flagged as primary key is
    not nullable, the type of a column is a non-empty word without white
    space, its name holds no white space and its comment is empty. *)
Theorem Parse_columns_parsed (sql : string) (schema : Schema)
    (err : option error) (table : Table) (col : Column) :
  Parse sql = Returned (schema, err) ->
  In table (Tables schema) -> In col (Table_Columns table) ->
  parsed_column col.
Proof.
  intros Hp Ht Hc.
  destruct (Parse_returned sql schema err Hp) as (_ & Htables & _).
  assert (Hall : Forall (fun t => Forall parsed_column (Table_Columns t))
                        (Tables schema)).
  { clear Ht. induction Htables as [|s t ss ts Hst _ IH]; constructor.
    - apply (parseCreateTable_columns s t Hst).
    - exact IH. }
  rewrite List.Forall_forall in Hall. specialize (Hall table Ht).
  rewrite List.Forall_forall in Hall. apply Hall, Hc.
Qed.

Lemma Parse_columns_parsed_witness :
  exists schema table col,
    Parse users_statement = Returned (schema, None) /\
    In table (Tables schema) /\ In col (Table_Columns table) /\
    Column_Name col = "id" /\ parsed_column col.
Proof.
  pose (c_id := mkColumn "id" "SERIAL" false None true false true EmptyString).
  pose (c_email := mkColumn "email" "VARCHAR(255)" false None false true false
                            EmptyString).
  pose (tb := mkTable "users" EmptyString [c_id; c_email] None [] [] []).
  assert (Hp : Parse users_statement = Returned (mkSchema [tb] [] [], None))
    by (vm_compute; reflexivity).
  assert (Ht : In tb (Tables (mkSchema [tb] [] []))) by (left; reflexivity).
  assert (Hc : In c_id (Table_Columns tb)) by (left; reflexivity).
  exists (mkSchema [tb] [] []), tb, c_id.
  split; [exact Hp|]. split; [exact Ht|]. split; [exact Hc|].
  split; [reflexivity|].
  exact (Parse_columns_parsed users_statement _ None tb c_id Hp Ht Hc).
Defined.

(** The parser reads no index method and no table-scoped index: in a
    schema returned by [Parse] every table has an empty list of indexes,
    and every standalone index has an empty method and is not primary. *)
Theorem Parse_indexes_plain (sql : string) (schema : Schema)
    (err : option error) :
  Parse sql = Returned (schema, err) ->
  Forall (fun table => Table_Indexes table = []) (Tables schema) /\
  Forall (fun idx => Index_Type idx = EmptyString /\
                     Index_IsPrimary idx = false) (Indexes schema).
Proof.
  intros Hp.
  destruct (Parse_returned sql schema err Hp) as (_ & Htables & ->).
  split.
  - induction Htables as [|s t ss ts Hst _ IH]; constructor.
    + apply (parseCreateTable_columns s t Hst).
    + exact IH.
  - apply Forall_map, List.Forall_forall. intros s _.
    unfold parseCreateIndex.
    destruct (match FindStringSubmatch indexTableRe 2 s with
              | Some (_ :: ns :: t :: _) => (ns, t)
              | _ => (EmptyString, EmptyString)
              end) as [ns t].
    split; reflexivity.
Qed.

Lemma Parse_indexes_plain_witness :
  exists schema,
    Parse "CREATE TABLE t (a INT); CREATE INDEX i ON t USING gin (a)"
      = Returned (schema, None) /\
    Forall (fun table => Table_Indexes table = []) (Tables schema) /\
    Forall (fun idx => Index_Type idx = EmptyString /\
                       Index_IsPrimary idx = false) (Indexes schema).
Proof.
  eexists.
  assert (Hp : Parse "CREATE TABLE t (a INT); CREATE INDEX i ON t USING gin (a)"
               = Returned (mkSchema
                   [mkTable "t" EmptyString
                      [mkColumn "a" "INT" true None false false false
                                EmptyString] None [] [] []]
                   [mkIndex "i" "t" EmptyString ["a"] false false EmptyString]
                   [], None))
    by (vm_compute; reflexivity).
  split; [exact Hp|].
  apply (Parse_indexes_plain _ _ None Hp).
Defined.

(** *** The foreign keys of a parsed schema *)

Lemma parseForeignKeyConstraint_actions (def : string) (fk : ForeignKey) :
  parseForeignKeyConstraint def = Some fk -> parsed_foreign_key fk.
Proof.
  unfold parseForeignKeyConstraint.
  destruct (match FindStringSubmatch refRe 3 def with
            | Some (_ :: ns :: tbl :: cols :: _) => (ns, tbl, column_names cols)
            | _ => (EmptyString, EmptyString, [])
            end) as [[ns tbl] cols].
  intros [= <-]. unfold parsed_foreign_key. cbn.
  destruct (Contains (ToUpper def) "ON DELETE CASCADE"),
           (Contains (ToUpper def) "ON DELETE SET NULL"),
           (Contains (ToUpper def) "ON UPDATE CASCADE"); auto.
Qed.

Lemma table_member_foreign_keys (table : Table) (def : string) :
  Forall parsed_foreign_key (Table_ForeignKeys table) ->
  Forall parsed_foreign_key (Table_ForeignKeys (table_member table def)).
Proof.
  intros H. unfold table_member, parseNamedConstraint.
  destruct (len (TrimSpace def) =? 0); [exact H|].
  repeat match goal with
         | |- context [if ?b then _ else _] => destruct b
         | |- context [match ?o with Some _ => _ | None => _ end] =>
             destruct o eqn:?
         end;
    cbn; auto;
    (apply Forall_app; split; [exact H|]);
    (constructor; [|constructor]);
    match goal with
    | E : parseForeignKeyConstraint _ = Some _ |- _ =>
        apply parseForeignKeyConstraint_actions in E; exact E
    end.
Qed.

Lemma fold_table_member_foreign_keys (defs : list string) (table : Table) :
  Forall parsed_foreign_key (Table_ForeignKeys table) ->
  Forall parsed_foreign_key
         (Table_ForeignKeys (fold_left table_member defs table)).
Proof.
  revert table. induction defs as [|d defs IH]; intros table H; [exact H|].
  cbn [fold_left]. apply IH, table_member_foreign_keys, H.
Qed.

Lemma parseCreateTable_foreign_keys (stmt : string) (table : Table) :
  is_table_of stmt table ->
  Forall parsed_foreign_key (Table_ForeignKeys table).
Proof.
  unfold is_table_of, parseCreateTable.
  destruct (match FindStringSubmatch tableNameRe 2 stmt with
            | Some (_ :: ns :: name :: _) => (ns, name)
            | _ => (EmptyString, EmptyString)
            end) as [ns name].
  assert (Hnone : forall t : Table,
            Returned (mkTable name ns [] None [] [] [], @None error)
              = Returned (t, None) ->
            Forall parsed_foreign_key (Table_ForeignKeys t)).
  { intros t [= <-]. constructor. }
  destruct (GoStrings.Index stmt "(") as [a|]; [|apply Hnone].
  destruct (LastIndex stmt ")") as [b|]; [|apply Hnone].
  destruct (slice stmt (a + 1) b) as [body|msg]; [|discriminate].
  cbn. intros [= <-].
  apply fold_table_member_foreign_keys. constructor.
Qed.

(** Of the referential actions of a foreign key the parser records only
    CASCADE and SET NULL after ON DELETE and only CASCADE after ON UPDATE:
    in a schema returned by [Parse] no foreign key has another action. *)
Theorem Parse_foreign_key_actions (sql : string) (schema : Schema)
    (err : option error) (table : Table) (fk : ForeignKey) :
  Parse sql = Returned (schema, err) ->
  In table (Tables schema) -> In fk (Table_ForeignKeys table) ->
  parsed_foreign_key fk.
Proof.
  intros Hp Ht Hf.
  destruct (Parse_returned sql schema err Hp) as (_ & Htables & _).
  assert (Hall : Forall (fun t => Forall parsed_foreign_key
                                         (Table_ForeignKeys t))
                        (Tables schema)).
  { clear Ht. induction Htables as [|s t ss ts Hst _ IH]; constructor.
    - apply (parseCreateTable_foreign_keys s t Hst).
    - exact IH. }
  rewrite List.Forall_forall in Hall. specialize (Hall table Ht).
  rewrite List.Forall_forall in Hall. apply Hall, Hf.
Qed.

Lemma Parse_foreign_key_actions_witness :
  exists schema table fk,
    Parse "CREATE TABLE p (u INT, FOREIGN KEY (u) REFERENCES t (id) ON DELETE RESTRICT ON UPDATE SET NULL)"
      = Returned (schema, None) /\
    In table (Tables schema) /\ In fk (Table_ForeignKeys table) /\
    ForeignKey_OnDelete fk = EmptyString /\
    ForeignKey_OnUpdate fk = EmptyString /\
    parsed_foreign_key fk.
Proof.
  pose (fk := mkForeignKey EmptyString ["u"] "t" EmptyString ["id"]
                           EmptyString EmptyString).
  pose (tb := mkTable "p" EmptyString
                      [mkColumn "u" "INT" true None false false false
                                EmptyString] None [fk] [] []).
  assert (Hp : Parse "CREATE TABLE p (u INT, FOREIGN KEY (u) REFERENCES t (id) ON DELETE RESTRICT ON UPDATE SET NULL)"
               = Returned (mkSchema [tb] [] [], None))
    by (vm_compute; reflexivity).
  assert (Ht : In tb (Tables (mkSchema [tb] [] []))) by (left; reflexivity).
  assert (Hf : In fk (Table_ForeignKeys tb)) by (left; reflexivity).
  exists (mkSchema [tb] [] []), tb, fk.
  split; [exact Hp|]. split; [exact Ht|]. split; [exact Hf|].
  split; [reflexivity|]. split; [reflexivity|].
  exact (Parse_foreign_key_actions _ _ None tb fk Hp Ht Hf).
Defined.

End ParserInvariants.

(** ** What the differ reports *)
Module DiffMore.
Import GoStrings Schema Diff Report Props MoreProps MoreSamples.
Local Open Scope list_scope.

(** *** The maps of the differ *)

Lemma foldl_insert_lookup {A : Type} (key : A -> string) (l : list A)
    (m : gmap string A) (k : string) :
  foldl (fun m x => <[key x := x]> m) m l !! k =
    match latest key k l with
    | Some y => Some y
    | None => m !! k
    end.
Proof.
  revert m. induction l as [|x l IH]; intros m; [reflexivity|].
  cbn [foldl latest]. rewrite IH.
  destruct (latest key k l) as [y|]; [reflexivity|].
  destruct (String.eqb (key x) k) eqn:E.
  - apply String.eqb_eq in E. subst k. apply lookup_insert_eq.
  - apply String.eqb_neq in E. rewrite lookup_insert_ne by exact E.
    reflexivity.
Qed.

(** Looking a key up in the map built from a list finds the last element
    of the list with that key. *)
Lemma index_by_lookup {A : Type} (key : A -> string) (l : list A)
    (k : string) :
  index_by key l !! k = latest key k l.
Proof.
  unfold index_by. rewrite foldl_insert_lookup.
  destruct (latest key k l); [reflexivity | apply lookup_empty].
Qed.

Lemma latest_Some {A : Type} (key : A -> string) (k : string) (l : list A)
    (x : A) :
  latest key k l = Some x -> In x l /\ key x = k.
Proof.
  induction l as [|a l IH]; [discriminate|]. cbn [latest].
  destruct (latest key k l) as [y|].
  - intros [= ->]. destruct (IH eq_refl). split; [right|]; assumption.
  - destruct (String.eqb (key a) k) eqn:E; [|discriminate].
    intros [= ->]. apply String.eqb_eq in E. split; [left; reflexivity|exact E].
Qed.

Lemma latest_is_Some {A : Type} (key : A -> string) (k : string)
    (l : list A) :
  is_Some (latest key k l) <-> In k (map key l).
Proof.
  induction l as [|a l IH]; cbn [latest map In].
  - split; [intros [? [=]] | contradiction].
  - destruct (latest key k l) as [y|].
    + split; [intros _; right; apply IH; eauto | eauto].
    + destruct (String.eqb (key a) k) eqn:E.
      * apply String.eqb_eq in E. split; [auto | eauto].
      * apply String.eqb_neq in E. split; [intros [? [=]]|].
        intros [H|H]; [contradiction|]. apply IH in H. exact H.
Qed.

Lemma nil_iff_no_elem {A : Type} (l : list A) :
  l = [] <-> forall x, ~ x ∈ l.
Proof.
  split.
  - intros -> x H. inversion H.
  - destruct l as [|a l]; [reflexivity|].
    intros H. exfalso. apply (H a). apply list_elem_of_here.
Qed.

Lemma elem_of_only_in {A B : Type} (m : gmap string A) (o : gmap string B)
    (x : A) :
  x ∈ only_in m o <-> exists k, m !! k = Some x /\ o !! k = None.
Proof.
  unfold only_in. rewrite list_elem_of_omap. split.
  - intros ([k v] & Hkv & Hf). apply elem_of_map_to_list in Hkv.
    cbn in Hf. destruct (o !! k) eqn:E; [discriminate|].
    injection Hf as ->. eauto.
  - intros (k & Hm & Ho). exists (k, x). split.
    + apply elem_of_map_to_list, Hm.
    + cbn. rewrite Ho. reflexivity.
Qed.

Lemma elem_of_in_both {A C : Type} (cmp : string -> A -> A -> option C)
    (m o : gmap string A) (c : C) :
  c ∈ in_both cmp m o <->
  exists k a b, m !! k = Some a /\ o !! k = Some b /\ cmp k a b = Some c.
Proof.
  unfold in_both. rewrite list_elem_of_omap. split.
  - intros ([k v] & Hkv & Hf). apply elem_of_map_to_list in Hkv.
    cbn in Hf. destruct (o !! k) as [b|] eqn:E; [|discriminate]. eauto 10.
  - intros (k & a & b & Hm & Ho & Hc). exists (k, a). split.
    + apply elem_of_map_to_list, Hm.
    + cbn. rewrite Ho. exact Hc.
Qed.

Lemma only_in_nil {A B : Type} (m : gmap string A) (o : gmap string B) :
  only_in m o = [] <-> forall k, is_Some (m !! k) -> is_Some (o !! k).
Proof.
  rewrite nil_iff_no_elem. split.
  - intros H k [x Hx]. destruct (o !! k) eqn:E; [eauto|].
    exfalso. apply (H x). apply elem_of_only_in. eauto.
  - intros H x Hin. apply elem_of_only_in in Hin as (k & Hm & Ho).
    destruct (H k) as [y Hy]; [eauto|]. congruence.
Qed.

Lemma in_both_nil {A C : Type} (cmp : string -> A -> A -> option C)
    (m o : gmap string A) :
  in_both cmp m o = [] <->
  forall k a b, m !! k = Some a -> o !! k = Some b -> cmp k a b = None.
Proof.
  rewrite nil_iff_no_elem. split.
  - intros H k a b Hm Ho. destruct (cmp k a b) as [c|] eqn:E; [|reflexivity].
    exfalso. apply (H c). apply elem_of_in_both. eauto 10.
  - intros H c Hin. apply elem_of_in_both in Hin as (k & a & b & Hm & Ho & Hc).
    rewrite (H k a b Hm Ho) in Hc. discriminate.
Qed.

(** Nothing is only on one side exactly when both lists have the same
    keys. *)
Lemma only_in_both_nil {A : Type} (key : A -> string) (l1 l2 : list A) :
  only_in (index_by key l2) (index_by key l1) = [] /\
  only_in (index_by key l1) (index_by key l2) = [] <->
  same_keys key l1 l2.
Proof.
  rewrite !only_in_nil. unfold same_keys.
  setoid_rewrite index_by_lookup. setoid_rewrite latest_is_Some.
  split.
  - intros [H1 H2] k. split; auto.
  - intros H. split; intros k; apply H.
Qed.

Lemma in_both_index_nil {A C : Type} (key : A -> string)
    (cmp : string -> A -> A -> option C) (l1 l2 : list A) :
  in_both cmp (index_by key l1) (index_by key l2) = [] <->
  latest_agree key (fun k x y => cmp k x y = None) l1 l2.
Proof.
  rewrite in_both_nil. unfold latest_agree.
  setoid_rewrite index_by_lookup. reflexivity.
Qed.

(** *** Primary keys and columns *)

Lemma same_strings_iff (a b : list string) :
  (length a =? length b) &&
  forallb (fun p : string * string => eqs p.1 p.2) (combine a b) = true <->
  a = b.
Proof.
  revert b. induction a as [|x a IH]; intros [|y b]; cbn;
    try (split; [discriminate | discriminate]); [tauto|].
  split.
  - intros H. apply andb_true_iff in H as [Hl H].
    apply andb_true_iff in H as [Hxy Hf].
    apply String.eqb_eq in Hxy. subst y. f_equal.
    apply IH. apply andb_true_iff. auto.
  - intros [= -> ->].
    pose proof (proj2 (IH b) eq_refl) as H.
    apply andb_true_iff in H as [Hl Hf].
    rewrite Hl, Hf. unfold eqs. rewrite String.eqb_refl. reflexivity.
Qed.

(** Same primary key, same columns. *)
Lemma samePrimaryKey_columns (source target : option PrimaryKey) :
  samePrimaryKey source target = true <->
  PrimaryKey_Columns <$> source = PrimaryKey_Columns <$> target.
Proof.
  destruct source as [s|], target as [t|]; cbn;
    try (split; [discriminate | discriminate]); [|tauto].
  rewrite same_strings_iff. split; [intros ->; reflexivity | intros [=]; auto].
Qed.

(** The differ takes two primary keys for the same exactly when both are
    absent or both are present with the same columns in the same order; the
    name of the constraint plays no part. *)
Theorem samePrimaryKey_iff (source target : option PrimaryKey) :
  samePrimaryKey source target = true <->
  PrimaryKey_Columns <$> source = PrimaryKey_Columns <$> target.
Proof. exact (samePrimaryKey_columns source target). Qed.

Lemma compareColumn_None_iff (source target : Column) :
  compareColumn source target = None <->
  EqualFold (Column_Type source) (Column_Type target) = true /\
  Column_Nullable source = Column_Nullable target /\
  sameDefault (Column_Default source) (Column_Default target) = true.
Proof.
  unfold compareColumn.
  destruct (EqualFold (Column_Type source) (Column_Type target)),
           (Column_Nullable source), (Column_Nullable target),
           (sameDefault (Column_Default source) (Column_Default target));
    cbn; split; try discriminate; try tauto; intros (? & ? & ?); discriminate.
Qed.

Lemma nonempty_false {A : Type} (l : list A) : nonempty l = false <-> l = [].
Proof. destruct l; cbn; split; congruence. Qed.

Lemma if_negb_None {A : Type} (h : bool) (x : A) :
  (if negb h then None else Some x) = None <-> h = false.
Proof. destruct h; cbn; split; congruence. Qed.

(** *** Tables without differences *)

(** When two tables compare as unchanged. *)
Lemma compareTable_None_spec (source target : Table) :
  compareTable source target = None <->
  same_keys Column_Name (Table_Columns source) (Table_Columns target) /\
  latest_agree Column_Name
    (fun _ cs ct =>
       EqualFold (Column_Type cs) (Column_Type ct) = true /\
       Column_Nullable cs = Column_Nullable ct /\
       sameDefault (Column_Default cs) (Column_Default ct) = true)
    (Table_Columns source) (Table_Columns target) /\
  same_keys Index_Name (Table_Indexes source) (Table_Indexes target) /\
  same_keys fk_key (Table_ForeignKeys source) (Table_ForeignKeys target) /\
  PrimaryKey_Columns <$> Table_PrimaryKey source =
    PrimaryKey_Columns <$> Table_PrimaryKey target.
Proof.
  unfold compareTable. rewrite if_negb_None.
  rewrite !orb_false_iff, !nonempty_false, negb_false_iff,
    samePrimaryKey_columns.
  rewrite <- !only_in_both_nil.
  rewrite (in_both_index_nil Column_Name (fun _ => compareColumn)).
  unfold latest_agree. setoid_rewrite compareColumn_None_iff.
  tauto.
Qed.

(** Two tables compare as unchanged exactly when they have the same column
    names, the same index names and the same foreign-key keys, columns of
    the same name agree on type (up to case), nullability and default, and
    the primary keys have the same columns.  Constraints, comments and the
    primary-key, unique and identity flags of columns are not looked at. *)
Theorem compareTable_None_iff (source target : Table) :
  compareTable source target = None <->
  same_keys Column_Name (Table_Columns source) (Table_Columns target) /\
  latest_agree Column_Name
    (fun _ cs ct =>
       EqualFold (Column_Type cs) (Column_Type ct) = true /\
       Column_Nullable cs = Column_Nullable ct /\
       sameDefault (Column_Default cs) (Column_Default ct) = true)
    (Table_Columns source) (Table_Columns target) /\
  same_keys Index_Name (Table_Indexes source) (Table_Indexes target) /\
  same_keys fk_key (Table_ForeignKeys source) (Table_ForeignKeys target) /\
  PrimaryKey_Columns <$> Table_PrimaryKey source =
    PrimaryKey_Columns <$> Table_PrimaryKey target.
Proof. exact (compareTable_None_spec source target). Qed.

(** *** Schemas without differences *)

Lemma length_zero {A : Type} (l : list A) : (length l =? 0) = true <-> l = [].
Proof. destruct l; cbn; split; congruence. Qed.

Lemma IsEmpty_iff (c : Changes) :
  IsEmpty c = true <->
  AddedTables c = [] /\ RemovedTables c = [] /\ ModifiedTables c = [] /\
  AddedIndexes c = [] /\ RemovedIndexes c = [] /\
  AddedViews c = [] /\ RemovedViews c = [] /\ ModifiedViews c = [].
Proof.
  unfold IsEmpty. rewrite !andb_true_iff, !length_zero. tauto.
Qed.

Lemma compareView_None_iff (name : string) (source target : View) :
  compareView name source target = None <->
  Diff.normalizeSQL (View_Definition source) =
    Diff.normalizeSQL (View_Definition target).
Proof.
  unfold compareView, eqs.
  destruct (String.eqb _ _) eqn:E; cbn.
  - apply String.eqb_eq in E. tauto.
  - apply String.eqb_neq in E. split; [discriminate | contradiction].
Qed.

(** When the differences of two schemas are empty. *)
Lemma Compare_IsEmpty_spec (source target : Schema) :
  IsEmpty (Compare source target) = true <->
  same_keys Table_Name (Tables source) (Tables target) /\
  latest_agree Table_Name (fun _ ts tt => compareTable ts tt = None)
               (Tables source) (Tables target) /\
  same_keys Index_Name (Indexes source) (Indexes target) /\
  same_keys View_Name (Views source) (Views target) /\
  latest_agree View_Name
    (fun _ vs vt => Diff.normalizeSQL (View_Definition vs) =
                    Diff.normalizeSQL (View_Definition vt))
    (Views source) (Views target).
Proof.
  rewrite IsEmpty_iff. unfold Compare. cbn.
  rewrite <- !only_in_both_nil.
  rewrite (in_both_index_nil Table_Name (fun _ => compareTable)).
  rewrite (in_both_index_nil View_Name compareView).
  unfold latest_agree. setoid_rewrite compareView_None_iff.
  tauto.
Qed.

(** The differences of two schemas are empty exactly when the schemas have
    the same table names, index names and view names, tables of the same
    name compare as unchanged, and views of the same name have the same
    definition up to white space and case.  Where a name occurs more than
    once in a schema, its last occurrence counts. *)
Theorem Compare_IsEmpty_iff (source target : Schema) :
  IsEmpty (Compare source target) = true <->
  same_keys Table_Name (Tables source) (Tables target) /\
  latest_agree Table_Name (fun _ ts tt => compareTable ts tt = None)
               (Tables source) (Tables target) /\
  same_keys Index_Name (Indexes source) (Indexes target) /\
  same_keys View_Name (Views source) (Views target) /\
  latest_agree View_Name
    (fun _ vs vt => Diff.normalizeSQL (View_Definition vs) =
                    Diff.normalizeSQL (View_Definition vt))
    (Views source) (Views target).
Proof. exact (Compare_IsEmpty_spec source target). Qed.

(** *** Symmetry *)

Lemma EqualFold_sym (s t : string) : EqualFold s t = EqualFold t s.
Proof.
  revert t. induction s as [|a s IH]; intros [|b t]; cbn; try reflexivity.
  rewrite IH. unfold eqb_ascii. rewrite Ascii.eqb_sym. reflexivity.
Qed.

Lemma sameDefault_sym (a b : option string) :
  sameDefault a b = sameDefault b a.
Proof. destruct a, b; cbn; try reflexivity. apply EqualFold_sym. Qed.

Lemma same_keys_sym {A : Type} (key : A -> string) (l1 l2 : list A) :
  same_keys key l1 l2 -> same_keys key l2 l1.
Proof. intros H k. symmetry. apply H. Qed.

Lemma latest_agree_sym {A : Type} (key : A -> string)
    (test : string -> A -> A -> Prop) (l1 l2 : list A) :
  (forall k x y, test k x y -> test k y x) ->
  latest_agree key test l1 l2 -> latest_agree key test l2 l1.
Proof. intros Hs H k x y Hx Hy. apply Hs, (H k y x Hy Hx). Qed.

Lemma compareTable_None_sym (source target : Table) :
  compareTable source target = None -> compareTable target source = None.
Proof.
  rewrite !compareTable_None_spec. intros (Hc & Hcc & Hi & Hf & Hpk).
  split; [apply same_keys_sym, Hc|].
  split; [|split; [apply same_keys_sym, Hi|
                   split; [apply same_keys_sym, Hf | symmetry; exact Hpk]]].
  revert Hcc. apply latest_agree_sym.
  intros _ x y (Ht & Hn & Hd).
  rewrite EqualFold_sym, sameDefault_sym. auto.
Qed.

Lemma Compare_IsEmpty_sym (source target : Schema) :
  IsEmpty (Compare source target) = true ->
  IsEmpty (Compare target source) = true.
Proof.
  rewrite !Compare_IsEmpty_spec. intros (Ht & Htt & Hi & Hv & Hvv).
  split; [apply same_keys_sym, Ht|].
  split; [revert Htt; apply latest_agree_sym;
          intros _ x y; apply compareTable_None_sym|].
  split; [apply same_keys_sym, Hi|].
  split; [apply same_keys_sym, Hv|].
  revert Hvv. apply latest_agree_sym. intros _ x y H. symmetry. exact H.
Qed.

(** Whether two schemas differ does not depend on which is the source and
    which the target. *)
Theorem Compare_IsEmpty_swap (source target : Schema) :
  IsEmpty (Compare source target) = IsEmpty (Compare target source).
Proof.
  destruct (IsEmpty (Compare source target)) eqn:E1,
           (IsEmpty (Compare target source)) eqn:E2; try reflexivity.
  - rewrite (Compare_IsEmpty_sym _ _ E1) in E2. discriminate.
  - rewrite (Compare_IsEmpty_sym _ _ E2) in E1. discriminate.
Qed.

(** *** Added, removed and modified tables *)

Lemma lookup_None_not_In {A : Type} (key : A -> string) (l : list A)
    (k : string) :
  index_by key l !! k = None <-> ~ In k (map key l).
Proof.
  rewrite index_by_lookup, <- latest_is_Some.
  destruct (latest key k l); split; try congruence; try discriminate.
  - intros H. exfalso. apply H. eauto.
  - intros _ [? [=]].
Qed.

(** A table is reported as added exactly when it is the last table of its
    name in the target and no table of the source has that name; it is
    reported as removed in the mirrored case. *)
Theorem Compare_added_removed_tables (source target : Schema) (t : Table) :
  (In t (AddedTables (Compare source target)) <->
   latest Table_Name (Table_Name t) (Tables target) = Some t /\
   ~ In (Table_Name t) (map Table_Name (Tables source))) /\
  (In t (RemovedTables (Compare source target)) <->
   latest Table_Name (Table_Name t) (Tables source) = Some t /\
   ~ In (Table_Name t) (map Table_Name (Tables target))).
Proof.
  unfold Compare; cbn.
  split; rewrite <- list_elem_of_In, elem_of_only_in;
    setoid_rewrite index_by_lookup;
    setoid_rewrite <- lookup_None_not_In;
    setoid_rewrite index_by_lookup.
  - split.
    + intros (k & Hk & Hn). destruct (latest_Some _ _ _ _ Hk) as [_ <-]. auto.
    + intros [H1 H2]. eauto.
  - split.
    + intros (k & Hk & Hn). destruct (latest_Some _ _ _ _ Hk) as [_ <-]. auto.
    + intros [H1 H2]. eauto.
Qed.

Lemma nonempty_true {A : Type} (l : list A) : nonempty l = true <-> l <> [].
Proof. destruct l; cbn; split; congruence. Qed.

Lemma compareTable_Some (source target : Table) (tc : TableChanges) :
  compareTable source target = Some tc ->
  TableChanges_Name tc = Table_Name source /\ reports_change tc /\
  AddedConstraints tc = [] /\ RemovedConstraints tc = [].
Proof.
  unfold compareTable.
  match goal with
  | |- (if negb ?h then _ else _) = _ -> _ => destruct h eqn:Hh
  end; [|discriminate].
  cbn. intros [= <-]. cbn. repeat split.
  unfold reports_change; cbn.
  rewrite !orb_true_iff, !nonempty_true in Hh. tauto.
Qed.

(** Every record of a modified table names a table that both schemas have
    and reports at least one change of columns, indexes, foreign keys or
    primary key; the differ never reports a change of constraints. *)
Theorem Compare_modified_tables (source target : Schema) (tc : TableChanges) :
  In tc (ModifiedTables (Compare source target)) ->
  In (TableChanges_Name tc) (map Table_Name (Tables source)) /\
  In (TableChanges_Name tc) (map Table_Name (Tables target)) /\
  reports_change tc /\
  AddedConstraints tc = [] /\ RemovedConstraints tc = [].
Proof.
  unfold Compare; cbn. rewrite <- list_elem_of_In, elem_of_in_both.
  intros (k & ts & tt & Hs & Ht & Hc).
  rewrite index_by_lookup in Hs, Ht.
  destruct (compareTable_Some _ _ _ Hc) as (Hn & Hr & Ha & Hrm).
  destruct (latest_Some _ _ _ _ Hs) as [_ Hk].
  rewrite Hn, Hk.
  repeat split; try assumption; apply latest_is_Some; eauto.
Qed.

Lemma Compare_modified_tables_witness :
  exists tc,
    In tc (ModifiedTables (Compare users_v1 users_v2)) /\
    In (TableChanges_Name tc) (map Table_Name (Tables users_v1)) /\
    In (TableChanges_Name tc) (map Table_Name (Tables users_v2)) /\
    reports_change tc /\
    AddedConstraints tc = [] /\ RemovedConstraints tc = [].
Proof.
  pose (tc := mkTableChanges "users" [plain_column "name"] [] [] [] [] [] []
                             [] [] false).
  assert (Hin : In tc (ModifiedTables (Compare users_v1 users_v2)))
    by (vm_compute; left; reflexivity).
  exists tc. split; [exact Hin|].
  exact (Compare_modified_tables users_v1 users_v2 tc Hin).
Defined.

(** *** The text report *)

(** The report reads "No differences found." exactly when the changes are
    empty: a report of changes starts with another line. *)
Theorem WriteText_no_differences_iff (c : Changes) :
  WriteText c = "No differences found." +:+ nl <-> IsEmpty c = true.
Proof.
  split; [|intros H; unfold WriteText; rewrite H; reflexivity].
  intros H. destruct (IsEmpty c) eqn:E; [reflexivity|exfalso].
  unfold WriteText in H. rewrite E in H.
  assert (Hne : ~ (AddedTables c = [] /\ RemovedTables c = [] /\
                   ModifiedTables c = [] /\ AddedIndexes c = [] /\
                   RemovedIndexes c = [] /\ AddedViews c = [] /\
                   RemovedViews c = [] /\ ModifiedViews c = []))
    by (rewrite <- IsEmpty_iff, E; discriminate).
  apply (f_equal (fun s => match s with
                           | String a _ => Some a
                           | EmptyString => None
                           end)) in H.
  unfold write_section in H.
  destruct (AddedTables c); [|vm_compute in H; discriminate].
  destruct (RemovedTables c); [|vm_compute in H; discriminate].
  destruct (ModifiedTables c); [|vm_compute in H; discriminate].
  destruct (AddedIndexes c); [|vm_compute in H; discriminate].
  destruct (RemovedIndexes c); [|vm_compute in H; discriminate].
  destruct (AddedViews c); [|vm_compute in H; discriminate].
  destruct (RemovedViews c); [|vm_compute in H; discriminate].
  destruct (ModifiedViews c); [|vm_compute in H; discriminate].
  apply Hne. repeat split.
Qed.

(** *** Views *)

Lemma fields_go_trim_left (s : string) :
  fields_go None (trim_left_by is_space s) = fields_go None s.
Proof.
  induction s as [|c s IH]; [reflexivity|].
  cbn [trim_left_by fields_go]. destruct (is_space c) eqn:E; [exact IH|].
  cbn [fields_go]. rewrite E. reflexivity.
Qed.

Lemma fields_go_trim_right (s : string) (cur : option string) :
  fields_go cur (trim_right_by is_space s) = fields_go cur s.
Proof.
  revert cur. induction s as [|c s IH]; intros cur; [reflexivity|].
  cbn [trim_right_by].
  destruct (trim_right_by is_space s) as [|a r] eqn:Er.
  - destruct (is_space c) eqn:E; cbn [fields_go]; rewrite E.
    + destruct cur as [w|]; rewrite <- IH; reflexivity.
    + rewrite <- IH. reflexivity.
  - cbn [fields_go]. destruct (is_space c).
    + destruct cur as [w|]; rewrite <- IH; reflexivity.
    + rewrite <- IH. reflexivity.
Qed.

Lemma Fields_TrimSpace (s : string) : Fields (TrimSpace s) = Fields s.
Proof.
  unfold Fields, TrimSpace, trim_by.
  rewrite fields_go_trim_right. apply fields_go_trim_left.
Qed.

Lemma ToUpper_append (a b : string) :
  ToUpper (a +:+ b) = ToUpper a +:+ ToUpper b.
Proof.
  induction a as [|c a IH]; [reflexivity|].
  change (String c a +:+ b) with (String c (a +:+ b)).
  cbn [ToUpper]. rewrite IH. reflexivity.
Qed.

Lemma ToUpper_Join (l : list string) :
  ToUpper (Join l " ") = Join (map ToUpper l) " ".
Proof.
  induction l as [|x l IH]; [reflexivity|].
  destruct l as [|y l]; [reflexivity|].
  change (Join (x :: y :: l) " ") with (x +:+ " " +:+ Join (y :: l) " ").
  rewrite !ToUpper_append, IH. reflexivity.
Qed.

(** The text the differ compares views by: the words of the definition in
    upper case, one space between them. *)
Lemma normalizeSQL_words (sql : string) :
  Diff.normalizeSQL sql = Join (map ToUpper (Fields sql)) " ".
Proof.
  unfold Diff.normalizeSQL. rewrite Fields_TrimSpace. apply ToUpper_Join.
Qed.

(** Two views whose definitions have the same words up to the case of the
    letters, however the words are spaced, are not reported as modified. *)
Theorem compareView_same_words (name : string) (source target : View) :
  map ToUpper (Fields (View_Definition source)) =
    map ToUpper (Fields (View_Definition target)) ->
  compareView name source target = None.
Proof.
  intros H. apply compareView_None_iff.
  rewrite !normalizeSQL_words, H. reflexivity.
Qed.

Lemma compareView_same_words_witness :
  map ToUpper (Fields "select  id from users ") =
    map ToUpper (Fields "SELECT id
  FROM users") /\
  compareView "v" (mkView "v" EmptyString "select  id from users ")
              (mkView "v" EmptyString "SELECT id
  FROM users") = None.
Proof.
  split; [reflexivity|].
  apply (compareView_same_words "v"
           (mkView "v" EmptyString "select  id from users ")
           (mkView "v" EmptyString "SELECT id
  FROM users")).
  reflexivity.
Defined.

End DiffMore.

(** ** More on the transformer *)
Module DialectMore.
Import GoStrings Regexp Schema Dialect Props MoreProps DialectFacts.
Local Open Scope list_scope.

Lemma upper_ascii_idem (c : ascii) :
  upper_ascii (upper_ascii c) = upper_ascii c.
Proof. destruct c as [[] [] [] [] [] [] [] []]; reflexivity. Qed.

Lemma ToUpper_idem (s : string) : ToUpper (ToUpper s) = ToUpper s.
Proof.
  induction s as [|c s IH]; [reflexivity|].
  cbn [ToUpper]. rewrite upper_ascii_idem, IH. reflexivity.
Qed.

(** *** Defaults *)

(** A second transformation of a default. *)
Lemma transformDefault_twice (t : Transformer) (d : string) :
  match transformDefault t d with
  | Some d' => transformDefault t d'
  | None => None
  end = transformDefault t d.
Proof.
  unfold transformDefault.
  remember (eqs (to t) "postgres") as p.
  remember (eqs (to t) "mysql") as m.
  remember (eqs (to t) "sqlserver") as s.
  remember (ToUpper d) as u.
  destruct (eqs u "NOW()" || eqs u "CURRENT_TIMESTAMP" ||
            eqs u "GETDATE()" || eqs u "GETUTCDATE()") eqn:E1.
  { destruct p, m, s; reflexivity. }
  destruct (eqs u "TRUE" || eqs u "FALSE") eqn:E2.
  { destruct m; [destruct (eqs u "TRUE"); reflexivity|].
    destruct s; [destruct (eqs u "TRUE"); reflexivity|].
    rewrite <- Hequ, E1, E2. reflexivity. }
  destruct (eqs u "GEN_RANDOM_UUID()" || eqs u "UUID()" || eqs u "NEWID()")
    eqn:E3.
  { destruct p, m, s; reflexivity. }
  rewrite <- Hequ, E1, E2, E3. reflexivity.
Qed.

(** Transforming a default expression that has been transformed for the
    same target changes nothing more: the expression of each family that
    the target takes is itself left as it is. *)
Theorem transformDefault_idempotent (t : Transformer) (d : string) :
  match transformDefault t d with
  | Some d' => transformDefault t d'
  | None => None
  end = transformDefault t d.
Proof. exact (transformDefault_twice t d). Qed.

(** *** Identity columns *)

Lemma mapIdentityType_idempotent (t : Transformer) (ty : string) :
  mapIdentityType t (ToUpper (mapIdentityType t (ToUpper ty))) =
    mapIdentityType t (ToUpper ty).
Proof.
  unfold mapIdentityType.
  remember (eqs (to t) "postgres") as p.
  remember (eqs (to t) "mysql") as m.
  remember (eqs (to t) "sqlserver") as s.
  destruct p; [destruct (Contains (ToUpper ty) "BIG"); reflexivity|].
  destruct m; [destruct (Contains (ToUpper ty) "BIG"); reflexivity|].
  destruct s; [destruct (Contains (ToUpper ty) "BIG"); reflexivity|].
  apply ToUpper_idem.
Qed.

(** An identity column that has been transformed comes out of a second
    transformation to the same target as it went in, without a warning:
    the identity types of a target are fixed points of its mapping. *)
Theorem transformColumn_identity_idempotent (t : Transformer) (c : Column)
    (tn : string) :
  Column_IsIdentity c = true ->
  transformColumn t (transformColumn t c tn).1 tn =
    ((transformColumn t c tn).1, []).
Proof.
  intros Hid. unfold transformColumn, transformType. rewrite Hid. cbn.
  rewrite mapIdentityType_idempotent.
  pose proof (transformDefault_twice t) as Hd.
  destruct (Column_Default c) as [d|]; [|reflexivity].
  specialize (Hd d). destruct (transformDefault t d) as [d'|].
  - rewrite Hd. reflexivity.
  - reflexivity.
Qed.

Lemma transformColumn_identity_idempotent_witness :
  Column_IsIdentity (mkColumn "id" "bigserial" false (Some "now()") true
                              false true EmptyString) = true /\
  transformColumn (NewTransformer "postgres" "mysql")
    (transformColumn (NewTransformer "postgres" "mysql")
       (mkColumn "id" "bigserial" false (Some "now()") true false true
                 EmptyString) "t").1 "t" =
    ((transformColumn (NewTransformer "postgres" "mysql")
        (mkColumn "id" "bigserial" false (Some "now()") true false true
                  EmptyString) "t").1, []).
Proof.
  split; [reflexivity|].
  apply (transformColumn_identity_idempotent
           (NewTransformer "postgres" "mysql")); reflexivity.
Defined.

(** *** Warnings *)

Lemma checkDataLoss_postgres (src o m tn cn : string) :
  checkDataLoss (NewTransformer src "postgres") o m tn cn = EmptyString.
Proof.
  unfold checkDataLoss. cbn [to].
  change (eqs "postgres" "sqlserver") with false.
  change (eqs "postgres" "mysql") with false.
  rewrite !andb_false_r. reflexivity.
Qed.

Lemma transformTable_postgres_warnings (src : string) (tb : Table) :
  (transformTable (NewTransformer src "postgres") tb).2 = [].
Proof.
  unfold transformTable; cbn. apply concat_nil.
  rewrite map_map. apply Forall_map, Forall_forall. intros c _.
  unfold transformColumn, transformType.
  destruct (Column_IsIdentity c); [reflexivity|].
  rewrite checkDataLoss_postgres. reflexivity.
Qed.

(** A transformation to postgres warns about no column: its warnings are
    one per view, in the order of the views, when the source dialect is
    another one, and none when the source is postgres too. *)
Theorem Transform_postgres_warnings (src : string) (s : Schema) :
  (Transform (NewTransformer src "postgres") s).2 =
    if eqs src "postgres" then [] else map (view_warning src) (Views s).
Proof.
  unfold Transform. cbn [snd]. rewrite !map_map.
  rewrite (concat_nil (map (fun x => (transformTable _ x).2) (Tables s)))
    by (apply Forall_map, Forall_forall; intros tb _;
        apply transformTable_postgres_warnings).
  cbn [app]. unfold transformView. cbn [snd from to].
  destruct (eqs src "postgres"); cbn [negb].
  - induction (Views s) as [|v l IH]; [reflexivity | exact IH].
  - induction (Views s) as [|v l IH]; [reflexivity|].
    cbn [map concat app]. rewrite IH. reflexivity.
Qed.

(** *** Index methods *)

Lemma mapIndexType_sqlserver (src ty : string) :
  mapIndexType (NewTransformer src "sqlserver") ty = EmptyString.
Proof.
  unfold mapIndexType. cbn [to].
  change (eqs "sqlserver" "mysql") with false.
  change (eqs "sqlserver" "sqlserver") with true.
  destruct (eqs ty EmptyString); [reflexivity|].
  destruct (_ || _); reflexivity.
Qed.

Lemma mapIndexType_mysql (src ty : string) :
  mysql_method (mapIndexType (NewTransformer src "mysql") ty).
Proof.
  unfold mapIndexType, mysql_method. cbn [to].
  change (eqs "mysql" "mysql") with true.
  destruct (eqs ty EmptyString); [repeat split; discriminate|].
  destruct (eqs (ToUpper ty) "GIN") eqn:E1; [repeat split; discriminate|].
  destruct (eqs (ToUpper ty) "GIST") eqn:E2; [repeat split; discriminate|].
  destruct (eqs (ToUpper ty) "BRIN") eqn:E3; [repeat split; discriminate|].
  cbn. split; [apply ToUpper_idem|].
  repeat split; intros H; rewrite H in *; discriminate.
Qed.

Lemma all_indexes_Transform (t : Transformer) (s : Schema) :
  all_indexes (Transform t s).1 = map (transformIndex t) (all_indexes s).
Proof.
  unfold all_indexes, Transform; cbn. rewrite map_app, !map_map. f_equal.
  induction (Tables s) as [|tb l IH]; [reflexivity|].
  cbn [map concat]. rewrite map_app, IH. reflexivity.
Qed.

(** After a transformation to sqlserver no index, standalone or of a
    table, has a method; after one to mysql every index method is in upper
    case and none is GIN, GIST or BRIN. *)
Theorem Transform_index_methods (src : string) (s : Schema) :
  Forall (fun i => Index_Type i = EmptyString)
         (all_indexes (Transform (NewTransformer src "sqlserver") s).1) /\
  Forall (fun i => mysql_method (Index_Type i))
         (all_indexes (Transform (NewTransformer src "mysql") s).1).
Proof.
  rewrite !all_indexes_Transform. split; apply Forall_map, Forall_forall;
    intros i _; cbn.
  - apply mapIndexType_sqlserver.
  - apply mapIndexType_mysql.
Qed.

End DialectMore.

(** ** A dialect transformed into itself *)
Module SameDialect.
Import GoStrings Regexp Schema Dialect Props Spelling Samples ParserFacts
       DialectFacts DialectMore.
Local Open Scope list_scope.



(** *** The repetition of a character class *)




(** *** The pattern of a length *)










(** *** Types *)





























(** *** Identity types, defaults, index methods *)





(** *** Columns, tables, schemas *)







(** The sample schema is in the spelling of postgres and comes back as it
    is; with the column type INT in place of INTEGER a schema is not in
    that spelling, and does not. *)
Example Transform_canonical_pg :
  canonical_schema "postgres" canonical_pg = true /\
  Transform (NewTransformer "postgres" "postgres") canonical_pg
    = (canonical_pg, []) /\
  canonical_schema "postgres" (one_column "INT") = false /\
  canonical_schema "postgres" (one_column "INTEGER") = true /\
  canonical_schema "mysql" (one_column "VARCHAR(255)") = true /\
  canonical_schema "sqlserver" (one_column "VARCHAR(255)") = false /\
  canonical_schema "sqlserver" (one_column "NVARCHAR(255)") = true.
Proof. repeat split; vm_compute; reflexivity. Qed.

End SameDialect.

(** ** Connection strings *)
Module DbFacts.
Import GoStrings Go Dialect Db.

Lemma take_HasPrefix (p s : string) :
  String.eqb (take_str (len p) s) p = true -> HasPrefix s p = true.
Proof.
  revert s. induction p as [|a p IH]; intros s H.
  - destruct s; reflexivity.
  - destruct s as [|b s]; [discriminate|].
    cbn in H. cbn [HasPrefix].
    destruct (Ascii.eqb b a) eqn:E; [|discriminate].
    unfold eqb_ascii. rewrite E. cbn. apply IH, H.
Qed.

(** When [detectDialect] finds a dialect, it is one of the three supported
    ones, whatever the URL parser says of the scheme: postgresql is read as
    postgres and mssql as sqlserver. *)
Theorem detectDialect_supported (url_scheme : string -> option string)
    (connStr dialect : string) :
  detectDialect url_scheme connStr = (dialect, None) ->
  IsSupported dialect = true.
Proof.
  unfold detectDialect.
  repeat match goal with
         | |- context [if ?b then _ else _] => destruct b
         | |- context [match ?o with Some _ => _ | None => _ end] =>
             destruct o
         end;
    intros [= <-]; reflexivity.
Qed.

Lemma detectDialect_supported_witness :
  detectDialect (fun _ => None) "mssql://host/db" = ("sqlserver", None) /\
  IsSupported "sqlserver" = true.
Proof.
  assert (H : detectDialect (fun _ => None) "mssql://host/db"
              = ("sqlserver", None)) by reflexivity.
  split; [exact H|].
  exact (detectDialect_supported (fun _ => None) "mssql://host/db"
                                 "sqlserver" H).
Defined.

(** Every text that [isConnectionString] takes for a connection string is
    one whose dialect [detectDialect] finds, by its prefix alone. *)
Theorem isConnectionString_detected (url_scheme : string -> option string)
    (s : string) :
  isConnectionString s = true ->
  exists dialect,
    detectDialect url_scheme s = (dialect, None) /\
    IsSupported dialect = true.
Proof.
  unfold isConnectionString. cbn [existsb].
  rewrite !orb_true_iff, !andb_true_iff.
  intros H.
  assert (Hp : HasPrefix s "postgres://" = true \/
               HasPrefix s "postgresql://" = true \/
               HasPrefix s "mysql://" = true \/
               HasPrefix s "sqlserver://" = true \/
               HasPrefix s "mssql://" = true).
  { destruct H as [[_ H]|[[_ H]|[[_ H]|[[_ H]|[[_ H]|H]]]]];
      [| | | | |discriminate]; apply take_HasPrefix in H; auto. }
  unfold detectDialect.
  destruct (HasPrefix s "postgres://"); [eexists; split; reflexivity|].
  destruct (HasPrefix s "postgresql://"); [eexists; split; reflexivity|].
  destruct (HasPrefix s "mysql://"); [eexists; split; reflexivity|].
  destruct (HasPrefix s "sqlserver://"); [eexists; split; reflexivity|].
  destruct (HasPrefix s "mssql://"); [eexists; split; reflexivity|].
  exfalso. intuition discriminate.
Qed.

Lemma isConnectionString_detected_witness :
  isConnectionString "postgresql://localhost/mydb" = true /\
  exists dialect,
    detectDialect (fun _ => None) "postgresql://localhost/mydb"
      = (dialect, None) /\
    IsSupported dialect = true.
Proof.
  split; [reflexivity|].
  apply (isConnectionString_detected (fun _ => None)
                                     "postgresql://localhost/mydb").
  reflexivity.
Defined.

End DbFacts.

(** ** The differ on a schema and its transform *)
Module TransformDiff.
Import GoStrings Schema Dialect Diff Props MoreProps DialectFacts DiffFacts
       DiffMore.
Local Open Scope list_scope.

Lemma same_keys_of_eq {A : Type} (key : A -> string) (l1 l2 : list A) :
  map key l1 = map key l2 -> same_keys key l1 l2.
Proof. intros H k. rewrite H. reflexivity. Qed.

Lemma map_key_map {A : Type} (key : A -> string) (f : A -> A) (l : list A) :
  (forall x, key (f x) = key x) -> map key (map f l) = map key l.
Proof. intros H. rewrite map_map. apply map_ext. exact H. Qed.

Lemma latest_map {A : Type} (key : A -> string) (f : A -> A) (k : string)
    (l : list A) :
  (forall x, key (f x) = key x) ->
  latest key k (map f l) = f <$> latest key k l.
Proof.
  intros H. induction l as [|x l IH]; [reflexivity|].
  cbn [map latest]. rewrite IH, H.
  destruct (latest key k l); [reflexivity|].
  destruct (String.eqb (key x) k); reflexivity.
Qed.

Lemma transformColumn_name (t : Transformer) (tn : string) (c : Column) :
  Column_Name (transformColumn t c tn).1 = Column_Name c.
Proof. apply (transformColumn_frame t c tn). Qed.

Lemma transformTable_name (t : Transformer) (tb : Table) :
  Table_Name (transformTable t tb).1 = Table_Name tb.
Proof. reflexivity. Qed.

(** The nameable parts of a transformed table. *)
Lemma transformTable_keys (t : Transformer) (tb : Table) :
  same_keys Column_Name (Table_Columns tb)
            (Table_Columns (transformTable t tb).1) /\
  same_keys Index_Name (Table_Indexes tb)
            (Table_Indexes (transformTable t tb).1) /\
  same_keys fk_key (Table_ForeignKeys tb)
            (Table_ForeignKeys (transformTable t tb).1) /\
  samePrimaryKey (Table_PrimaryKey tb) (Table_PrimaryKey (transformTable t tb).1)
    = true.
Proof.
  unfold transformTable; cbn.
  split; [|split; [|split]].
  - apply same_keys_of_eq. rewrite !map_map. apply map_ext.
    intros c. symmetry. apply transformColumn_name.
  - apply same_keys_of_eq. rewrite map_map. reflexivity.
  - apply same_keys_of_eq. reflexivity.
  - apply samePrimaryKey_refl.
Qed.

Lemma compareTable_transformed (t : Transformer) (tb : Table)
    (tc : TableChanges) :
  compareTable tb (transformTable t tb).1 = Some tc ->
  AddedColumns tc = [] /\ RemovedColumns tc = [] /\
  TableChanges_AddedIndexes tc = [] /\ TableChanges_RemovedIndexes tc = [] /\
  AddedForeignKeys tc = [] /\ RemovedForeignKeys tc = [] /\
  PrimaryKeyChanged tc = false.
Proof.
  destruct (transformTable_keys t tb) as (Hc & Hi & Hf & Hpk).
  apply only_in_both_nil in Hc as [Hc1 Hc2].
  apply only_in_both_nil in Hi as [Hi1 Hi2].
  apply only_in_both_nil in Hf as [Hf1 Hf2].
  unfold compareTable. rewrite Hc1, Hc2, Hi1, Hi2, Hf1, Hf2, Hpk.
  match goal with
  | |- (if ?b then _ else _) = _ -> _ => destruct b
  end; [discriminate|].
  intros [= <-]. cbn. repeat split.
Qed.

(** Between a schema and its transform, for any two dialect names, the
    differ finds no table, index or view added or removed and no view
    modified; every table it reports as modified has changes of columns
    only: no column, index or foreign key added or removed, and the primary
    key unchanged. *)
Theorem Compare_Transform (t : Transformer) (s : Schema) :
  let c := Compare s (Transform t s).1 in
  AddedTables c = [] /\ RemovedTables c = [] /\
  AddedIndexes c = [] /\ RemovedIndexes c = [] /\
  AddedViews c = [] /\ RemovedViews c = [] /\ ModifiedViews c = [] /\
  Forall (fun tc =>
            AddedColumns tc = [] /\ RemovedColumns tc = [] /\
            TableChanges_AddedIndexes tc = [] /\
            TableChanges_RemovedIndexes tc = [] /\
            AddedForeignKeys tc = [] /\ RemovedForeignKeys tc = [] /\
            PrimaryKeyChanged tc = false)
         (ModifiedTables c).
Proof.
  cbv zeta. unfold Compare, Transform. cbn [fst Tables Indexes Views
    AddedTables RemovedTables AddedIndexes RemovedIndexes AddedViews
    RemovedViews ModifiedViews ModifiedTables].
  rewrite !map_map.
  assert (Hv : map (fun v => (transformView t v).1) (Views s) = Views s)
    by (apply map_id_ext, transformView_fst).
  rewrite Hv.
  assert (Ht : same_keys Table_Name (Tables s)
                 (map (fun x => (transformTable t x).1) (Tables s))).
  { apply same_keys_of_eq. rewrite map_map. reflexivity. }
  assert (Hi : same_keys Index_Name (Indexes s)
                 (map (transformIndex t) (Indexes s))).
  { apply same_keys_of_eq. rewrite map_map. reflexivity. }
  apply only_in_both_nil in Ht as [Ht1 Ht2].
  apply only_in_both_nil in Hi as [Hi1 Hi2].
  rewrite Ht1, Ht2, Hi1, Hi2, !only_in_same.
  rewrite in_both_same by (intros; apply compareView_refl).
  repeat split.
  apply Forall_forall. intros tc Hin.
  apply elem_of_in_both in Hin as (k & ts & tt & Hs & Htt & Hc).
  rewrite index_by_lookup in Hs, Htt.
  rewrite (latest_map Table_Name (fun x => (transformTable t x).1)) in Htt
    by (intros; reflexivity).
  rewrite Hs in Htt. injection Htt as <-.
  apply (compareTable_transformed t ts tc Hc).
Qed.

End TransformDiff.

(** ** The primary key of a table, as the differ sees it *)
Module PrimaryKeyFacts.
Import GoStrings Go Schema Diff.

(** The differ reads the primary key of a table from its PrimaryKey alone:
    it sees nothing when an inline PRIMARY KEY is dropped, and a change
    when a table-level one is. *)
Remark inline_primary_key_unseen :
  exists inline plain member,
    Parse "CREATE TABLE users (id SERIAL PRIMARY KEY)" =
      Returned (inline, None) /\
    Parse "CREATE TABLE users (id SERIAL NOT NULL)" =
      Returned (plain, None) /\
    Parse "CREATE TABLE users (id SERIAL NOT NULL, PRIMARY KEY (id))" =
      Returned (member, None) /\
    IsEmpty (Compare inline plain) = true /\
    IsEmpty (Compare member plain) = false.
Proof.
  eexists _, _, _. split; [vm_compute; reflexivity|].
  split; [vm_compute; reflexivity|]. split; [vm_compute; reflexivity|].
  split; vm_compute; reflexivity.
Qed.

End PrimaryKeyFacts.
